(** * SiteMirror: the cache policy, header transforms, redirect fixing and
      cache middleware of [index.js], embedded and verified.

    JavaScript strings are modelled as [string], that is as sequences of
    8-bit code units; every string operation the program uses
    ([toLowerCase], [trim], [split], [startsWith], [includes], [replace])
    is written out below with the behaviour it has on that range.  The
    path encoder, whose behaviour depends on the code units above 255,
    is given on sequences of full UTF-16 code units. *)

From Stdlib Require Import String Ascii List Bool ZArith NArith Lia.
From Stdlib Require Import Numbers.DecimalString Sorting.Permutation.
Import ListNotations.
Open Scope string_scope.
Set Warnings "-register-all".

(* ===================================================================== *)
(** ** JavaScript string primitives                                       *)
(* ===================================================================== *)

Module JS.

(** [c.toLowerCase()] on one code unit: A-Z, and the Latin-1 capitals
    U+00C0..U+00DE except the multiplication sign U+00D7. *)
Definition lower_char (c : ascii) : ascii :=
  let n := N_of_ascii c in
  if (((65 <=? n) && (n <=? 90)) ||
      ((192 <=? n) && (n <=? 222) && negb (n =? 215)))%N
  then ascii_of_N (n + 32) else c.

Fixpoint toLowerCase (s : string) : string :=
  match s with
  | EmptyString => EmptyString
  | String c s' => String (lower_char c) (toLowerCase s')
  end.

(** White space of [String.prototype.trim] in the 8-bit range:
    TAB, LF, VT, FF, CR, SPACE and NBSP. *)
Definition is_space (c : ascii) : bool :=
  let n := N_of_ascii c in
  (((9 <=? n) && (n <=? 13)) || (n =? 32) || (n =? 160))%N.

Fixpoint trimStart (s : string) : string :=
  match s with
  | EmptyString => EmptyString
  | String c s' => if is_space c then trimStart s' else s
  end.

Fixpoint trimEnd (s : string) : string :=
  match s with
  | EmptyString => EmptyString
  | String c s' =>
      match trimEnd s' with
      | EmptyString => if is_space c then EmptyString else String c EmptyString
      | t => String c t
      end
  end.

Definition trim (s : string) : string := trimEnd (trimStart s).

(** [s.startsWith(p)]. *)
Fixpoint startsWith (p s : string) : bool :=
  match p, s with
  | EmptyString, _ => true
  | String a p', String b s' => Ascii.eqb a b && startsWith p' s'
  | String _ _, EmptyString => false
  end.

(** [s.includes(p)]: [p] occurs at some position of [s]. *)
Fixpoint includes (p s : string) : bool :=
  startsWith p s ||
  match s with
  | EmptyString => false
  | String _ s' => includes p s'
  end.

(** [s.slice(n)] for [0 <= n]. *)
Fixpoint drop (n : nat) (s : string) : string :=
  match n, s with
  | O, _ => s
  | S n', String _ s' => drop n' s'
  | S _, EmptyString => EmptyString
  end.

(** The replacement patterns of [String.prototype.replace] for a
    pattern without groups: [$$] is a dollar sign, [$&] the matched
    text, [$`] the text before the match and [$'] the text after it;
    any other [$] stands for itself. *)
Fixpoint expand (matched before after template : string) : string :=
  match template with
  | EmptyString => EmptyString
  | String c t =>
      if Ascii.eqb c "$" then
        match t with
        | String d rest =>
            if Ascii.eqb d "$" then String "$" (expand matched before after rest)
            else if Ascii.eqb d "&" then matched ++ expand matched before after rest
            else if Ascii.eqb d "`" then before ++ expand matched before after rest
            else if Ascii.eqb d "'" then after ++ expand matched before after rest
            else String c (expand matched before after t)
        | EmptyString => String c EmptyString
        end
      else String c (expand matched before after t)
  end.

(** [s.replace(p, r)] with a string pattern [p] and a string
    replacement [r]: the first occurrence of [p] is replaced by [r] with
    its [$] patterns expanded; [s] is returned as it is when [p] does
    not occur.  [before] is the text already passed over. *)
Fixpoint replace_from (before p r s : string) : string :=
  if startsWith p s
  then expand p before (drop (String.length p) s) r ++ drop (String.length p) s
  else match s with
       | EmptyString => EmptyString
       | String c s' => String c (replace_from (before ++ String c EmptyString) p r s')
       end.

Definition replace (p r s : string) : string := replace_from EmptyString p r s.

(** [s.split(sep)] for a one-character separator; the result is never
    empty ([''.split(',')] is [['']]). *)
Fixpoint split (sep : ascii) (s : string) : list string :=
  match s with
  | EmptyString => [EmptyString]
  | String c s' =>
      if Ascii.eqb c sep then EmptyString :: split sep s'
      else match split sep s' with
           | [] => [String c EmptyString]
           | w :: ws => String c w :: ws
           end
  end.

(** [a.pop()] read as a value: the last element.  It is only applied to
    results of [split], which are never empty; the default stands for
    [undefined]. *)
Definition pop (a : list string) : string := List.last a EmptyString.

(** [a.includes(x)] on an array of strings. *)
Definition arr_includes (a : list string) (x : string) : bool :=
  existsb (String.eqb x) a.

(** The value the object or array [es] of pairs holds last under [k]. *)
Definition last_value (es : list (string * string)) (k : string) : option string :=
  match rev (filter (fun e => fst e =? k) es) with
  | e :: _ => Some (snd e)
  | [] => None
  end.

(** Truthiness of a possibly-absent string: [undefined], [null] and
    [''] are falsy. *)
Definition truthy (o : option string) : bool :=
  match o with
  | Some s => negb (s =? "")
  | None => false
  end.

(** [o || d] for a possibly-absent string. *)
Definition or_default (o : option string) (d : string) : string :=
  match o with
  | Some s => if s =? "" then d else s
  | None => d
  end.

End JS.

(* ===================================================================== *)
(** ** Configuration                                                      *)
(* ===================================================================== *)

(** The constants [index.js] reads from the environment once at start-up.
    [CACHE_STRATEGY] stays a string: nothing in the program checks that
    it is one of ['off'], ['force'], ['auto']. *)
Record Config := {
  PROTOCOL : string;
  ORIGIN_SERVER : string;
  CACHE_TTL : Z;
  CACHE_CLEAR_TOKEN : string;
  CACHE_STRATEGY : string;
  CACHE_STATIC_ONLY : bool
}.

(* ===================================================================== *)
(** ** Resource classifier and cache policy                               *)
(* ===================================================================== *)

Definition STATIC_EXTENSIONS : list string :=
  [ "jpg"; "jpeg"; "png"; "gif"; "bmp"; "webp"; "svg"; "ico";
    "woff"; "woff2"; "ttf"; "eot"; "otf";
    "css"; "js";
    "mp4"; "webm"; "mp3"; "wav"; "ogg";
    "pdf"; "xml"; "json"; "txt"; "csv"; "zip"; "gz"; "tar"; "rar"; "7z" ].

Definition staticMimeTypes : list string :=
  [ "image/"; "font/"; "application/font-"; "application/x-font-";
    "text/css"; "application/javascript"; "text/javascript";
    "video/"; "audio/"; "application/pdf"; "application/zip";
    "application/x-tar"; "application/x-rar-compressed";
    "application/x-7z-compressed" ].

(** [path.split('.').pop().toLowerCase()] *)
Definition extension (path : string) : string :=
  JS.toLowerCase (JS.pop (JS.split "." path)).

(** [isStaticResource(path, contentType)]; an absent argument is [None]. *)
Definition isStaticResource (path contentType : option string) : bool :=
  if match path with
     | Some p =>
         JS.truthy path && JS.arr_includes STATIC_EXTENSIONS (extension p)
     | None => false
     end
  then true
  else
    match contentType with
    | Some ct =>
        JS.truthy contentType &&
        existsb (fun mimeType => JS.includes mimeType ct) staticMimeTypes
    | None => false
    end.

(** [cacheControl.toLowerCase().split(',').map(d => d.trim())] *)
Definition directives (cacheControl : string) : list string :=
  map JS.trim (JS.split "," (JS.toLowerCase cacheControl)).

(** [shouldCacheResponse(path, contentType, cacheControl)] *)
Definition shouldCacheResponse (cfg : Config)
    (path contentType cacheControl : option string) : bool :=
  if CACHE_STRATEGY cfg =? "off" then false
  else if CACHE_STATIC_ONLY cfg && negb (isStaticResource path contentType)
  then false
  else if CACHE_STRATEGY cfg =? "force" then true
  else if CACHE_STRATEGY cfg =? "auto" then
    match cacheControl with
    | None => true
    | Some cc =>
        if negb (JS.truthy cacheControl) then true
        else
          let ds := directives cc in
          if JS.arr_includes ds "no-store" || JS.arr_includes ds "no-cache"
          then false
          else if JS.arr_includes ds "private" && negb (CACHE_STATIC_ONLY cfg)
          then false
          else true
    end
  else false.

(* ===================================================================== *)
(** ** Plain objects, [Headers], JSON values, responses                   *)
(* ===================================================================== *)

(** A call either returns or throws. *)
Inductive Completion (A : Type) : Type :=
| Return (a : A)
| Throw (error : string).
Arguments Return {A} a.
Arguments Throw {A} error.

(** A plain object with string values, as an association list in
    insertion order, one binding per key.  [Object.entries] reads the
    list off. *)
Module Obj.
Definition t := list (string * string).

(** Defining the own property [k] with the value [v], overwriting in
    place: what [Object.fromEntries] does for every pair, whatever the
    key. *)
Fixpoint define (o : t) (k v : string) : t :=
  match o with
  | [] => [(k, v)]
  | (k', x) :: r => if k' =? k then (k', v) :: r else (k', x) :: define r k v
  end.

(** [o[k] = v] on an object that inherits from [Object.prototype] (one
    written [{}]): the key [__proto__] is the prototype's accessor,
    whose setter ignores a string, so that nothing is stored; every
    other key becomes or stays an own property. *)
Definition set (o : t) (k v : string) : t :=
  if k =? "__proto__" then o else define o k v.

Fixpoint get (o : t) (k : string) : option string :=
  match o with
  | [] => None
  | (k', x) :: r => if k' =? k then Some x else get r k
  end.

Definition entries (o : t) : list (string * string) := o.

Definition define_entry (o : t) (e : string * string) : t :=
  define o (fst e) (snd e).

Definition fromEntries (es : list (string * string)) : t :=
  fold_left define_entry es [].
End Obj.

(** The [Headers] class: a header list.  Names are compared without
    regard to case and read back in lower case.  Names and values are
    taken to be valid header names and values, already normalised, as
    they are when they come from another [Headers] object. *)
Module Headers.
Definition t := list (string * string).

Definition named (name : string) (e : string * string) : bool :=
  JS.toLowerCase (fst e) =? JS.toLowerCase name.

Definition values (h : t) (name : string) : list string :=
  map snd (filter (named name) h).

Definition has (h : t) (name : string) : bool := existsb (named name) h.

(** [h.get(name)]: the values of that name joined by [", "], [null]
    when there is none. *)
Definition get (h : t) (name : string) : option string :=
  match values h name with
  | [] => None
  | vs => Some (String.concat ", " vs)
  end.

Definition append (h : t) (name value : string) : t :=
  (h ++ [(name, value)])%list.

Definition delete (h : t) (name : string) : t :=
  filter (fun e => negb (named name e)) h.

Fixpoint set_first (name value : string) (h : t) : t :=
  match h with
  | [] => []
  | e :: r =>
      if named name e then (fst e, value) :: delete r name
      else e :: set_first name value r
  end.

(** [h.set(name, value)]: the first header of that name takes the
    value and the others go; appended when there is none. *)
Definition set (h : t) (name value : string) : t :=
  if has h name then set_first name value h else append h name value.

Fixpoint distinct (l : list string) : list string :=
  match l with
  | [] => []
  | n :: r => if existsb (String.eqb n) r then distinct r else n :: distinct r
  end.

Fixpoint insert_name (n : string) (l : list string) : list string :=
  match l with
  | [] => [n]
  | m :: r => if String.leb n m then n :: l else m :: insert_name n r
  end.

Definition sort (l : list string) : list string := fold_right insert_name [] l.

(** The names of [h] in lower case, each once, sorted by code unit. *)
Definition names (h : t) : list string :=
  sort (distinct (map (fun e => JS.toLowerCase (fst e)) h)).

Definition entries_of (h : t) (n : string) : list (string * string) :=
  if n =? "set-cookie" then map (fun v => (n, v)) (values h n)
  else match get h n with
       | Some v => [(n, v)]
       | None => []
       end.

(** [h.entries()]: names in sorted order, the values of a name
    combined, except [set-cookie] whose values come one by one. *)
Definition entries (h : t) : list (string * string) :=
  flat_map (entries_of h) (names h).

Definition of_entries (es : list (string * string)) : t :=
  fold_left (fun h e => append h (fst e) (snd e)) es [].

(** [new Headers(obj)] for a plain object. *)
Definition of_object (o : Obj.t) : t := of_entries (Obj.entries o).

(** [new Headers(h)] for a [Headers] object. *)
Definition copy (h : t) : t := of_entries (entries h).
End Headers.

Module JSON.
Inductive t : Type :=
| Null
| Bool (b : bool)
| Num (z : Z)
| Str (s : string)
| Arr (l : list t)
| Object (l : list (string * t)).

Definition string_of_Z (z : Z) : string := NilZero.string_of_int (Z.to_int z).

Definition dquote : ascii := ascii_of_N 34.
Definition backslash : ascii := ascii_of_N 92.

Definition hex_digit (n : N) : ascii :=
  if (n <? 10)%N then ascii_of_N (48 + n) else ascii_of_N (87 + n).

Definition escape_char (c : ascii) : string :=
  let n := N_of_ascii c in
  if (n =? 34)%N then String backslash (String dquote "")
  else if (n =? 92)%N then String backslash (String backslash "")
  else if (n =? 8)%N then String backslash "b"
  else if (n =? 9)%N then String backslash "t"
  else if (n =? 10)%N then String backslash "n"
  else if (n =? 12)%N then String backslash "f"
  else if (n =? 13)%N then String backslash "r"
  else if (n <? 32)%N then
    String backslash ("u00" ++ String (hex_digit (n / 16)) (String (hex_digit (n mod 16)) ""))
  else String c "".

Fixpoint escape (s : string) : string :=
  match s with
  | EmptyString => EmptyString
  | String c s' => escape_char c ++ escape s'
  end.

Definition quote (s : string) : string :=
  String dquote (escape s ++ String dquote "").

(** [JSON.stringify(v)] *)
Fixpoint stringify (j : t) : string :=
  match j with
  | Null => "null"
  | Bool true => "true"
  | Bool false => "false"
  | Num z => string_of_Z z
  | Str s => quote s
  | Arr l =>
      "[" ++ (fix items (l : list t) : string :=
                match l with
                | [] => ""
                | x :: r =>
                    stringify x ++
                    match r with [] => "" | _ => "," ++ items r end
                end) l ++ "]"
  | Object l =>
      "{" ++ (fix members (l : list (string * t)) : string :=
                match l with
                | [] => ""
                | (k, x) :: r =>
                    quote k ++ ":" ++ stringify x ++
                    match r with [] => "" | _ => "," ++ members r end
                end) l ++ "}"
  end.
End JSON.

(** [new TextEncoder().encode(s)]: UTF-8 of 8-bit code units. *)
Definition utf8_char (c : ascii) : list Byte.byte :=
  let n := N_of_ascii c in
  if (n <? 128)%N then [byte_of_ascii c]
  else [byte_of_ascii (ascii_of_N (192 + n / 64));
        byte_of_ascii (ascii_of_N (128 + n mod 64))].

Fixpoint utf8 (s : string) : list Byte.byte :=
  match s with
  | EmptyString => []
  | String c s' => (utf8_char c ++ utf8 s')%list
  end.

(** A [Response]: its body is the byte sequence [arrayBuffer()] yields
    (the empty sequence for a [null] body). *)
Record Response := {
  res_status : Z;
  res_statusText : string;
  res_headers : Headers.t;
  res_body : list Byte.byte
}.

(** [c.json(value, status)] and [c.text(text, status)] of the framework. *)
Definition c_json (value : JSON.t) (status : Z) : Response :=
  {| res_status := status;
     res_statusText := "";
     res_headers := Headers.set [] "Content-Type" "application/json";
     res_body := utf8 (JSON.stringify value) |}.

Definition c_text (text : string) (status : Z) : Response :=
  {| res_status := status;
     res_statusText := "";
     res_headers := Headers.set [] "Content-Type" "text/plain; charset=UTF-8";
     res_body := utf8 text |}.

(** Assigning to [c.res] when the context already holds a response:
    the framework's setter builds [new Response(res.body, res)] and
    copies the headers of the response it held over it, all but
    [content-type] (the [set-cookie] values anew, every other name with
    [set]).  So a header the earlier response carried keeps its value,
    and a header deleted from the new response comes back. *)
Definition set_res_step (held : Headers.t) (headers : Headers.t)
    (entry : string * string) : Headers.t :=
  let (k, v) := entry in
  if k =? "content-type" then headers
  else if k =? "set-cookie" then
    fold_left (fun h cookie => Headers.append h "set-cookie" cookie)
              (Headers.values held "set-cookie")
              (Headers.delete headers "set-cookie")
  else Headers.set headers k v.

Definition set_res (held : Response) (res : Response) : Response :=
  {| res_status := res_status res;
     res_statusText := res_statusText res;
     res_headers := fold_left (set_res_step (res_headers held))
                              (Headers.entries (res_headers held))
                              (Headers.copy (res_headers res));
     res_body := res_body res |}.

(** What the program reads of the request through the framework's
    context: [c.req.method], [c.req.url] (the full URL, scheme and host
    included), [c.req.path], the decoded query parameters behind
    [c.req.query(name)], and [c.req.raw.headers]. *)
Record HonoRequest := {
  req_method : string;
  req_url : string;
  req_path : string;
  req_query : list (string * string);
  req_headers : Headers.t
}.

Definition c_req_query (c : HonoRequest) (name : string) : option string :=
  Obj.get (req_query c) name.

(** The fields of a parsed [URL] the program reads. *)
Record URL := {
  url_protocol : string;
  url_host : string;
  url_pathname : string;
  url_search : string
}.

(** [new Date(ms).toISOString()] for a time value [ms] in milliseconds
    since the epoch, years 0000 to 9999. *)
Definition pad (width : nat) (z : Z) : string :=
  let s := JSON.string_of_Z z in
  String.concat "" (repeat "0" (width - String.length s)) ++ s.

Definition toISOString (ms : Z) : string :=
  let days := (ms / 86400000)%Z in
  let rem := (ms mod 86400000)%Z in
  let z := (days + 719468)%Z in
  let era := (z / 146097)%Z in
  let doe := (z - era * 146097)%Z in
  let yoe := ((doe - doe / 1460 + doe / 36524 - doe / 146096) / 365)%Z in
  let doy := (doe - (365 * yoe + yoe / 4 - yoe / 100))%Z in
  let mp := ((5 * doy + 2) / 153)%Z in
  let d := (doy - (153 * mp + 2) / 5 + 1)%Z in
  let m := (if mp <? 10 then mp + 3 else mp - 9)%Z in
  let y := (yoe + era * 400 + (if m <=? 2 then 1 else 0))%Z in
  pad 4 y ++ "-" ++ pad 2 m ++ "-" ++ pad 2 d ++ "T" ++
  pad 2 (rem / 3600000) ++ ":" ++ pad 2 ((rem / 60000) mod 60) ++ ":" ++
  pad 2 ((rem / 1000) mod 60) ++ "." ++ pad 3 (rem mod 1000) ++ "Z".

(* ===================================================================== *)
(** ** Header transformer (request to origin)                             *)
(* ===================================================================== *)

Definition dropped_request_headers : list string :=
  [ "accept-encoding"; "connection"; "keep-alive"; "content-length" ].

(** One turn of the loop of [processHeaders] over
    [originalHeaders.entries()]; [headers] is the object being filled. *)
Definition processHeaders_step (cfg : Config) (headers : Obj.t)
    (entry : string * string) : Obj.t :=
  let (key, value) := entry in
  let lowerKey := JS.toLowerCase key in
  if lowerKey =? "host" then Obj.set headers "host" (ORIGIN_SERVER cfg)
  else if negb (JS.arr_includes dropped_request_headers lowerKey)
  then Obj.set headers key value
  else headers.

(** [processHeaders(originalHeaders)] *)
Definition processHeaders (cfg : Config) (originalHeaders : Headers.t) : Headers.t :=
  Headers.of_object
    (fold_left (processHeaders_step cfg) (Headers.entries originalHeaders) []).

(* ===================================================================== *)
(** ** Redirect fixing                                                    *)
(* ===================================================================== *)

Section Redirect.

(** [new URL(s)] of the platform: [None] stands for the [TypeError] it
    throws on a string that is not a URL. *)
Variable URL_parse : string -> option URL.

(** [fixRedirectUrl(location, c)].  [new URL(c.req.url)] stands before the
    [try] block, so its exception leaves the function; the string
    operations inside the [try] block do not throw. *)
Definition fixRedirectUrl (cfg : Config) (location : string) (c : HonoRequest)
    : Completion (option string) :=
  if negb (JS.truthy (Some location)) then Return None
  else
    match URL_parse (req_url c) with
    | None => Throw "TypeError: Invalid URL"
    | Some url =>
        let protocol := JS.replace ":" "" (url_protocol url) in
        let host := url_host url in
        if JS.startsWith "http://" location || JS.startsWith "https://" location
        then
          if JS.includes (ORIGIN_SERVER cfg) location
          then Return (Some (JS.replace
                               (PROTOCOL cfg ++ "://" ++ ORIGIN_SERVER cfg)
                               (protocol ++ "://" ++ host)
                               location))
          else Return (Some location)
        else
          let path := if JS.startsWith "/" location then location
                      else "/" ++ location in
          Return (Some (protocol ++ "://" ++ host ++ path))
    end.

End Redirect.

(** A small [URL_parse] for URLs of the shape
    [scheme://host/path?query#fragment], to evaluate the definitions on
    concrete requests: the scheme is a non-empty run of letters, the host
    a non-empty run of characters other than space and the delimiters. *)
Fixpoint span (stop : ascii -> bool) (s : string) : string * string :=
  match s with
  | EmptyString => (EmptyString, EmptyString)
  | String c s' =>
      if stop c then (EmptyString, s)
      else let (a, b) := span stop s' in (String c a, b)
  end.

Definition is_letter (c : ascii) : bool :=
  let n := N_of_ascii (JS.lower_char c) in ((97 <=? n) && (n <=? 122))%N.

Definition is_delim (c : ascii) : bool :=
  let n := N_of_ascii c in ((n =? 47) || (n =? 63) || (n =? 35))%N.

Definition bad_host_char (c : ascii) : bool :=
  let n := N_of_ascii c in
  ((n <=? 32) || (n =? 60) || (n =? 62) || (n =? 64) || (n =? 91) ||
   (n =? 92) || (n =? 93) || (n =? 94) || (n =? 124) || (n =? 37))%N.

Definition all_chars (p : ascii -> bool) (s : string) : bool :=
  forallb p (list_ascii_of_string s).

Definition simple_URL_parse (s : string) : option URL :=
  let (scheme, rest) := span (fun c => negb (is_letter c)) s in
  if (scheme =? "") || negb (JS.startsWith "://" rest) then None
  else
    let (host, rest1) := span is_delim (JS.drop 3 rest) in
    if (host =? "") || negb (all_chars (fun c => negb (bad_host_char c)) host)
    then None
    else
      let (pathname, rest2) :=
        span (fun c => (N_of_ascii c =? 63)%N || (N_of_ascii c =? 35)%N) rest1 in
      let (search, _) := span (fun c => (N_of_ascii c =? 35)%N) rest2 in
      Some {| url_protocol := JS.toLowerCase scheme ++ ":";
              url_host := host;
              url_pathname := if pathname =? "" then "/" else pathname;
              url_search := if search =? "?" then "" else search |}.

(* ===================================================================== *)
(** ** The cache store                                                    *)
(* ===================================================================== *)

(** One cached response, as [cache.set] receives it. *)
Record CacheEntry := {
  body : list Byte.byte;
  contentType : string;
  status : Z;
  statusText : string;
  headers : Obj.t;
  cachedAt : Z
}.

(** Modelled from the spec: the bounded cache store, which is the
    [lru-cache] package and not a source file of the repository: a
    key-to-value store with max-entry eviction and per-entry
    time-to-live, exposing get, set, clear, entries, size.  The items are kept most
    recently used first; an item is stale once it is older than [ttl]
    ([ttl = 0] switches expiry off); [get] drops a stale item and
    refreshes the recency of a live one; [set] on a full store evicts the
    least recently used item. *)
Module LRUCache.
Record item := { key : string; value : CacheEntry; start : Z }.

Record t := { max : nat; ttl : Z; items : list item }.

Definition create (max : nat) (ttl : Z) : t :=
  {| max := max; ttl := ttl; items := [] |}.

Definition with_items (c : t) (l : list item) : t :=
  {| max := max c; ttl := ttl c; items := l |}.

Definition isStale (c : t) (now : Z) (i : item) : bool :=
  negb (ttl c =? 0)%Z && (now - start i >? ttl c)%Z.

Definition find (c : t) (k : string) : option item :=
  List.find (fun i => key i =? k) (items c).

Definition remove (k : string) (l : list item) : list item :=
  filter (fun i => negb (key i =? k)) l.

Definition get (c : t) (k : string) (now : Z) : option CacheEntry * t :=
  match find c k with
  | None => (None, c)
  | Some i =>
      if isStale c now i then (None, with_items c (remove k (items c)))
      else (Some (value i), with_items c (i :: remove k (items c)))
  end.

Definition set (c : t) (k : string) (v : CacheEntry) (now : Z) : t :=
  let fresh := {| key := k; value := v; start := now |} in
  match find c k with
  | Some _ => with_items c (fresh :: remove k (items c))
  | None =>
      with_items c
        (fresh :: (if (List.length (items c) <? max c)%nat then items c
                   else removelast (items c)))
  end.

Definition clear (c : t) : t := with_items c [].

Definition size (c : t) : nat := List.length (items c).

Definition entries (c : t) (now : Z) : list (string * CacheEntry) :=
  map (fun i => (key i, value i))
      (filter (fun i => negb (isStale c now i)) (items c)).
End LRUCache.

(** Every use of the [cache] object by a handler, in order. *)
Inductive CacheOp : Type :=
| OpGet (key : string)
| OpSet (key : string)
| OpClear
| OpEntries
| OpInfo.

(** The mutable state of the process as far as caching goes: the
    [cache] constant ([null] is [None]) and the uses made of it. *)
Record AppState := {
  cache : option LRUCache.t;
  cache_log : list CacheOp
}.

(** [const cache = CACHE_STRATEGY !== 'off' ? new LRUCache({max: 100,
    ttl: CACHE_TTL * 1000}) : null] *)
Definition initial_state (cfg : Config) : AppState :=
  {| cache := if CACHE_STRATEGY cfg =? "off" then None
              else Some (LRUCache.create 100 (CACHE_TTL cfg * 1000));
     cache_log := [] |}.

Definition used (st : AppState) (lru : LRUCache.t) (op : CacheOp) : AppState :=
  {| cache := Some lru; cache_log := (cache_log st ++ [op])%list |}.

Definition null_cache {A : Type} : Completion A :=
  Throw "TypeError: Cannot read properties of null".

(* ===================================================================== *)
(** ** Cache management endpoints                                         *)
(* ===================================================================== *)

Definition cache_disabled : Response :=
  c_json (JSON.Object [("error", JSON.Str "Cache is disabled")]) 403.

(** [app.get('/cache/info', ...)] *)
Definition cache_info (cfg : Config) (c : HonoRequest) (st : AppState)
    : Completion (Response * AppState) :=
  if CACHE_STRATEGY cfg =? "off" then Return (cache_disabled, st)
  else if negb (match c_req_query c "token" with
                | Some t => CACHE_CLEAR_TOKEN cfg =? t
                | None => false
                end)
  then Return (c_text "Unauthorized" 401, st)
  else
    match cache st with
    | None => null_cache
    | Some lru =>
        let cacheInfo := JSON.Object
          [ ("size", JSON.Num (Z.of_nat (LRUCache.size lru)));
            ("max", JSON.Num (Z.of_nat (LRUCache.max lru)));
            ("ttl", JSON.Num (LRUCache.ttl lru));
            ("calculatedSize", JSON.Num 0);
            ("strategy", JSON.Str (CACHE_STRATEGY cfg));
            ("staticOnly", JSON.Bool (CACHE_STATIC_ONLY cfg)) ] in
        Return (c_json cacheInfo 200, used st lru OpInfo)
    end.

(** [app.get('/cache/clear', ...)] *)
Definition cache_clear (cfg : Config) (c : HonoRequest) (st : AppState)
    : Completion (Response * AppState) :=
  if CACHE_STRATEGY cfg =? "off" then Return (cache_disabled, st)
  else
    match cache st with
    | None => null_cache
    | Some lru =>
        Return (c_json (JSON.Object
                          [ ("message", JSON.Str "Cache cleared successfully");
                            ("success", JSON.Bool true) ]) 200,
                used st (LRUCache.clear lru) OpClear)
    end.

(** [app.get('/cache/stats', ...)] *)
Definition cache_stats (cfg : Config) (c : HonoRequest) (now : Z) (st : AppState)
    : Completion (Response * AppState) :=
  if CACHE_STRATEGY cfg =? "off" then Return (cache_disabled, st)
  else
    match cache st with
    | None => null_cache
    | Some lru =>
        let cacheEntries :=
          map (fun kv : string * CacheEntry =>
                 JSON.Object
                   [ ("key", JSON.Str (JS.replace "cache:" "" (fst kv)));
                     ("contentType", JSON.Str (contentType (snd kv)));
                     ("cachedAt", JSON.Str (toISOString (cachedAt (snd kv))));
                     ("size", JSON.Num (Z.of_nat (List.length (body (snd kv))))) ])
              (filter (fun kv => JS.startsWith "cache:" (fst kv))
                      (LRUCache.entries lru now)) in
        Return (c_json (JSON.Object
                          [ ("total", JSON.Num (Z.of_nat (List.length cacheEntries)));
                            ("strategy", JSON.Str (CACHE_STRATEGY cfg));
                            ("staticOnly", JSON.Bool (CACHE_STATIC_ONLY cfg));
                            ("entries", JSON.Arr (firstn 20 cacheEntries)) ]) 200,
                used st lru OpEntries)
    end.

(* ===================================================================== *)
(** ** The cache middleware                                               *)
(* ===================================================================== *)

(** [`cache:${c.req.url}`] *)
Definition cacheKey (c : HonoRequest) : string := "cache:" ++ req_url c.

Definition max_age (cfg : Config) : string :=
  "public, max-age=" ++ JSON.string_of_Z (CACHE_TTL cfg).

(** The value passed to [cache.set] for the response [response]. *)
Definition capture (response : Response) (now : Z) : CacheEntry :=
  {| body := res_body response;
     contentType := JS.or_default (Headers.get (res_headers response) "content-type") "";
     status := res_status response;
     statusText := res_statusText response;
     headers := Obj.fromEntries (Headers.entries (res_headers response));
     cachedAt := now |}.

(** The response built from a cached entry (lines 339-348). *)
Definition hit_response (cfg : Config) (key : string) (cached : CacheEntry) : Response :=
  let responseHeaders := Headers.of_object (headers cached) in
  let responseHeaders := Headers.set responseHeaders "X-Cache" "HIT" in
  let responseHeaders := Headers.set responseHeaders "X-Cache-Key" key in
  let responseHeaders := Headers.set responseHeaders "X-Cache-Strategy" (CACHE_STRATEGY cfg) in
  {| res_status := status cached;
     res_statusText := statusText cached;
     res_headers := responseHeaders;
     res_body := body cached |}.

(** The response assigned to [c.res] once it has been stored (lines
    379-398). *)
Definition miss_response (cfg : Config) (key : string) (cacheControl : string)
    (res : Response) : Response :=
  let newHeaders := Headers.copy (res_headers res) in
  let newHeaders := Headers.set newHeaders "X-Cache" "MISS (Cached)" in
  let newHeaders := Headers.set newHeaders "X-Cache-Key" key in
  let newHeaders := Headers.set newHeaders "X-Cache-Strategy" (CACHE_STRATEGY cfg) in
  let newHeaders :=
    if CACHE_STRATEGY cfg =? "force"
    then Headers.set newHeaders "Cache-Control" (max_age cfg)
    else if CACHE_STRATEGY cfg =? "auto"
    then if negb (JS.truthy (Some cacheControl))
         then Headers.set newHeaders "Cache-Control" (max_age cfg)
         else newHeaders
    else newHeaders in
  {| res_status := res_status res;
     res_statusText := res_statusText res;
     res_headers := newHeaders;
     res_body := res_body res |}.

(** The response assigned to [c.res] when the policy refuses it (lines
    400-416). *)
Definition bypass_response (cfg : Config) (path contentType : string)
    (res : Response) : Response :=
  let newHeaders := Headers.copy (res_headers res) in
  let newHeaders := Headers.set newHeaders "X-Cache" "BYPASS" in
  let newHeaders := Headers.set newHeaders "X-Cache-Strategy" (CACHE_STRATEGY cfg) in
  let newHeaders :=
    Headers.set newHeaders "X-Cache-Reason"
      (if CACHE_STRATEGY cfg =? "off" then "disabled"
       else if CACHE_STATIC_ONLY cfg && negb (isStaticResource (Some path) (Some contentType))
       then "non-static"
       else "cache-control-forbidden") in
  let newHeaders :=
    Headers.set newHeaders "Cache-Control" "no-cache, no-store, must-revalidate" in
  {| res_status := res_status res;
     res_statusText := res_statusText res;
     res_headers := newHeaders;
     res_body := res_body res |}.

(** [staticCacheMiddleware(c, next)] at time [now].  [next] is [c.res]
    as the handler downstream leaves it ([None] when it sets none); that
    handler does not use [cache].  The result is the response the
    middleware leaves, with the state of the cache: the response it
    returns on a hit, and otherwise [c.res], which its two assignments
    go through the setter of. *)
Definition staticCacheMiddleware (cfg : Config) (c : HonoRequest) (now : Z)
    (next : option Response) (st : AppState)
    : Completion (option Response * AppState) :=
  if CACHE_STRATEGY cfg =? "off" then Return (next, st)
  else if JS.startsWith "/cache/" (req_path c) then Return (next, st)
  else if negb (req_method c =? "GET") then Return (next, st)
  else
    match cache st with
    | None => null_cache
    | Some lru =>
        let (cached, lru1) := LRUCache.get lru (cacheKey c) now in
        let st1 := used st lru1 (OpGet (cacheKey c)) in
        match cached with
        | Some entry => Return (Some (hit_response cfg (cacheKey c) entry), st1)
        | None =>
            match next with
            | None => Return (None, st1)
            | Some res =>
                if (res_status res =? 200)%Z then
                  let contentType := JS.or_default (Headers.get (res_headers res) "content-type") "" in
                  let cacheControl := JS.or_default (Headers.get (res_headers res) "cache-control") "" in
                  let path := req_path c in
                  let shouldCache :=
                    shouldCacheResponse cfg (Some path) (Some contentType) (Some cacheControl) in
                  if shouldCache then
                    Return (Some (set_res res (miss_response cfg (cacheKey c) cacheControl res)),
                            used st1 (LRUCache.set lru1 (cacheKey c) (capture res now) now)
                                 (OpSet (cacheKey c)))
                  else
                    Return (Some (set_res res (bypass_response cfg path contentType res)), st1)
                else Return (Some res, st1)
            end
        end
    end.

(* ===================================================================== *)
(** ** The routes                                                         *)
(* ===================================================================== *)

Section App.

(** The bodies of the two proxy handlers after their path guards (lines
    512-579 and 599-658), seen as functions of the request and of the
    time it is served at (the origin may answer differently later), the
    framework's error handler included.  They forward to the origin and
    do not mention [cache]. *)
Variables proxyGET proxyALL : HonoRequest -> Z -> Response.

Definition management_path (c : HonoRequest) : bool :=
  (req_path c =? "/health") || JS.startsWith "/cache/" (req_path c).

Definition lift {A : Type} (r : Completion (A * AppState))
    : Completion (option A * AppState) :=
  match r with
  | Return (a, st) => Return (Some a, st)
  | Throw e => Throw e
  end.

(** The application: the first route whose method and path match
    answers.  [None] is a request no handler answers.  The middleware
    registered with [app.use] (timing, compression, pretty JSON, HTML
    injection, logging, timeout) wraps every route, works on the
    response only and does not mention [cache]; it is left out. *)
Definition app_fetch (cfg : Config) (c : HonoRequest) (now : Z) (st : AppState)
    : Completion (option Response * AppState) :=
  if req_method c =? "GET" then
    if req_path c =? "/health" then Return (Some (c_text "OK" 200), st)
    else if req_path c =? "/cache/info" then lift (cache_info cfg c st)
    else if req_path c =? "/cache/clear" then lift (cache_clear cfg c st)
    else if req_path c =? "/cache/stats" then lift (cache_stats cfg c now st)
    else
      staticCacheMiddleware cfg c now
        (if management_path c then None else Some (proxyGET c now)) st
  else
    Return (if management_path c then None else Some (proxyALL c now), st).

(** A run of the server over a sequence of timed requests: the state
    after each, with the answers.  A handler that throws has changed
    nothing by then. *)
Fixpoint serve (cfg : Config) (reqs : list (HonoRequest * Z)) (st : AppState)
    : list (Completion (option Response)) * AppState :=
  match reqs with
  | [] => ([], st)
  | (c, now) :: rest =>
      match app_fetch cfg c now st with
      | Return (res, st') =>
          let (outs, final) := serve cfg rest st' in (Return res :: outs, final)
      | Throw e =>
          let (outs, final) := serve cfg rest st in (Throw e :: outs, final)
      end
  end.

End App.

(* ===================================================================== *)
(** ** Notions the statements below are written with                      *)
(* ===================================================================== *)

Fixpoint contains_char (c : ascii) (s : string) : bool :=
  match s with
  | EmptyString => false
  | String a s' => Ascii.eqb a c || contains_char c s'
  end.

(** [ext] is the substring of [p] after its last ['.']: it holds no
    ['.'] and [p] ends in ['.'] followed by [ext]; a [p] without any
    ['.'] is taken whole, as [p.substring(p.lastIndexOf('.') + 1)] does. *)
Definition file_extension (p ext : string) : Prop :=
  contains_char "." ext = false /\
  (p = ext \/ exists pre, p = pre ++ String "." ext).

(** The strategy and static-only gates of the policy let the response
    through to the cache-control test. *)
Definition eligible (cfg : Config) (path contentType : option string) : Prop :=
  CACHE_STATIC_ONLY cfg = false \/ isStaticResource path contentType = true.

(** A possibly-absent cache-control value is absent: [undefined] or the
    empty string the middleware passes for a missing header. *)
Definition absent (cacheControl : option string) : Prop :=
  cacheControl = None \/ cacheControl = Some "".

(** ** Sample configurations and requests *)

Definition auto_config : Config :=
  {| PROTOCOL := "https"; ORIGIN_SERVER := "origin.example"; CACHE_TTL := 300;
     CACHE_CLEAR_TOKEN := "123456"; CACHE_STRATEGY := "auto";
     CACHE_STATIC_ONLY := false |}.

Definition misconfigured : Config :=
  {| PROTOCOL := "https"; ORIGIN_SERVER := "origin.example"; CACHE_TTL := 300;
     CACHE_CLEAR_TOKEN := "123456"; CACHE_STRATEGY := "Force";
     CACHE_STATIC_ONLY := false |}.

(** A [GET] request as the app receives it, for a host, a path and a
    query string that are written as the serialised URL has them (the
    host in lower case and without a default port): [c.req.url] is the
    serialised URL of the request, always one that parses. *)
Definition get_request (host path search : string)
    (query : list (string * string)) : HonoRequest :=
  {| req_method := "GET";
     req_url := "http://" ++ host ++ path ++ search;
     req_path := path;
     req_query := query;
     req_headers := [("accept", "*/*"); ("host", host)] |}.

(** The mirror's own scheme and host, as [fixRedirectUrl] derives them
    from the parsed request URL. *)
Definition mirror (url : URL) : string :=
  JS.replace ":" "" (url_protocol url) ++ "://" ++ url_host url.

(** The configured origin's scheme and host. *)
Definition origin (cfg : Config) : string :=
  PROTOCOL cfg ++ "://" ++ ORIGIN_SERVER cfg.

(** [location] is an absolute http(s) URL. *)
Definition is_absolute (location : string) : bool :=
  JS.startsWith "http://" location || JS.startsWith "https://" location.

(** What one entry of the inbound headers writes into the object that
    [processHeaders] fills: the origin host under [host], the entry
    itself, or nothing. *)
Definition forwarded (cfg : Config) (e : string * string) : list (string * string) :=
  let lowerKey := JS.toLowerCase (fst e) in
  if lowerKey =? "host" then [("host", ORIGIN_SERVER cfg)]
  else if negb (JS.arr_includes dropped_request_headers lowerKey)
  then if fst e =? "__proto__" then [] else [e]
  else [].

(** A response of the origin as a proxy handler hands it on, and a
    handler that answers every request with it. *)
Definition png_response : Response :=
  {| res_status := 200;
     res_statusText := "OK";
     res_headers := [("content-type", "image/png"); ("etag", "abc")];
     res_body := [Byte.x89; Byte.x50; Byte.x4e; Byte.x47] |}.

Definition png_origin (c : HonoRequest) (now : Z) : Response := png_response.

Definition clear_request (token : string) : HonoRequest :=
  {| req_method := "GET";
     req_url := "http://mirror.local/cache/clear?token=" ++ token;
     req_path := "/cache/clear";
     req_query := [("token", token)];
     req_headers := [("host", "mirror.local")] |}.

Definition info_request (token : string) : HonoRequest :=
  {| req_method := "GET";
     req_url := "http://mirror.local/cache/info?token=" ++ token;
     req_path := "/cache/info";
     req_query := [("token", token)];
     req_headers := [("host", "mirror.local")] |}.

(** The state after one cacheable [GET /logo.png] at time 1000. *)
Definition warm_state : AppState :=
  snd (serve png_origin png_origin auto_config
         [(get_request "mirror.local" "/logo.png" "" [], 1000%Z)]
         (initial_state auto_config)).

Definition off_config : Config :=
  {| PROTOCOL := "https"; ORIGIN_SERVER := "origin.example"; CACHE_TTL := 300;
     CACHE_CLEAR_TOKEN := "123456"; CACHE_STRATEGY := "off";
     CACHE_STATIC_ONLY := false |}.

Definition force_config : Config :=
  {| PROTOCOL := "https"; ORIGIN_SERVER := "origin.example"; CACHE_TTL := 300;
     CACHE_CLEAR_TOKEN := "123456"; CACHE_STRATEGY := "force";
     CACHE_STATIC_ONLY := false |}.

(** The path of a cache-management endpoint. *)
Definition cache_endpoint (path : string) : bool :=
  (path =? "/cache/info") || (path =? "/cache/clear") || (path =? "/cache/stats").

(** The policy applied by the middleware to the response [res] of the
    request [c]. *)
Definition policy_accepts (cfg : Config) (c : HonoRequest) (res : Response) : bool :=
  shouldCacheResponse cfg (Some (req_path c))
    (Some (JS.or_default (Headers.get (res_headers res) "content-type") ""))
    (Some (JS.or_default (Headers.get (res_headers res) "cache-control") "")).

(** The headers snapshot [cache.set] receives for [res]. *)
Definition snapshot (res : Response) : Obj.t :=
  Obj.fromEntries (Headers.entries (res_headers res)).

(** The entry [e] under the key [k] records the response to one of the
    requests [served]: a [GET] whose answer at that time had status 200
    and passed the policy. *)
Definition stored_from (proxyGET : HonoRequest -> Z -> Response) (cfg : Config)
    (served : list (HonoRequest * Z)) (k : string) (e : CacheEntry) : Prop :=
  exists c now,
    In (c, now) served /\
    req_method c = "GET" /\
    k = cacheKey c /\
    res_status (proxyGET c now) = 200%Z /\
    policy_accepts cfg c (proxyGET c now) = true /\
    e = capture (proxyGET c now) now.

Definition store_inv (proxyGET : HonoRequest -> Z -> Response) (cfg : Config)
    (served : list (HonoRequest * Z)) (st : AppState) : Prop :=
  forall lru, cache st = Some lru ->
    Forall (fun i => stored_from proxyGET cfg served (LRUCache.key i) (LRUCache.value i))
           (LRUCache.items lru).

(** The diagnostic headers a HIT carries. *)
Definition diagnostic (name : string) : bool :=
  JS.arr_includes ["x-cache"; "x-cache-key"; "x-cache-strategy"] (JS.toLowerCase name).

Definition logo_request : HonoRequest := get_request "mirror.local" "/logo.png" "" [].

(** The store after one [GET /logo.png] at time 1000 under ['force']. *)
Definition force_state : AppState :=
  snd (serve png_origin png_origin force_config [(logo_request, 1000%Z)]
         (initial_state force_config)).

Definition force_store : LRUCache.t :=
  match cache force_state with
  | Some lru => lru
  | None => LRUCache.create 0 0
  end.

(** An origin that marks every answer [private]. *)
Definition private_origin (c : HonoRequest) (now : Z) : Response :=
  {| res_status := 200;
     res_statusText := "OK";
     res_headers := [("content-type", "text/html"); ("cache-control", "private")];
     res_body := [] |}.

(* ===================================================================== *)
(** ** Path encoding                                                      *)
(* ===================================================================== *)

(** [encodePath] is defined on every string, and what it does depends
    on the code units above 255 and on surrogates.  For it a string is
    taken in full, as the sequence of its UTF-16 code units, each below
    65536. *)
Definition code_units := list N.

Definition is_code_units (s : code_units) : Prop :=
  Forall (fun u => (u < 65536)%N) s.

Definition units_of_string (s : string) : code_units :=
  map N_of_ascii (list_ascii_of_string s).

(** The characters [encodeURIComponent] leaves as they are:
    [A-Z a-z 0-9 - _ . ! ~ * ' ( )]. *)
Definition unreserved (c : ascii) : bool :=
  let n := N_of_ascii c in
  (((65 <=? n) && (n <=? 90)) || ((97 <=? n) && (n <=? 122)) ||
   ((48 <=? n) && (n <=? 57)) ||
   (n =? 45) || (n =? 95) || (n =? 46) || (n =? 33) || (n =? 126) ||
   (n =? 42) || (n =? 39) || (n =? 40) || (n =? 41))%N.

Definition unreserved_unit (u : N) : bool :=
  (u <? 128)%N && unreserved (ascii_of_N u).

Definition HEX (n : N) : ascii :=
  if (n <? 10)%N then ascii_of_N (48 + n) else ascii_of_N (55 + n).

(** One byte as [%XX]. *)
Definition percent (b : N) : string :=
  String "%" (String (HEX (b / 16)) (String (HEX (b mod 16)) "")).

Definition percent_bytes (bytes : list N) : string :=
  String.concat "" (map percent bytes).

(** Surrogates, and the code point a pair of them stands for. *)
Definition high_surrogate (u : N) : bool := ((55296 <=? u) && (u <=? 56319))%N.

Definition low_surrogate (u : N) : bool := ((56320 <=? u) && (u <=? 57343))%N.

Definition pair_code_point (lead trail : N) : N :=
  (65536 + (lead - 55296) * 1024 + (trail - 56320))%N.

(** The UTF-8 bytes of a code point. *)
Definition utf8_bytes (cp : N) : list N :=
  (if cp <? 128 then [cp]
   else if cp <? 2048 then [192 + cp / 64; 128 + cp mod 64]
   else if cp <? 65536
   then [224 + cp / 4096; 128 + (cp / 64) mod 64; 128 + cp mod 64]
   else [240 + cp / 262144; 128 + (cp / 4096) mod 64;
         128 + (cp / 64) mod 64; 128 + cp mod 64])%N.

(** [encodeURIComponent(s)]: an unreserved code unit stands for itself;
    any other is read as a code point, a lead surrogate together with
    the trail surrogate that follows it, and written as the [%XX] of its
    UTF-8 bytes.  [None] is the [URIError] raised on a surrogate that
    has no partner. *)
Fixpoint encodeURIComponent (s : code_units) : option string :=
  match s with
  | [] => Some EmptyString
  | u :: r =>
      if unreserved_unit u
      then option_map (String (ascii_of_N u)) (encodeURIComponent r)
      else if low_surrogate u then None
      else if high_surrogate u then
        match r with
        | v :: r' =>
            if low_surrogate v
            then option_map (append (percent_bytes (utf8_bytes (pair_code_point u v))))
                            (encodeURIComponent r')
            else None
        | [] => None
        end
      else option_map (append (percent_bytes (utf8_bytes u))) (encodeURIComponent r)
  end.

(** [s.replace(/%2F/g, '/')]: every occurrence, left to right. *)
Fixpoint replace_2F (s : string) : string :=
  match s with
  | String "%" (String "2" (String "F" rest)) => String "/" (replace_2F rest)
  | String c s' => String c (replace_2F s')
  | EmptyString => EmptyString
  end.

(** [encodePathSegment(segment)] *)
Definition encodePathSegment (segment : code_units) : option string :=
  option_map replace_2F (encodeURIComponent segment).

(** [s.split('/')] on code units; the result is never empty. *)
Fixpoint split_units (sep : N) (s : code_units) : list code_units :=
  match s with
  | [] => [[]]
  | u :: s' =>
      if (u =? sep)%N then [] :: split_units sep s'
      else match split_units sep s' with
           | [] => [[u]]
           | w :: ws => (u :: w) :: ws
           end
  end.

(** The results of a [map] whose function may raise: the first error
    ends it. *)
Fixpoint all_results {A : Type} (l : list (option A)) : option (list A) :=
  match l with
  | [] => Some []
  | None :: _ => None
  | Some x :: r => option_map (cons x) (all_results r)
  end.

(** [encodePath(path)]; an absent path is [None] on the left, a
    [URIError] is [None] on the right. *)
Definition encodePath (path : option code_units) : option string :=
  match path with
  | None => Some EmptyString
  | Some [] => Some EmptyString
  | Some p =>
      option_map (String.concat "/")
                 (all_results (map encodePathSegment (split_units 47 p)))
  end.

(** A character [encodePath] leaves in place: unreserved, or ['/']. *)
Definition path_safe (c : ascii) : bool := unreserved c || Ascii.eqb c "/".

Definition safe_unit (u : N) : bool := unreserved_unit u || (u =? 47)%N.

(** A character that may occur in a result of [encodePath]. *)
Definition path_output (c : ascii) : bool := path_safe c || Ascii.eqb c "%".

(** What [encodePath] does code point by code point (shown below to be
    what it does to any path): as [encodeURIComponent], but for ['/']
    which stays. *)
Fixpoint encode_units (s : code_units) : option string :=
  match s with
  | [] => Some EmptyString
  | u :: r =>
      if safe_unit u
      then option_map (String (ascii_of_N u)) (encode_units r)
      else if low_surrogate u then None
      else if high_surrogate u then
        match r with
        | v :: r' =>
            if low_surrogate v
            then option_map (append (percent_bytes (utf8_bytes (pair_code_point u v))))
                            (encode_units r')
            else None
        | [] => None
        end
      else option_map (append (percent_bytes (utf8_bytes u))) (encode_units r)
  end.

(** [segments.join('/')] on code units. *)
Fixpoint join_units (ss : list code_units) : code_units :=
  match ss with
  | [] => []
  | s :: rest =>
      match rest with
      | [] => s
      | _ :: _ => (s ++ 47%N :: join_units rest)%list
      end
  end.

(** Two results joined by a ['/'], an error in either being an error. *)
Definition join_slash (a b : option string) : option string :=
  match a, b with
  | Some x, Some y => Some (x ++ String "/" y)
  | _, _ => None
  end.

(** Reading the leading [%XX] groups of a string back as bytes.  It
    serves to show that no two paths are encoded alike. *)
Definition unhex (c : ascii) : option N :=
  let n := N_of_ascii c in
  if ((48 <=? n) && (n <=? 57))%N then Some (n - 48)%N
  else if ((65 <=? n) && (n <=? 70))%N then Some (n - 55)%N
  else None.

Definition unpercent (a b : ascii) : option N :=
  match unhex a, unhex b with
  | Some x, Some y => Some (16 * x + y)%N
  | _, _ => None
  end.

Fixpoint read_bytes (s : string) : list N :=
  match s with
  | String "%" (String a (String b rest)) =>
      match unpercent a b with
      | Some n => n :: read_bytes rest
      | None => []
      end
  | _ => []
  end.

(** On a string of code units below 256, which holds no surrogate,
    [encodePath] raises nothing and works character by character
    ([encodePath_narrow_agrees] below); the request path of this
    development is such a string. *)
Definition percent_utf8 (c : ascii) : string :=
  let n := N_of_ascii c in
  if (n <? 128)%N then percent n
  else percent (192 + n / 64) ++ percent (128 + n mod 64).

Definition encode_path_char (c : ascii) : string :=
  if path_safe c then String c "" else percent_utf8 c.

Fixpoint encodePath_narrow (s : string) : string :=
  match s with
  | EmptyString => EmptyString
  | String c s' => encode_path_char c ++ encodePath_narrow s'
  end.

(** Sample paths: [/caf] followed by U+00E9, a path with the pair
    U+D83D U+DE00, and one that ends in a lead surrogate. *)
Definition cafe_path : code_units := [47; 99; 97; 102; 233]%N.

Definition emoji_path : code_units := [47; 55357; 56832; 47; 97]%N.

Definition broken_path : code_units := [47; 97; 55357]%N.

(* ===================================================================== *)
(** ** Header transformer (origin to client)                              *)
(* ===================================================================== *)

(** A header value of the origin's reply as the connection pool gives
    it: a string, or an array of strings for a repeated header. *)
Inductive HeaderValue : Type :=
| One (v : string)
| Many (vs : list string).

(** The arguments of [processResponseHeaders] this development covers:
    a falsy value, a [Headers] object, a [Map] from strings to strings,
    a plain object whose values are strings or arrays of strings (what
    the pool's reply holds), or a value that is no object.  A [Map] has
    an [entries] method too, so it is the first branch that handles it;
    the branch written for [Map] is never reached.  The names are
    well-formed header names, as those of a [Headers] object and of the
    pool's reply are.  On these the function returns; an argument on
    which it raises, an array, is added by [HeaderArgument] below. *)
Inductive HeaderSource : Type :=
| Falsy
| HeadersLike (h : Headers.t)
| MapLike (m : list (string * string))
| PlainObject (o : list (string * HeaderValue))
| OtherValue.

Definition stripped_response_headers : list string :=
  [ "content-encoding"; "transfer-encoding"; "content-length" ].

Definition kept_response_header (key : string) : bool :=
  negb (JS.arr_includes stripped_response_headers (JS.toLowerCase key)).

(** One turn of the loop over [originalHeaders.entries()]. *)
Definition response_entry_step (headers : Headers.t) (e : string * string)
    : Headers.t :=
  if kept_response_header (fst e) then Headers.set headers (fst e) (snd e)
  else headers.

(** One turn of the loop over [Object.entries(originalHeaders)]. *)
Definition response_object_step (headers : Headers.t) (e : string * HeaderValue)
    : Headers.t :=
  if kept_response_header (fst e) then
    match snd e with
    | Many vs => fold_left (fun h v => Headers.append h (fst e) v) vs headers
    | One v => Headers.set headers (fst e) v
    end
  else headers.

(** [processResponseHeaders(originalHeaders)] *)
Definition processResponseHeaders (originalHeaders : HeaderSource) : Headers.t :=
  match originalHeaders with
  | Falsy => []
  | HeadersLike h => fold_left response_entry_step (Headers.entries h) []
  | MapLike m => fold_left response_entry_step m []
  | PlainObject o => fold_left response_object_step o []
  | OtherValue => []
  end.

(** Any argument: one of the above, or an array.  The [entries()] of an
    array yields [[index, item]] with a number for key, so that
    [key.toLowerCase] is no function and the first turn of the loop
    raises; an empty array has no entry and gives empty headers. *)
Inductive HeaderArgument : Type :=
| Covered (src : HeaderSource)
| ArrayOf (items : list string).

Definition processResponseHeaders_any (originalHeaders : HeaderArgument)
    : Completion Headers.t :=
  match originalHeaders with
  | Covered src => Return (processResponseHeaders src)
  | ArrayOf [] => Return []
  | ArrayOf (_ :: _) => Throw "TypeError: key.toLowerCase is not a function"
  end.

(** The values a header value stands for. *)
Definition header_values (v : HeaderValue) : list string :=
  match v with
  | One x => [x]
  | Many vs => vs
  end.

(** No header of [h] bears a stripped name. *)
Definition all_kept (h : Headers.t) : Prop :=
  Forall (fun e => kept_response_header (fst e) = true) h.

(* ===================================================================== *)
(** ** Notions for the cache middleware                                   *)
(* ===================================================================== *)

(** The state a lookup of [c]'s key at time [now] leaves. *)
Definition looked_up (st : AppState) (lru : LRUCache.t) (c : HonoRequest) (now : Z)
    : AppState :=
  used st (snd (LRUCache.get lru (cacheKey c) now)) (OpGet (cacheKey c)).

(** The state the middleware leaves when it stores the answer [res] to
    [c] after a lookup that missed. *)
Definition stored (st : AppState) (lru : LRUCache.t) (c : HonoRequest)
    (res : Response) (now : Z) : AppState :=
  used (looked_up st lru c now)
       (LRUCache.set (snd (LRUCache.get lru (cacheKey c) now))
                     (cacheKey c) (capture res now) now)
       (OpSet (cacheKey c)).

(** The value of the cache-control header as the middleware reads it. *)
Definition cache_control_of (res : Response) : string :=
  JS.or_default (Headers.get (res_headers res) "cache-control") "".

Definition content_type_of (res : Response) : string :=
  JS.or_default (Headers.get (res_headers res) "content-type") "".

(** The middleware is in play for [c]: caching is on, the method is
    [GET] and the path is not under [/cache/]. *)
Definition cacheable_request (cfg : Config) (c : HonoRequest) : Prop :=
  CACHE_STRATEGY cfg <> "off" /\
  req_method c = "GET" /\
  JS.startsWith "/cache/" (req_path c) = false.

Definition cleared : JSON.t :=
  JSON.Object [("message", JSON.Str "Cache cleared successfully");
               ("success", JSON.Bool true)].

Definition fresh_store : LRUCache.t := LRUCache.create 100 300000.

Definition html_request : HonoRequest := get_request "mirror.local" "/me" "" [].

(** The logo asked of the mirror under another host name. *)
Definition other_host_request : HonoRequest :=
  get_request "other.example" "/logo.png" "" [].

Definition private_response : Response := private_origin html_request 0.

(* ===================================================================== *)
(** ** Query string of the forwarded request                              *)
(* ===================================================================== *)

(** [c.req.queries()]: every parameter name, in order of first
    occurrence, with all its values.  It is an object, hence truthy,
    also when the request has no query. *)
Fixpoint add_query (qs : list (string * list string)) (k v : string)
    : list (string * list string) :=
  match qs with
  | [] => [(k, [v])]
  | (k', vs) :: r =>
      if k' =? k then (k', (vs ++ [v])%list) :: r else (k', vs) :: add_query r k v
  end.

Definition c_req_queries (c : HonoRequest) : list (string * list string) :=
  fold_left (fun qs e => add_query qs (fst e) (snd e)) (req_query c) [].

(** The characters the [application/x-www-form-urlencoded] serialiser
    leaves as they are: [A-Z a-z 0-9 * - . _]. *)
Definition form_safe (c : ascii) : bool :=
  let n := N_of_ascii c in
  (((65 <=? n) && (n <=? 90)) || ((97 <=? n) && (n <=? 122)) ||
   ((48 <=? n) && (n <=? 57)) ||
   (n =? 42) || (n =? 45) || (n =? 46) || (n =? 95))%N.

Definition form_encode_char (c : ascii) : string :=
  if form_safe c then String c ""
  else if (N_of_ascii c =? 32)%N then "+"
  else percent_utf8 c.

Fixpoint form_encode (s : string) : string :=
  match s with
  | EmptyString => EmptyString
  | String c s' => form_encode_char c ++ form_encode s'
  end.

(** [new URLSearchParams(record).toString()] for a record of arrays:
    an array becomes the string of its elements joined by [","]. *)
Definition URLSearchParams_toString (record : list (string * list string)) : string :=
  String.concat "&"
    (map (fun e => form_encode (fst e) ++ "=" ++ form_encode (String.concat "," (snd e)))
         record).

(** [c.req.queries() ? `?${new URLSearchParams(c.req.queries()).toString()}` : ''] *)
Definition queryString (c : HonoRequest) : string :=
  "?" ++ URLSearchParams_toString (c_req_queries c).

(* ===================================================================== *)
(** ** The proxy handlers                                                 *)
(* ===================================================================== *)

(** What [originPool.request] is called with and what it yields: a reply
    with status, headers (a plain object whose values are strings or
    arrays of strings) and body, or an error with its [code] and
    [message].  The reply of the pool has no [statusMessage] property:
    where the handlers read [response.statusMessage] they read
    [undefined]. *)
Record PoolRequest := {
  pool_path : string;
  pool_method : string;
  pool_headers : Headers.t;
  pool_body : option (list Byte.byte)
}.

Record OriginResponse := {
  statusCode : Z;
  origin_headers : list (string * HeaderValue);
  origin_body : list Byte.byte
}.

Record JSError := {
  error_code : option string;
  error_message : string
}.

Inductive OriginReply : Type :=
| Replied (response : OriginResponse)
| Failed (error : JSError).

(** The outcome of a [try] block: a response, or the error thrown. *)
Inductive Attempt : Type :=
| Done (r : Response)
| Raised (error : JSError).

Definition TypeError (message : string) : JSError :=
  {| error_code := None; error_message := message |}.

Definition RangeError (message : string) : JSError :=
  {| error_code := None; error_message := message |}.

(** [headers[name]] on the plain object of a reply. *)
Fixpoint header_property (o : list (string * HeaderValue)) (name : string)
    : option HeaderValue :=
  match o with
  | [] => None
  | (k, v) :: r => if k =? name then Some v else header_property r name
  end.

(** Truthiness of a header property: an array is truthy even when
    empty. *)
Definition value_truthy (v : option HeaderValue) : bool :=
  match v with
  | Some (One s) => negb (s =? "")
  | Some (Many _) => true
  | None => false
  end.

(** [isStaticResource(path, contentType)] for a content type read off
    the plain object ([response.headers['content-type'] || '']): on an
    array, [contentType.includes(m)] is membership. *)
Definition isStaticResource_value (path : string) (contentType : option HeaderValue)
    : bool :=
  match contentType with
  | Some (Many vs) =>
      if isStaticResource (Some path) None then true
      else existsb (fun mimeType => JS.arr_includes vs mimeType) staticMimeTypes
  | Some (One s) => isStaticResource (Some path) (Some s)
  | None => isStaticResource (Some path) (Some "")
  end.

(** The statuses [Response.redirect] accepts, and the statuses that
    allow no body. *)
Definition redirect_status (status : Z) : bool :=
  ((status =? 301) || (status =? 302) || (status =? 303) ||
   (status =? 307) || (status =? 308))%Z.

Definition null_body_status (status : Z) : bool :=
  ((status =? 101) || (status =? 204) || (status =? 205) || (status =? 304))%Z.

(** [new Response(body, {status, statusText: undefined, headers})] as
    the handlers write it.  Under the server adapter the global
    [Response] keeps its arguments and builds the platform's response
    when it is first read: the constructor raises nothing, and an
    undefined status text reads as the empty string.  The platform can
    build the response when the status is in 200..599 and, with a body,
    is not a null-body status ([relayable] below); what becomes of a
    response it cannot build is decided outside the handlers and is not
    part of this development. *)
Definition new_Response (body : option (list Byte.byte)) (status : Z)
    (headers : Headers.t) : Response :=
  {| res_status := status;
     res_statusText := "";
     res_headers := headers;
     res_body := match body with Some b => b | None => [] end |}.

Definition HTTPException (status : Z) (message : string) : Response :=
  c_json (JSON.Object [("error", JSON.Str message)]) status.

(** The [catch] block of both handlers, followed by [app.onError]. *)
Definition gateway_error (error : JSError) : Response :=
  if match error_code error with
     | Some code => code =? "UND_ERR_SOCKET_TIMEOUT"
     | None => false
     end || JS.includes "timeout" (error_message error)
  then HTTPException 504 "Gateway Timeout"
  else HTTPException 502 "Bad Gateway".

Section ProxyHandlers.

(** The platform's URL parser, as in [Redirect], and the serialisation
    of the URL it parses ([new URL(s).href]). *)
Variable URL_parse : string -> option URL.
Variable URL_href : string -> option string.

(** The origin behind the connection pool, at a given time. *)
Variable originPool_request : PoolRequest -> Z -> OriginReply.

(** [c.req.body ? c.req.raw.body : null] *)
Variable request_body : HonoRequest -> option (list Byte.byte).

(** [Response.redirect(url, status)], the platform's own static
    method: it parses the URL first, then checks the status, and its
    error messages quote what it was given. *)
Definition Response_redirect (url : string) (status : Z) : Attempt :=
  match URL_href url with
  | None => Raised (TypeError ("Failed to parse URL from " ++ url))
  | Some href =>
      if redirect_status status
      then Done {| res_status := status; res_statusText := "";
                   res_headers := Headers.set [] "location" href;
                   res_body := [] |}
      else Raised (RangeError ("Invalid status code " ++ JSON.string_of_Z status))
  end.

(** Lines 529-537: [Some] is the [return] of the redirect branch,
    [None] falls through to the rest of the handler. *)
Definition redirect_branch (cfg : Config) (c : HonoRequest)
    (response : OriginResponse) : option Attempt :=
  if ((300 <=? statusCode response) && (statusCode response <? 400))%Z then
    let location := header_property (origin_headers response) "location" in
    if value_truthy location then
      match location with
      | Some (One l) =>
          match fixRedirectUrl URL_parse cfg l c with
          | Throw message => Some (Raised (TypeError message))
          | Return (Some fixedLocation) =>
              if JS.truthy (Some fixedLocation)
              then Some (Response_redirect fixedLocation (statusCode response))
              else None
          | Return None => None
          end
      | Some (Many _) =>
          (* [new URL(c.req.url)] first; then [location.startsWith] is
             not a function, which the [try] of [fixRedirectUrl] turns
             into [null] *)
          match URL_parse (req_url c) with
          | None => Some (Raised (TypeError "TypeError: Invalid URL"))
          | Some _ => None
          end
      | None => None
      end
    else None
  else None.

Definition not_modified (response : OriginResponse) : Attempt :=
  Done (new_Response None 304
          (processResponseHeaders (PlainObject (origin_headers response)))).

Definition no_store : string := "no-cache, no-store, must-revalidate".

(** Lines 549-560: the cache headers the [GET] handler sets. *)
Definition get_cache_headers (cfg : Config) (c : HonoRequest)
    (response : OriginResponse) (responseHeaders : Headers.t) : Headers.t :=
  let contentType :=
    if value_truthy (header_property (origin_headers response) "content-type")
    then header_property (origin_headers response) "content-type"
    else Some (One "") in
  if (CACHE_STRATEGY cfg =? "force") && isStaticResource_value (req_path c) contentType
  then Headers.set responseHeaders "Cache-Control" (max_age cfg)
  else if CACHE_STRATEGY cfg =? "auto" then
    if negb (JS.truthy (Headers.get responseHeaders "cache-control")) &&
       isStaticResource_value (req_path c) contentType
    then Headers.set responseHeaders "Cache-Control" (max_age cfg)
    else responseHeaders
  else Headers.set responseHeaders "Cache-Control" no_store.

(** The request the [GET] handler hands to the pool. *)
Definition get_pool_request (cfg : Config) (c : HonoRequest) : PoolRequest :=
  {| pool_path := encodePath_narrow (req_path c) ++ queryString c;
     pool_method := "GET";
     pool_headers := processHeaders cfg (req_headers c);
     pool_body := None |}.

(** The [try] block of the [GET] handler (lines 518-566). *)
Definition proxyGET_try (cfg : Config) (c : HonoRequest) (now : Z) : Attempt :=
  match originPool_request (get_pool_request cfg c) now with
  | Failed error => Raised error
  | Replied response =>
      match redirect_branch cfg c response with
      | Some outcome => outcome
      | None =>
          if (statusCode response =? 304)%Z then not_modified response
          else
            let responseHeaders :=
              processResponseHeaders (PlainObject (origin_headers response)) in
            Done (new_Response (Some (origin_body response)) (statusCode response)
                    (get_cache_headers cfg c response responseHeaders))
      end
  end.

(** The [GET] handler past its path guard, with [app.onError]. *)
Definition proxyGET_handler (cfg : Config) (c : HonoRequest) (now : Z) : Response :=
  match proxyGET_try cfg c now with
  | Done r => r
  | Raised error => gateway_error error
  end.

(** The request the handler of the other methods hands to the pool. *)
Definition all_pool_request (cfg : Config) (c : HonoRequest) : PoolRequest :=
  {| pool_path := encodePath_narrow (req_path c) ++ queryString c;
     pool_method := req_method c;
     pool_headers := processHeaders cfg (req_headers c);
     pool_body := request_body c |}.

(** The [try] block of the handler of the other methods (lines 605-645). *)
Definition proxyALL_try (cfg : Config) (c : HonoRequest) (now : Z) : Attempt :=
  match originPool_request (all_pool_request cfg c) now with
  | Failed error => Raised error
  | Replied response =>
      match redirect_branch cfg c response with
      | Some outcome => outcome
      | None =>
          if (statusCode response =? 304)%Z then not_modified response
          else
            let responseHeaders :=
              processResponseHeaders (PlainObject (origin_headers response)) in
            Done (new_Response (Some (origin_body response)) (statusCode response)
                    (Headers.set responseHeaders "Cache-Control" no_store))
      end
  end.

Definition proxyALL_handler (cfg : Config) (c : HonoRequest) (now : Z) : Response :=
  match proxyALL_try cfg c now with
  | Done r => r
  | Raised error => gateway_error error
  end.

(** The whole application, the proxy handlers in place (the
    [bodyLimit] middleware in front of the second one is the
    framework's and is left out).  It stands for the program on the
    replies the platform can build a response from. *)
Definition mirror_fetch (cfg : Config) (c : HonoRequest) (now : Z) (st : AppState)
    : Completion (option Response * AppState) :=
  app_fetch (proxyGET_handler cfg) (proxyALL_handler cfg) cfg c now st.

End ProxyHandlers.

(** The origin timed out, as the [catch] block tests it. *)
Definition timed_out (error : JSError) : bool :=
  match error_code error with
  | Some code => code =? "UND_ERR_SOCKET_TIMEOUT"
  | None => false
  end || JS.includes "timeout" (error_message error).

(** The reply is a redirect with a usable [location]: status 3xx and a
    truthy [location] property. *)
Definition has_location (response : OriginResponse) : bool :=
  ((300 <=? statusCode response) && (statusCode response <? 400))%Z &&
  value_truthy (header_property (origin_headers response) "location").

(** The platform can build the response that hands the reply on with
    its body: the status is in 200..599 and allows a body. *)
Definition relayable (response : OriginResponse) : bool :=
  ((200 <=? statusCode response) && (statusCode response <=? 599))%Z &&
  negb (null_body_status (statusCode response)).

(** The content type as the [GET] handler reads it off the reply. *)
Definition origin_content_type (response : OriginResponse) : option HeaderValue :=
  if value_truthy (header_property (origin_headers response) "content-type")
  then header_property (origin_headers response) "content-type"
  else Some (One "").

(** The headers of the reply after [processResponseHeaders]. *)
Definition relayed_headers (response : OriginResponse) : Headers.t :=
  processResponseHeaders (PlainObject (origin_headers response)).

(** ** Sample origin and requests *)

Definition reply (status : Z)
    (hs : list (string * HeaderValue)) (b : list Byte.byte) : OriginResponse :=
  {| statusCode := status; origin_headers := hs; origin_body := b |}.

(** An origin that answers by path. *)
Definition sample_origin (request : PoolRequest) (now : Z) : OriginReply :=
  if pool_path request =? "/logo.png?" then
    Replied (reply 200
               [("content-type", One "image/png"); ("content-length", One "4")]
               [Byte.x89; Byte.x50; Byte.x4e; Byte.x47])
  else if pool_path request =? "/page?" then
    Replied (reply 200
               [("content-type", One "text/html"); ("set-cookie", Many ["a=1"; "b=2"])]
               [Byte.x3c; Byte.x70; Byte.x3e])
  else if pool_path request =? "/old?" then
    Replied (reply 301
               [("location", One "https://origin.example/new"); ("set-cookie", One "s=1")]
               [])
  else if pool_path request =? "/choices?" then
    Replied (reply 300
               [("location", One "https://origin.example/first")] [])
  else if pool_path request =? "/gone?" then
    Replied (reply 302 [("location", One "https://bad host/timeout")] [])
  else if pool_path request =? "/empty?" then
    Replied (reply 204 [] [])
  else if pool_path request =? "/slow?" then
    Failed {| error_code := Some "UND_ERR_SOCKET_TIMEOUT";
              error_message := "Socket timeout" |}
  else
    Failed {| error_code := Some "ECONNREFUSED";
              error_message := "connect ECONNREFUSED" |}.

(** The serialisation of a URL the small parser accepts, for URLs that
    are written in serialised form already. *)
Definition simple_URL_href (s : string) : option string :=
  match simple_URL_parse s with
  | Some _ => Some s
  | None => None
  end.

Definition no_body (c : HonoRequest) : option (list Byte.byte) := None.

Definition post_request (path : string) : HonoRequest :=
  {| req_method := "POST";
     req_url := "http://mirror.local" ++ path;
     req_path := path;
     req_query := [];
     req_headers := [("content-type", "application/json"); ("host", "mirror.local")] |}.

Definition sample_GET : Config -> HonoRequest -> Z -> Response :=
  proxyGET_handler simple_URL_parse simple_URL_href sample_origin.

Definition sample_ALL : Config -> HonoRequest -> Z -> Response :=
  proxyALL_handler simple_URL_parse simple_URL_href sample_origin no_body.

(* ===================================================================== *)
(** ** HTML injection                                                     *)
(* ===================================================================== *)

(** The four snippets [htmlInjectMiddleware] reads (from the
    environment in [index.js], as arguments in
    [html-inject-middleware.js]). *)
Record Snippets := {
  INJECTED_HEAD_BEGIN : string;
  INJECTED_HEAD_END : string;
  INJECTED_BODY_BEGIN : string;
  INJECTED_BODY_END : string
}.

Fixpoint take (n : nat) (s : string) : string :=
  match n, s with
  | O, _ => EmptyString
  | S n', String c s' => String c (take n' s')
  | S _, EmptyString => EmptyString
  end.

(** The text of [s] up to and including its first ['>'], and the rest:
    what [[^>]*>] consumes. *)
Fixpoint through_gt (s : string) : option (string * string) :=
  match s with
  | EmptyString => None
  | String c s' =>
      if Ascii.eqb c ">" then Some (String c "", s')
      else match through_gt s' with
           | Some (a, rest) => Some (String c a, rest)
           | None => None
           end
  end.

(** [/<tag[^>]*>/i] tried at the start of [s]: the match and what
    follows it.  Only ASCII letters are folded by [/i]. *)
Definition open_tag_here (tag s : string) : option (string * string) :=
  let p := "<" ++ tag in
  if JS.startsWith p (JS.toLowerCase s) then
    match through_gt (JS.drop (String.length p) s) with
    | Some (a, rest) => Some (take (String.length p) s ++ a, rest)
    | None => None
    end
  else None.

(** [/<\/tag>/i] tried at the start of [s]. *)
Definition close_tag_here (tag s : string) : option (string * string) :=
  let p := "</" ++ tag ++ ">" in
  if JS.startsWith p (JS.toLowerCase s)
  then Some (take (String.length p) s, JS.drop (String.length p) s)
  else None.

(** The leftmost match of a pattern in [s]: the text before it, the
    match, the text after it. *)
Fixpoint search (here : string -> option (string * string)) (s : string)
    : option (string * string * string) :=
  match here s with
  | Some (m, rest) => Some (EmptyString, m, rest)
  | None =>
      match s with
      | EmptyString => None
      | String c s' =>
          match search here s' with
          | Some (pre, m, rest) => Some (String c pre, m, rest)
          | None => None
          end
      end
  end.

(** [s.replace(regex, match => f(match))] and [s.replace(regex, template)]
    for a regex without the [g] flag. *)
Definition replace_with (here : string -> option (string * string))
    (f : string -> string) (s : string) : string :=
  match search here s with
  | Some (pre, m, rest) => pre ++ f m ++ rest
  | None => s
  end.

Definition replace_template (here : string -> option (string * string))
    (template : string) (s : string) : string :=
  match search here s with
  | Some (pre, m, rest) => pre ++ JS.expand m pre rest template ++ rest
  | None => s
  end.

(** Lines 180-213: the injected document and the injection log. *)
Definition inject (sn : Snippets) (html : string) : string * list string :=
  let injectedHtml := html in
  let injectionLog := [] in
  let (injectedHtml, injectionLog) :=
    if JS.truthy (Some (INJECTED_HEAD_BEGIN sn))
    then (replace_with (open_tag_here "head")
            (fun m => m ++ INJECTED_HEAD_BEGIN sn) injectedHtml,
          (injectionLog ++ ["HEAD_BEGIN"])%list)
    else (injectedHtml, injectionLog) in
  let (injectedHtml, injectionLog) :=
    if JS.truthy (Some (INJECTED_HEAD_END sn))
    then (replace_template (close_tag_here "head")
            (INJECTED_HEAD_END sn ++ "</head>") injectedHtml,
          (injectionLog ++ ["HEAD_END"])%list)
    else (injectedHtml, injectionLog) in
  let (injectedHtml, injectionLog) :=
    if JS.truthy (Some (INJECTED_BODY_BEGIN sn))
    then (replace_with (open_tag_here "body")
            (fun m => m ++ INJECTED_BODY_BEGIN sn) injectedHtml,
          (injectionLog ++ ["BODY_BEGIN"])%list)
    else (injectedHtml, injectionLog) in
  let (injectedHtml, injectionLog) :=
    if JS.truthy (Some (INJECTED_BODY_END sn))
    then (replace_template (close_tag_here "body")
            (INJECTED_BODY_END sn ++ "</body>") injectedHtml,
          (injectionLog ++ ["BODY_END"])%list)
    else (injectedHtml, injectionLog) in
  (injectedHtml, injectionLog).

Definition no_snippets (sn : Snippets) : bool :=
  negb (JS.truthy (Some (INJECTED_HEAD_BEGIN sn))) &&
  negb (JS.truthy (Some (INJECTED_HEAD_END sn))) &&
  negb (JS.truthy (Some (INJECTED_BODY_BEGIN sn))) &&
  negb (JS.truthy (Some (INJECTED_BODY_END sn))).

Section HtmlInject.

(** [response.text()]: the body decoded as UTF-8, for bodies whose
    text holds code points up to 255. *)
Variable text : list Byte.byte -> string.

(** [htmlInjectMiddleware()(c, next)]: from [c.res] as [next] leaves it
    to [c.res] as the middleware leaves it, its assignment going through
    the setter of [c.res]. *)
Definition htmlInjectMiddleware (sn : Snippets) (res : option Response)
    : option Response :=
  match res with
  | None => None
  | Some r =>
      if negb (res_status r =? 200)%Z then res
      else
        let contentType := JS.or_default (Headers.get (res_headers r) "content-type") "" in
        if negb (JS.includes "text/html" contentType) then res
        else if no_snippets sn then res
        else
          let (injectedHtml, injectionLog) := inject sn (text (res_body r)) in
          let newHeaders := Headers.copy (res_headers r) in
          let newHeaders :=
            if Headers.has newHeaders "content-length"
            then Headers.delete newHeaders "content-length"
            else newHeaders in
          let newHeaders := Headers.set newHeaders "X-HTML-Injected" "true" in
          let newHeaders :=
            Headers.set newHeaders "X-Injection-Points" (String.concat ", " injectionLog) in
          Some (set_res r {| res_status := res_status r;
                             res_statusText := res_statusText r;
                             res_headers := newHeaders;
                             res_body := utf8 injectedHtml |})
  end.

End HtmlInject.

(** The injection points configured in [sn], in the order of the log. *)
Definition configured (sn : Snippets) : list string :=
  ((if JS.truthy (Some (INJECTED_HEAD_BEGIN sn)) then ["HEAD_BEGIN"] else []) ++
   (if JS.truthy (Some (INJECTED_HEAD_END sn)) then ["HEAD_END"] else []) ++
   (if JS.truthy (Some (INJECTED_BODY_BEGIN sn)) then ["BODY_BEGIN"] else []) ++
   (if JS.truthy (Some (INJECTED_BODY_END sn)) then ["BODY_END"] else []))%list.

Definition only_head_begin (snippet : string) : Snippets :=
  {| INJECTED_HEAD_BEGIN := snippet; INJECTED_HEAD_END := "";
     INJECTED_BODY_BEGIN := ""; INJECTED_BODY_END := "" |}.

Definition only_head_end (snippet : string) : Snippets :=
  {| INJECTED_HEAD_BEGIN := ""; INJECTED_HEAD_END := snippet;
     INJECTED_BODY_BEGIN := ""; INJECTED_BODY_END := "" |}.

Definition ascii_text (b : list Byte.byte) : string := string_of_list_byte b.

Definition html_page : Response :=
  {| res_status := 200;
     res_statusText := "OK";
     res_headers := [("Content-Type", "text/html; charset=utf-8");
                     ("Content-Length", "13");
                     ("ETag", "abc")];
     res_body := utf8 "<head></head>" |}.

Definition all_snippets : Snippets :=
  {| INJECTED_HEAD_BEGIN := "<!--a-->"; INJECTED_HEAD_END := "<!--b-->";
     INJECTED_BODY_BEGIN := "<!--c-->"; INJECTED_BODY_END := "<!--d-->" |}.

(* ===================================================================== *)
(** * Properties                                                          *)
(* ===================================================================== *)

(** ** Strings *)

Lemma startsWith_app (p r : string) : JS.startsWith p (p ++ r) = true.
Proof.
  induction p as [|a p IH]; simpl; [reflexivity|].
  now rewrite Ascii.eqb_refl, IH.
Qed.

Lemma startsWith_inv (p : string) : forall s,
  JS.startsWith p s = true -> s = p ++ JS.drop (String.length p) s.
Proof.
  induction p as [|a p IH]; intros s H; simpl in *; [reflexivity|].
  destruct s as [|b s]; [discriminate|].
  apply andb_true_iff in H as [Hab Hps].
  apply Ascii.eqb_eq in Hab. subst b. simpl. f_equal. now apply IH.
Qed.

Lemma drop_app (p r : string) : JS.drop (String.length p) (p ++ r) = r.
Proof. induction p as [|a p IH]; simpl; [now destruct r | exact IH]. Qed.

Lemma includes_prefix (p s : string) :
  JS.startsWith p s = true -> JS.includes p s = true.
Proof. intros H. destruct s; simpl in *; now rewrite H. Qed.

Lemma includes_app (a p b : string) : JS.includes p (a ++ p ++ b) = true.
Proof.
  induction a as [|c a IH]; simpl.
  - apply includes_prefix, startsWith_app.
  - rewrite IH. apply orb_true_r.
Qed.

Lemma replace_from_unfold (before p r s : string) :
  JS.replace_from before p r s =
  if JS.startsWith p s
  then JS.expand p before (JS.drop (String.length p) s) r ++ JS.drop (String.length p) s
  else match s with
       | EmptyString => EmptyString
       | String c s' => String c (JS.replace_from (before ++ String c EmptyString) p r s')
       end.
Proof. destruct s; reflexivity. Qed.

Lemma replace_prefix (p r rest : string) :
  JS.replace p r (p ++ rest) = JS.expand p "" rest r ++ rest.
Proof.
  unfold JS.replace. rewrite replace_from_unfold, startsWith_app.
  now rewrite drop_app.
Qed.

Lemma replace_from_absent (p r : string) : forall s before,
  JS.includes p s = false -> JS.replace_from before p r s = s.
Proof.
  induction s as [|c s IH]; intros before H; rewrite replace_from_unfold.
  - simpl in H. apply orb_false_iff in H as [H _]. now rewrite H.
  - cbn [JS.includes] in H. apply orb_false_iff in H as [H1 H2].
    rewrite H1. f_equal. now apply IH.
Qed.

Lemma replace_absent (p r s : string) :
  JS.includes p s = false -> JS.replace p r s = s.
Proof. apply replace_from_absent. Qed.

Lemma includes_char_cons (c d : ascii) (s : string) :
  JS.includes (String c "") (String d s)
  = Ascii.eqb c d || JS.includes (String c "") s.
Proof. cbn [JS.includes JS.startsWith]. now destruct (Ascii.eqb c d). Qed.

Lemma includes_char_app (c : ascii) (a b : string) :
  JS.includes (String c "") (a ++ b)
  = JS.includes (String c "") a || JS.includes (String c "") b.
Proof.
  induction a as [|d a IH].
  - simpl. now destruct b.
  - change (String d a ++ b) with (String d (a ++ b)).
    cbn [JS.includes JS.startsWith]. rewrite IH.
    destruct (Ascii.eqb c d); simpl; reflexivity.
Qed.

(** A replacement without ['$'] stands for itself. *)
Lemma expand_plain (m b a : string) : forall t,
  JS.includes "$" t = false -> JS.expand m b a t = t.
Proof.
  induction t as [|c t IH]; intros H; [reflexivity|].
  rewrite includes_char_cons in H. apply orb_false_iff in H as [Hc Ht].
  cbn [JS.expand]. rewrite Ascii.eqb_sym, Hc. now rewrite (IH Ht).
Qed.

Lemma lower_char_idem (c : ascii) : JS.lower_char (JS.lower_char c) = JS.lower_char c.
Proof. destruct c as [[] [] [] [] [] [] [] []]; reflexivity. Qed.

Lemma toLowerCase_idem (s : string) :
  JS.toLowerCase (JS.toLowerCase s) = JS.toLowerCase s.
Proof.
  induction s as [|c s IH]; simpl; [reflexivity|].
  now rewrite lower_char_idem, IH.
Qed.

Lemma arr_includes_In (a : list string) (x : string) :
  JS.arr_includes a x = true <-> In x a.
Proof.
  unfold JS.arr_includes. rewrite existsb_exists. split.
  - intros [y [Hy E]]. apply String.eqb_eq in E. now subst.
  - intros H. exists x. split; [exact H | apply String.eqb_refl].
Qed.

Lemma arr_includes_not_In (a : list string) (x : string) :
  JS.arr_includes a x = false <-> ~ In x a.
Proof.
  rewrite <- arr_includes_In.
  destruct (JS.arr_includes a x); split; intros H; easy.
Qed.

(** ** [split] and the last segment *)

Lemma split_no_sep (sep : ascii) : forall s,
  contains_char sep s = false -> JS.split sep s = [s].
Proof.
  induction s as [|c s IH]; intros H; simpl in *; [reflexivity|].
  apply orb_false_iff in H as [Hc Hs]. rewrite Hc, (IH Hs). reflexivity.
Qed.

Lemma split_sep (sep : ascii) : forall s,
  contains_char sep s = true ->
  exists w w' ws, JS.split sep s = w :: w' :: ws.
Proof.
  induction s as [|c s IH]; intros H; simpl in *; [discriminate|].
  destruct (Ascii.eqb c sep) eqn:Hc; simpl in H.
  - destruct (contains_char sep s) eqn:Hs.
    + destruct (IH eq_refl) as (w & w' & ws & E). rewrite E. eauto.
    + rewrite (split_no_sep _ _ Hs). eauto.
  - destruct (IH H) as (w & w' & ws & E). rewrite E. eauto.
Qed.

Lemma pop_split_suffix (sep : ascii) : forall pre e,
  contains_char sep e = false ->
  JS.pop (JS.split sep (pre ++ String sep e)) = e.
Proof.
  unfold JS.pop.
  induction pre as [|c pre IH]; intros e He; simpl.
  - rewrite Ascii.eqb_refl, (split_no_sep _ _ He). reflexivity.
  - assert (Hc : contains_char sep (pre ++ String sep e) = true).
    { clear. induction pre as [|a pre IH]; simpl.
      - now rewrite Ascii.eqb_refl.
      - rewrite IH. apply orb_true_r. }
    destruct (split_sep _ _ Hc) as (w & w' & ws & E).
    specialize (IH e He). rewrite E in IH |- *.
    destruct (Ascii.eqb c sep); exact IH.
Qed.

Lemma file_extension_pop (p ext : string) :
  file_extension p ext -> JS.pop (JS.split "." p) = ext.
Proof.
  intros [Hno [-> | [pre ->]]].
  - now rewrite (split_no_sep _ _ Hno).
  - now apply pop_split_suffix.
Qed.

Lemma file_extension_total (p : string) : exists ext, file_extension p ext.
Proof.
  induction p as [|c p [e [Hno He]]].
  - exists "". split; [reflexivity | now left].
  - destruct He as [-> | [pre ->]].
    + destruct (Ascii.eqb c ".") eqn:Hc.
      * apply Ascii.eqb_eq in Hc. subst c. exists e. split; [exact Hno|].
        right. now exists "".
      * exists (String c e). split; [simpl; now rewrite Hc | now left].
    + exists e. split; [exact Hno|]. right. now exists (String c pre).
Qed.

(** ** The resource classifier *)

Example isStatic_png : isStaticResource (Some "/img/Logo.PNG") None = true.
Proof. reflexivity. Qed.

Example isStatic_html :
  isStaticResource (Some "/index.html") (Some "text/html") = false.
Proof. reflexivity. Qed.

Example isStatic_mime : isStaticResource (Some "/avatar") (Some "image/png") = true.
Proof. reflexivity. Qed.

(** C8: for every path [p], [isStaticResource(p, undefined)] is true
    exactly when the substring of [p] after its last ['.'], put in lower
    case, is one of [STATIC_EXTENSIONS]. *)
Theorem isStatic_iff_extension (p ext : string) :
  file_extension p ext ->
  isStaticResource (Some p) None = true <->
  In (JS.toLowerCase ext) STATIC_EXTENSIONS.
Proof.
  intros Hext. rewrite <- arr_includes_In.
  unfold isStaticResource, extension, JS.truthy.
  rewrite (file_extension_pop _ _ Hext).
  destruct (p =? "") eqn:Hp; cbn [negb andb].
  - apply String.eqb_eq in Hp. subst p.
    assert (ext = "") as ->.
    { destruct Hext as [_ [E | [pre E]]]; [now symmetry|].
      destruct pre; discriminate. }
    split; discriminate.
  - destruct (JS.arr_includes STATIC_EXTENSIONS (JS.toLowerCase ext)); easy.
Qed.

Lemma isStatic_iff_extension_witness :
  file_extension "/img/Logo.PNG" "PNG" /\
  (isStaticResource (Some "/img/Logo.PNG") None = true <->
   In (JS.toLowerCase "PNG") STATIC_EXTENSIONS).
Proof.
  assert (H : file_extension "/img/Logo.PNG" "PNG").
  { split; [reflexivity|]. right. exists "/img/Logo". reflexivity. }
  split; [exact H | exact (isStatic_iff_extension "/img/Logo.PNG" "PNG" H)].
Defined.

(** A request path begins with ['/']: without a ['.'] it is never static
    by its name, so the whole-string case of [file_extension] never
    matches on a request path. *)
Lemma isStatic_dotless_path (p : string) :
  contains_char "." (String "/" p) = false ->
  isStaticResource (Some (String "/" p)) None = false.
Proof.
  intros H. unfold isStaticResource, extension.
  rewrite (split_no_sep _ _ H). reflexivity.
Qed.

(** ** The cache policy *)

Example directives_ex :
  directives "Public, Max-Age=60 ,NO-STORE" = ["public"; "max-age=60"; "no-store"].
Proof. reflexivity. Qed.

(** C1: [shouldCacheResponse] follows the decision table, row by row in
    order: ['off'] refuses; static-only with a non-static resource
    refuses; ['force'] accepts whatever the cache-control; ['auto']
    accepts an absent cache-control, refuses [no-store] and [no-cache],
    refuses [private] unless static-only, and accepts otherwise. *)
Theorem shouldCache_decision_table (cfg : Config)
    (path contentType cacheControl : option string) :
  (CACHE_STRATEGY cfg = "off" ->
     shouldCacheResponse cfg path contentType cacheControl = false) /\
  (CACHE_STATIC_ONLY cfg = true -> isStaticResource path contentType = false ->
     shouldCacheResponse cfg path contentType cacheControl = false) /\
  (CACHE_STRATEGY cfg = "force" -> eligible cfg path contentType ->
     shouldCacheResponse cfg path contentType cacheControl = true) /\
  (CACHE_STRATEGY cfg = "auto" -> eligible cfg path contentType ->
     (absent cacheControl ->
        shouldCacheResponse cfg path contentType cacheControl = true) /\
     (forall cc, cacheControl = Some cc -> cc <> "" ->
        (In "no-store" (directives cc) \/ In "no-cache" (directives cc) ->
           shouldCacheResponse cfg path contentType cacheControl = false) /\
        (In "private" (directives cc) -> CACHE_STATIC_ONLY cfg = false ->
           shouldCacheResponse cfg path contentType cacheControl = false) /\
        (~ In "no-store" (directives cc) -> ~ In "no-cache" (directives cc) ->
         ~ (In "private" (directives cc) /\ CACHE_STATIC_ONLY cfg = false) ->
           shouldCacheResponse cfg path contentType cacheControl = true))).
Proof.
  assert (Hgate : eligible cfg path contentType ->
            CACHE_STATIC_ONLY cfg && negb (isStaticResource path contentType) = false).
  { intros [H | H]; rewrite H; [reflexivity | apply andb_false_r]. }
  unfold shouldCacheResponse.
  split; [intros ->; reflexivity|].
  split; [intros -> ->; simpl; now destruct (CACHE_STRATEGY cfg =? "off")|].
  split; [intros -> He; now rewrite (Hgate He)|].
  intros Hauto He. rewrite Hauto, (Hgate He).
  change ("auto" =? "off") with false. change ("auto" =? "force") with false.
  change ("auto" =? "auto") with true. cbv iota.
  split.
  - intros [-> | ->]; reflexivity.
  - intros cc -> Hne. apply String.eqb_neq in Hne.
    unfold JS.truthy. rewrite Hne. cbn [negb].
    split; [|split].
    + intros [H | H]; apply arr_includes_In in H; rewrite H;
        [reflexivity | now rewrite orb_true_r].
    + intros H ->. apply arr_includes_In in H. rewrite H.
      now destruct (_ || _).
    + intros H1 H2 H3. apply arr_includes_not_In in H1, H2.
      rewrite H1, H2. cbn [orb].
      destruct (JS.arr_includes (directives cc) "private") eqn:Hp; [|reflexivity].
      destruct (CACHE_STATIC_ONLY cfg); [reflexivity|].
      elim H3. split; [now apply arr_includes_In | reflexivity].
Qed.

Lemma shouldCache_decision_table_witness :
  shouldCacheResponse auto_config (Some "/me") (Some "text/html")
    (Some "max-age=60, Private") = false.
Proof.
  destruct (shouldCache_decision_table auto_config (Some "/me")
              (Some "text/html") (Some "max-age=60, Private"))
    as (_ & _ & _ & Hauto).
  destruct (Hauto eq_refl (or_introl eq_refl)) as [_ Hcc].
  destruct (Hcc "max-age=60, Private" eq_refl) as (_ & Hprivate & _).
  - discriminate.
  - apply Hprivate; [|reflexivity]. simpl. right. left. reflexivity.
Defined.

(** C10: under a strategy string other than ['off'], ['force'] and
    ['auto'] the policy refuses every response. *)
Theorem unknown_strategy_never_caches (cfg : Config)
    (path contentType cacheControl : option string) :
  CACHE_STRATEGY cfg <> "off" ->
  CACHE_STRATEGY cfg <> "force" ->
  CACHE_STRATEGY cfg <> "auto" ->
  shouldCacheResponse cfg path contentType cacheControl = false.
Proof.
  intros Hoff Hforce Hauto. unfold shouldCacheResponse.
  apply String.eqb_neq in Hoff, Hforce, Hauto.
  rewrite Hoff, Hforce, Hauto.
  now destruct (_ && _).
Qed.

Lemma unknown_strategy_never_caches_witness :
  shouldCacheResponse misconfigured (Some "/logo.png") (Some "image/png") None = false.
Proof.
  apply unknown_strategy_never_caches; discriminate.
Defined.

(** ** Redirect fixing *)

Lemma string_app_assoc (a b c : string) : (a ++ b) ++ c = a ++ (b ++ c).
Proof. induction a as [|x a IH]; simpl; [reflexivity | now rewrite IH]. Qed.

Example fixRedirect_spec_example :
  fixRedirectUrl simple_URL_parse auto_config "https://origin.example/x"
    (get_request "mirror.local" "/a" "" [])
  = Return (Some "http://mirror.local/x").
Proof. reflexivity. Qed.

Example fixRedirect_unrelated_host :
  fixRedirectUrl simple_URL_parse auto_config "https://cdn.example/lib.js"
    (get_request "mirror.local" "/a" "" [])
  = Return (Some "https://cdn.example/lib.js").
Proof. reflexivity. Qed.

Example fixRedirect_relative :
  fixRedirectUrl simple_URL_parse auto_config "login?next=1"
    (get_request "mirror.local" "/a" "" [])
  = Return (Some "http://mirror.local/login?next=1").
Proof. reflexivity. Qed.

(** An absolute URL on another host in which the origin's scheme and
    host occur further on has that occurrence replaced. *)
Example fixRedirect_embedded_origin :
  fixRedirectUrl simple_URL_parse auto_config
    "https://sso.example/login?next=https://origin.example/x"
    (get_request "mirror.local" "/a" "" [])
  = Return (Some "https://sso.example/login?next=http://mirror.local/x").
Proof. reflexivity. Qed.

(** The mirror's host is the replacement string of [replace], so a
    [$&] in it is expanded to the text it replaces. *)
Example fixRedirect_dollar_host :
  fixRedirectUrl simple_URL_parse auto_config "https://origin.example/x"
    (get_request "mirror$&.local" "/a" "" [])
  = Return (Some "http://mirrorhttps://origin.example.local/x").
Proof. reflexivity. Qed.

(** C5 at a failing input: the origin is configured as
    [https://origin.example] and redirects to [http://origin.example/x],
    an absolute URL on the origin host.  The guard
    [location.includes(ORIGIN_SERVER)] lets it in, the [replace] looks
    for [https://origin.example], finds nothing, and the location goes
    back to the client as it is, pointing at the origin, not as
    [http://mirror.local/x]. *)
Theorem fixRedirectUrl_other_scheme_unchanged :
  is_absolute "http://origin.example/x" = true /\
  "http://origin.example/x" = "http://" ++ ORIGIN_SERVER auto_config ++ "/x" /\
  JS.includes (ORIGIN_SERVER auto_config) "http://origin.example/x" = true /\
  simple_URL_parse (req_url (get_request "mirror.local" "/a" "" []))
    = Some {| url_protocol := "http:"; url_host := "mirror.local";
              url_pathname := "/a"; url_search := "" |} /\
  fixRedirectUrl simple_URL_parse auto_config "http://origin.example/x"
    (get_request "mirror.local" "/a" "" [])
    = Return (Some "http://origin.example/x") /\
  fixRedirectUrl simple_URL_parse auto_config "http://origin.example/x"
    (get_request "mirror.local" "/a" "" [])
    <> Return (Some ("http://mirror.local" ++ "/x")).
Proof. repeat split. discriminate. Qed.

(** What [fixRedirectUrl] does where it works, for a non-empty location
    and a mirror host without ['$']: an absolute http(s) location that
    begins with the configured [PROTOCOL://ORIGIN_SERVER] comes back
    with that prefix replaced by the mirror's scheme and host and the
    rest untouched; an absolute location in which
    [PROTOCOL://ORIGIN_SERVER] does not occur comes back unchanged; any
    other location is taken as relative and comes back behind the
    mirror's scheme and host, with a ['/'] put in between when it does
    not begin with one. *)
Lemma fixRedirectUrl_cases (URL_parse : string -> option URL) (cfg : Config)
    (location : string) (c : HonoRequest) (url : URL) :
  URL_parse (req_url c) = Some url ->
  JS.includes "$" (mirror url) = false ->
  location <> "" ->
  (forall rest, is_absolute location = true -> location = origin cfg ++ rest ->
     fixRedirectUrl URL_parse cfg location c = Return (Some (mirror url ++ rest))) /\
  (is_absolute location = true -> JS.includes (origin cfg) location = false ->
     fixRedirectUrl URL_parse cfg location c = Return (Some location)) /\
  (is_absolute location = false ->
     fixRedirectUrl URL_parse cfg location c =
     Return (Some (mirror url ++
                   (if JS.startsWith "/" location then location else "/" ++ location)))).
Proof.
  intros Hurl Hplain Hne. apply String.eqb_neq in Hne.
  unfold fixRedirectUrl, JS.truthy, is_absolute, origin, mirror in *.
  rewrite Hne, Hurl. cbn [negb].
  split; [|split].
  - intros rest Habs E. rewrite Habs.
    assert (Hinc : JS.includes (ORIGIN_SERVER cfg) location = true).
    { rewrite E.
      replace ((PROTOCOL cfg ++ "://" ++ ORIGIN_SERVER cfg) ++ rest)
        with ((PROTOCOL cfg ++ "://") ++ ORIGIN_SERVER cfg ++ rest)
        by now rewrite !string_app_assoc.
      apply includes_app. }
    rewrite Hinc, E, replace_prefix, (expand_plain _ _ _ _ Hplain). reflexivity.
  - intros Habs Hno. rewrite Habs.
    destruct (JS.includes (ORIGIN_SERVER cfg) location); [|reflexivity].
    now rewrite (replace_absent _ _ _ Hno).
  - intros Hrel. rewrite Hrel.
    now rewrite !string_app_assoc.
Qed.

Example fixRedirectUrl_cases_ex :
  fixRedirectUrl simple_URL_parse auto_config "https://origin.example/docs?x=1"
    (get_request "mirror.local" "/a" "" [])
  = Return (Some ("http://mirror.local" ++ "/docs?x=1")).
Proof.
  destruct (fixRedirectUrl_cases simple_URL_parse auto_config
              "https://origin.example/docs?x=1"
              (get_request "mirror.local" "/a" "" [])
              {| url_protocol := "http:"; url_host := "mirror.local";
                 url_pathname := "/a"; url_search := "" |}
              eq_refl eq_refl) as [Hprefix _].
  - discriminate.
  - apply (Hprefix "/docs?x=1"); reflexivity.
Qed.



(** ** Plain objects *)

Lemma Obj_get_define (o : Obj.t) (k v k' : string) :
  Obj.get (Obj.define o k v) k' = if k =? k' then Some v else Obj.get o k'.
Proof.
  induction o as [|[a x] o IH]; simpl.
  - reflexivity.
  - destruct (a =? k) eqn:Hak; simpl.
    + apply String.eqb_eq in Hak. subst a. now destruct (k =? k').
    + rewrite IH. destruct (a =? k') eqn:Hak'; [|reflexivity].
      apply String.eqb_eq in Hak'. subst a. now rewrite String.eqb_sym, Hak.
Qed.

Lemma Obj_define_keys (o : Obj.t) (k v x : string) :
  In x (map fst (Obj.define o k v)) <-> x = k \/ In x (map fst o).
Proof.
  induction o as [|[a y] o IH]; simpl.
  - intuition.
  - destruct (a =? k) eqn:Hak; simpl.
    + apply String.eqb_eq in Hak. subst a. intuition.
    + rewrite IH. intuition.
Qed.

Lemma Obj_define_NoDup (o : Obj.t) (k v : string) :
  NoDup (map fst o) -> NoDup (map fst (Obj.define o k v)).
Proof.
  induction o as [|[a y] o IH]; simpl; intros H.
  - repeat constructor. intros [].
  - inversion H as [|? ? Hnot Hrest]; subst.
    destruct (a =? k) eqn:Hak; simpl.
    + now constructor.
    + constructor; [|now apply IH].
      rewrite Obj_define_keys. intros [-> | Hin]; [|contradiction].
      now rewrite String.eqb_refl in Hak.
Qed.

Lemma fold_define_get (es : list (string * string)) : forall (o : Obj.t) (n : string),
  Obj.get (fold_left Obj.define_entry es o) n =
  match JS.last_value es n with
  | Some v => Some v
  | None => Obj.get o n
  end.
Proof.
  unfold JS.last_value.
  induction es as [|[k v] es IH]; intros o n; simpl; [reflexivity|].
  rewrite IH. unfold Obj.define_entry at 1. simpl. rewrite Obj_get_define.
  destruct (k =? n) eqn:Hkn; simpl; [|reflexivity].
  destruct (rev (filter (fun e => fst e =? n) es)); reflexivity.
Qed.

Lemma fold_define_keys (es : list (string * string)) : forall (o : Obj.t) (x : string),
  In x (map fst (fold_left Obj.define_entry es o)) ->
  In x (map fst es) \/ In x (map fst o).
Proof.
  induction es as [|[k v] es IH]; intros o x H; simpl in *; [now right|].
  apply IH in H as [H | H]; [now left; right|].
  unfold Obj.define_entry in H. simpl in H. apply Obj_define_keys in H. intuition.
Qed.

Lemma fold_define_NoDup (es : list (string * string)) : forall (o : Obj.t),
  NoDup (map fst o) -> NoDup (map fst (fold_left Obj.define_entry es o)).
Proof.
  induction es as [|e es IH]; intros o H; simpl; [exact H|].
  apply IH. now apply Obj_define_NoDup.
Qed.

(** ** The [Headers] class *)

Lemma of_entries_id (es : list (string * string)) : Headers.of_entries es = es.
Proof.
  unfold Headers.of_entries.
  enough (H : forall acc : Headers.t,
            fold_left (fun h e => Headers.append h (fst e) (snd e)) es acc
            = (acc ++ es)%list) by apply H.
  induction es as [|[k v] es IH]; intros acc; simpl.
  - now rewrite app_nil_r.
  - rewrite IH. unfold Headers.append. now rewrite <- app_assoc.
Qed.

Lemma has_false_values (h : Headers.t) (n : string) :
  Headers.has h n = false -> Headers.values h n = [].
Proof.
  unfold Headers.has, Headers.values.
  induction h as [|e h IH]; simpl; [reflexivity|].
  intros H. apply orb_false_iff in H as [He Hh]. rewrite He. now apply IH.
Qed.

Lemma has_true_values (h : Headers.t) (n : string) :
  Headers.has h n = true -> Headers.values h n <> [].
Proof.
  unfold Headers.has, Headers.values.
  induction h as [|e h IH]; simpl; [discriminate|].
  destruct (Headers.named n e); simpl; [discriminate | exact IH].
Qed.

Lemma named_other (n m : string) (e : string * string) :
  JS.toLowerCase m <> JS.toLowerCase n ->
  Headers.named m e = true -> Headers.named n e = false.
Proof.
  unfold Headers.named. intros Hne Hm.
  apply String.eqb_eq in Hm. apply String.eqb_neq. congruence.
Qed.

Lemma values_delete_other (h : Headers.t) (n m : string) :
  JS.toLowerCase m <> JS.toLowerCase n ->
  Headers.values (Headers.delete h n) m = Headers.values h m.
Proof.
  intros Hne. unfold Headers.values, Headers.delete. f_equal.
  induction h as [|e h IH]; simpl; [reflexivity|].
  destruct (Headers.named m e) eqn:Hm.
  - rewrite (named_other n m e Hne Hm). simpl. now rewrite Hm, IH.
  - destruct (Headers.named n e); simpl; [exact IH | now rewrite Hm, IH].
Qed.

Lemma values_delete_same (h : Headers.t) (n : string) :
  Headers.values (Headers.delete h n) n = [].
Proof.
  unfold Headers.values, Headers.delete.
  induction h as [|e h IH]; simpl; [reflexivity|].
  destruct (Headers.named n e) eqn:Hn; simpl; [exact IH | now rewrite Hn].
Qed.

Lemma values_set_other (h : Headers.t) (n v m : string) :
  JS.toLowerCase m <> JS.toLowerCase n ->
  Headers.values (Headers.set h n v) m = Headers.values h m.
Proof.
  intros Hne. unfold Headers.set.
  destruct (Headers.has h n).
  - induction h as [|e h IH]; simpl; [reflexivity|].
    destruct (Headers.named n e) eqn:Hn.
    + assert (Hm : Headers.named m e = false).
      { apply (named_other m n e); [congruence | exact Hn]. }
      unfold Headers.values in *. simpl.
      assert (Hm' : Headers.named m (fst e, v) = false) by exact Hm.
      rewrite Hm, Hm'. apply (values_delete_other h n m Hne).
    + unfold Headers.values in *. simpl.
      destruct (Headers.named m e); simpl; now rewrite IH.
  - unfold Headers.values, Headers.append. rewrite filter_app. simpl.
    assert (Hm : Headers.named m (n, v) = false).
    { unfold Headers.named. simpl. apply String.eqb_neq. congruence. }
    rewrite Hm. now rewrite app_nil_r.
Qed.

Lemma values_set_same (h : Headers.t) (n v : string) :
  Headers.values (Headers.set h n v) n = [v].
Proof.
  unfold Headers.set. destruct (Headers.has h n) eqn:Hhas.
  - induction h as [|e h IH]; simpl in *; [discriminate|].
    destruct (Headers.named n e) eqn:Hn.
    + unfold Headers.values. simpl.
      assert (Hn' : Headers.named n (fst e, v) = true) by exact Hn.
      rewrite Hn'. simpl. f_equal. apply (values_delete_same h n).
    + unfold Headers.values in *. simpl. rewrite Hn. now apply IH.
  - unfold Headers.values, Headers.append. rewrite filter_app, map_app.
    fold (Headers.values h n). rewrite (has_false_values _ _ Hhas). simpl.
    unfold Headers.named. simpl. now rewrite String.eqb_refl.
Qed.

Lemma get_set_same (h : Headers.t) (n v : string) :
  Headers.get (Headers.set h n v) n = Some v.
Proof. unfold Headers.get. rewrite values_set_same. simpl. reflexivity. Qed.

Lemma get_set_other (h : Headers.t) (n v m : string) :
  JS.toLowerCase m <> JS.toLowerCase n ->
  Headers.get (Headers.set h n v) m = Headers.get h m.
Proof. intros H. unfold Headers.get. now rewrite values_set_other. Qed.

Lemma get_lower (h : Headers.t) (n : string) :
  Headers.get h (JS.toLowerCase n) = Headers.get h n.
Proof.
  unfold Headers.get, Headers.values, Headers.named.
  now rewrite toLowerCase_idem.
Qed.

(** On an object whose keys are lower-case names, each once, [get] of
    the [Headers] made from it reads the object. *)
Lemma get_of_object (o : Obj.t) (n : string) :
  NoDup (map fst o) ->
  Forall (fun e => JS.toLowerCase (fst e) = fst e) o ->
  Headers.get (Headers.of_object o) n = Obj.get o (JS.toLowerCase n).
Proof.
  unfold Headers.of_object, Obj.entries. rewrite of_entries_id.
  unfold Headers.get, Headers.values.
  induction o as [|[k x] o IH]; intros Hnd Hlow; simpl; [reflexivity|].
  inversion Hnd as [|? ? Hnot Hrest]; subst.
  inversion Hlow as [|? ? Hk Hlow']; subst. simpl in Hk.
  unfold Headers.named at 1. simpl. rewrite Hk.
  destruct (k =? JS.toLowerCase n) eqn:E.
  - apply String.eqb_eq in E. subst k. simpl.
    assert (Hnone : filter (Headers.named n) o = []).
    { clear -Hnot Hlow'. induction o as [|[a y] o IH]; simpl in *; [reflexivity|].
      inversion Hlow' as [|? ? Ha Hl]; subst. simpl in Ha.
      unfold Headers.named at 1. simpl. rewrite Ha.
      destruct (a =? JS.toLowerCase n) eqn:E.
      - apply String.eqb_eq in E. intuition.
      - apply IH; intuition. }
    rewrite Hnone. reflexivity.
  - now apply IH.
Qed.

(** ** [Headers.entries] *)

Lemma existsb_eqb_In (n : string) (l : list string) :
  existsb (String.eqb n) l = true <-> In n l.
Proof.
  rewrite existsb_exists. split.
  - intros [x [Hx E]]. apply String.eqb_eq in E. now subst.
  - intros H. exists n. split; [exact H | apply String.eqb_refl].
Qed.

Lemma distinct_In (l : list string) (x : string) :
  In x (Headers.distinct l) <-> In x l.
Proof.
  induction l as [|n l IH]; simpl; [reflexivity|].
  destruct (existsb (String.eqb n) l) eqn:E; simpl; rewrite IH.
  - apply existsb_eqb_In in E. split; [now right | intros [-> | H]; assumption].
  - reflexivity.
Qed.

Lemma distinct_NoDup (l : list string) : NoDup (Headers.distinct l).
Proof.
  induction l as [|n l IH]; simpl; [constructor|].
  destruct (existsb (String.eqb n) l) eqn:E; [exact IH|].
  constructor; [|exact IH].
  rewrite distinct_In, <- existsb_eqb_In, E. discriminate.
Qed.

Lemma insert_name_perm (n : string) (l : list string) :
  Permutation (Headers.insert_name n l) (n :: l).
Proof.
  induction l as [|m l IH]; simpl; [reflexivity|].
  destruct (String.leb n m); [reflexivity|].
  rewrite IH. apply perm_swap.
Qed.

Lemma sort_perm (l : list string) : Permutation (Headers.sort l) l.
Proof.
  induction l as [|n l IH]; simpl; [reflexivity|].
  rewrite insert_name_perm. now constructor.
Qed.

Lemma names_NoDup (h : Headers.t) : NoDup (Headers.names h).
Proof.
  unfold Headers.names.
  eapply Permutation_NoDup; [symmetry; apply sort_perm | apply distinct_NoDup].
Qed.

Lemma names_In (h : Headers.t) (n : string) :
  In n (Headers.names h) <-> exists e, In e h /\ JS.toLowerCase (fst e) = n.
Proof.
  unfold Headers.names.
  transitivity (In n (map (fun e => JS.toLowerCase (fst e)) h)).
  - rewrite <- (distinct_In (map _ h)). split; apply Permutation_in;
      [apply sort_perm | symmetry; apply sort_perm].
  - rewrite in_map_iff. split; intros [e [H1 H2]]; exists e; now split.
Qed.

Lemma names_lower (h : Headers.t) (n : string) :
  In n (Headers.names h) -> JS.toLowerCase n = n.
Proof.
  rewrite names_In. intros [e [_ <-]]. apply toLowerCase_idem.
Qed.

Lemma names_has (h : Headers.t) (n : string) :
  JS.toLowerCase n = n ->
  existsb (String.eqb n) (Headers.names h) = Headers.has h n.
Proof.
  intros Hn.
  destruct (Headers.has h n) eqn:Hhas.
  - apply existsb_eqb_In, names_In.
    unfold Headers.has in Hhas. apply existsb_exists in Hhas as [e [He Hne]].
    exists e. split; [exact He|]. apply String.eqb_eq in Hne. congruence.
  - destruct (existsb (String.eqb n) (Headers.names h)) eqn:E; [|reflexivity].
    apply existsb_eqb_In, names_In in E as [e [He Hne]].
    assert (Headers.has h n = true); [|congruence].
    apply existsb_exists. exists e. split; [exact He|].
    unfold Headers.named. apply String.eqb_eq. congruence.
Qed.

Lemma entries_of_key (h : Headers.t) (n : string) (e : string * string) :
  In e (Headers.entries_of h n) -> fst e = n.
Proof.
  unfold Headers.entries_of. destruct (n =? "set-cookie").
  - rewrite in_map_iff. now intros [v [<- _]].
  - destruct (Headers.get h n); simpl; [now intros [<- | []] | intros []].
Qed.

Lemma entries_keys_lower (h : Headers.t) :
  Forall (fun e => JS.toLowerCase (fst e) = fst e) (Headers.entries h).
Proof.
  apply Forall_forall. intros e He.
  unfold Headers.entries in He. apply in_flat_map in He as [n [Hn He]].
  apply entries_of_key in He. subst n. now apply names_lower in Hn.
Qed.

Lemma filter_key_all (l : list (string * string)) (n : string) :
  (forall e, In e l -> fst e = n) -> filter (fun e => fst e =? n) l = l.
Proof.
  induction l as [|e l IH]; intros H; simpl; [reflexivity|].
  rewrite (H e (or_introl eq_refl)), String.eqb_refl. f_equal.
  apply IH. intros e' He'. apply H. now right.
Qed.

Lemma filter_key_none (l : list (string * string)) (n m : string) :
  m <> n -> (forall e, In e l -> fst e = m) -> filter (fun e => fst e =? n) l = [].
Proof.
  intros Hne. induction l as [|e l IH]; intros H; simpl; [reflexivity|].
  rewrite (H e (or_introl eq_refl)).
  apply String.eqb_neq in Hne. rewrite Hne.
  apply IH. intros e' He'. apply H. now right.
Qed.

Lemma filter_flat_map_key (f : string -> list (string * string)) (n : string) :
  (forall x e, In e (f x) -> fst e = x) ->
  forall l, NoDup l ->
  filter (fun e => fst e =? n) (flat_map f l) =
  if existsb (String.eqb n) l then f n else [].
Proof.
  intros Hf. induction l as [|m l IH]; intros Hnd; simpl; [reflexivity|].
  inversion Hnd as [|? ? Hnot Hrest]; subst.
  rewrite filter_app, (IH Hrest).
  destruct (n =? m) eqn:E; simpl.
  - apply String.eqb_eq in E. subst m.
    rewrite (filter_key_all _ _ (Hf n)).
    destruct (existsb (String.eqb n) l) eqn:El.
    + apply existsb_eqb_In in El. contradiction.
    + apply app_nil_r.
  - apply String.eqb_neq in E.
    rewrite (filter_key_none (f m) n m); [reflexivity | congruence | apply Hf].
Qed.

Lemma entries_filter (h : Headers.t) (n : string) :
  JS.toLowerCase n = n ->
  filter (fun e => fst e =? n) (Headers.entries h) =
  if Headers.has h n then Headers.entries_of h n else [].
Proof.
  intros Hn. unfold Headers.entries.
  rewrite (filter_flat_map_key _ n (entries_of_key h) _ (names_NoDup h)).
  now rewrite names_has.
Qed.

(** For a name other than [set-cookie], the entries hold under it what
    [get] returns. *)
Lemma last_value_entries (h : Headers.t) (n : string) :
  JS.toLowerCase n = n -> n <> "set-cookie" ->
  JS.last_value (Headers.entries h) n = Headers.get h n.
Proof.
  intros Hn Hsc. unfold JS.last_value. rewrite (entries_filter h n Hn).
  destruct (Headers.has h n) eqn:Hhas.
  - unfold Headers.entries_of. apply String.eqb_neq in Hsc. rewrite Hsc.
    now destruct (Headers.get h n).
  - unfold Headers.get. now rewrite (has_false_values _ _ Hhas).
Qed.

(** ** The request header transform *)

Example processHeaders_ex :
  processHeaders auto_config
    [("Host", "mirror.local"); ("Accept-Encoding", "gzip"); ("Accept", "*/*");
     ("Connection", "keep-alive"); ("Cookie", "a=1")]
  = [("accept", "*/*"); ("cookie", "a=1"); ("host", "origin.example")].
Proof. reflexivity. Qed.

#[local] Arguments JS.arr_includes : simpl never.

Lemma step_forwarded (cfg : Config) (es : list (string * string)) : forall o,
  fold_left (processHeaders_step cfg) es o =
  fold_left Obj.define_entry (flat_map (forwarded cfg) es) o.
Proof.
  induction es as [|[k v] es IH]; intros o; simpl; [reflexivity|].
  rewrite IH, fold_left_app. f_equal.
  unfold forwarded. simpl.
  destruct (JS.toLowerCase k =? "host"); [reflexivity|].
  destruct (negb _); [|reflexivity].
  unfold Obj.set. now destruct (k =? "__proto__").
Qed.

Lemma dropped_not_host (n : string) :
  JS.arr_includes dropped_request_headers n = true -> (n =? "host") = false.
Proof.
  intros H. apply String.eqb_neq. intros ->. discriminate.
Qed.

Lemma filter_forwarded (cfg : Config) (n : string) (es : list (string * string)) :
  Forall (fun e => JS.toLowerCase (fst e) = fst e) es ->
  filter (fun e => fst e =? n) (flat_map (forwarded cfg) es) =
  if n =? "host"
  then map (fun _ => ("host", ORIGIN_SERVER cfg)) (filter (fun e => fst e =? "host") es)
  else if JS.arr_includes dropped_request_headers n then []
  else if n =? "__proto__" then []
  else filter (fun e => fst e =? n) es.
Proof.
  induction 1 as [|[k v] es Hk _ IH]; simpl.
  - destruct (n =? "host"); [reflexivity|].
    destruct (JS.arr_includes dropped_request_headers n); [reflexivity|].
    now destruct (n =? "__proto__").
  - simpl in Hk. rewrite filter_app, IH. unfold forwarded. simpl. rewrite Hk.
    clear IH Hk.
    destruct (k =? "host") eqn:Ekh.
    + apply String.eqb_eq in Ekh. subst k. cbn [filter fst map].
      rewrite (String.eqb_sym "host" n).
      destruct (n =? "host"); cbn [app map]; [reflexivity|].
      destruct (JS.arr_includes dropped_request_headers n); [reflexivity|].
      now destruct (n =? "__proto__").
    + destruct (JS.arr_includes dropped_request_headers k) eqn:Edk;
        cbn [negb filter fst app].
      * destruct (n =? "host"); [reflexivity|].
        destruct (JS.arr_includes dropped_request_headers n) eqn:Edn; [reflexivity|].
        destruct (n =? "__proto__"); [reflexivity|].
        destruct (k =? n) eqn:Ekn; [|reflexivity].
        apply String.eqb_eq in Ekn. congruence.
      * destruct (n =? "host") eqn:Enh.
        { apply String.eqb_eq in Enh. subst n.
          destruct (k =? "__proto__"); cbn [filter fst app]; now rewrite ?Ekh. }
        destruct (k =? "__proto__") eqn:Ekp; cbn [filter fst app].
        { apply String.eqb_eq in Ekp. subst k.
          destruct (JS.arr_includes dropped_request_headers n); [reflexivity|].
          rewrite (String.eqb_sym "__proto__" n).
          now destruct (n =? "__proto__"). }
        destruct (k =? n) eqn:Ekn; cbn [app];
          destruct (JS.arr_includes dropped_request_headers n) eqn:Edn;
          try reflexivity.
        { apply String.eqb_eq in Ekn. congruence. }
        { apply String.eqb_eq in Ekn. subst k. now rewrite Ekp. }
Qed.

(** The object filled by [processHeaders] has lower-case keys, each
    once, so that the [Headers] made from it read it key by key. *)
Lemma processHeaders_get (cfg : Config) (h : Headers.t) (name : string) :
  Headers.get (processHeaders cfg h) name =
  JS.last_value (flat_map (forwarded cfg) (Headers.entries h)) (JS.toLowerCase name).
Proof.
  unfold processHeaders. rewrite step_forwarded.
  rewrite get_of_object.
  - rewrite fold_define_get. simpl. now destruct (JS.last_value _ _).
  - apply fold_define_NoDup. constructor.
  - apply Forall_forall. intros [k v] Hin.
    apply (in_map fst) in Hin. apply fold_define_keys in Hin as [Hin | []].
    apply in_map_iff in Hin as [[k' v'] [E Hin]]. simpl in *. subst k'.
    apply in_flat_map in Hin as [e [He Hin]].
    pose proof (entries_keys_lower h) as Hlow.
    rewrite Forall_forall in Hlow. specialize (Hlow e He).
    unfold forwarded in Hin. rewrite Hlow in Hin.
    destruct (fst e =? "host").
    + destruct Hin as [E | []]. inversion E. reflexivity.
    + destruct (negb _); [|destruct Hin].
      destruct (fst e =? "__proto__"); [destruct Hin|].
      destruct Hin as [E | []]. subst e. exact Hlow.
Qed.

Lemma processHeaders_dropped (cfg : Config) (h : Headers.t) (name : string) :
  In (JS.toLowerCase name) dropped_request_headers ->
  Headers.get (processHeaders cfg h) name = None.
Proof.
  intros Hd. apply arr_includes_In in Hd.
  rewrite processHeaders_get. unfold JS.last_value.
  rewrite (filter_forwarded cfg _ _ (entries_keys_lower h)).
  now rewrite (dropped_not_host _ Hd), Hd.
Qed.

Lemma processHeaders_host (cfg : Config) (h : Headers.t) (name : string) :
  JS.toLowerCase name = "host" ->
  Headers.get (processHeaders cfg h) name =
  if Headers.has h "host" then Some (ORIGIN_SERVER cfg) else None.
Proof.
  intros Hn. rewrite processHeaders_get, Hn. unfold JS.last_value.
  rewrite (filter_forwarded cfg _ _ (entries_keys_lower h)).
  change ("host" =? "host") with true. cbv iota.
  rewrite (entries_filter h "host" eq_refl).
  destruct (Headers.has h "host") eqn:Hhas; [|reflexivity].
  unfold Headers.entries_of. change ("host" =? "set-cookie") with false. cbv iota.
  unfold Headers.get. pose proof (has_true_values _ _ Hhas) as Hv.
  destruct (Headers.values h "host"); [contradiction | reflexivity].
Qed.

(** A header named [__proto__] is not stored in the object and does not
    come out. *)
Lemma processHeaders_proto (cfg : Config) (h : Headers.t) (name : string) :
  JS.toLowerCase name = "__proto__" ->
  Headers.get (processHeaders cfg h) name = None.
Proof.
  intros Hn. rewrite processHeaders_get, Hn. unfold JS.last_value.
  now rewrite (filter_forwarded cfg _ _ (entries_keys_lower h)).
Qed.

(** A [set-cookie] that occurs once is held by the entries as [get]
    returns it. *)
Lemma last_value_entries_once (h : Headers.t) (n : string) :
  JS.toLowerCase n = n ->
  (List.length (Headers.values h n) <= 1)%nat ->
  JS.last_value (Headers.entries h) n = Headers.get h n.
Proof.
  intros Hn Hone.
  destruct (String.eqb_spec n "set-cookie") as [-> | Hsc];
    [|now apply last_value_entries].
  unfold JS.last_value. rewrite (entries_filter h "set-cookie" eq_refl).
  destruct (Headers.has h "set-cookie") eqn:Hhas.
  - unfold Headers.entries_of, Headers.get. cbn [String.eqb Ascii.eqb Bool.eqb].
    destruct (Headers.values h "set-cookie") as [|v [|w vs]];
      [reflexivity | reflexivity | simpl in Hone; lia].
  - unfold Headers.get. now rewrite (has_false_values _ _ Hhas).
Qed.

Lemma processHeaders_kept (cfg : Config) (h : Headers.t) (name : string) :
  ~ In (JS.toLowerCase name) dropped_request_headers ->
  JS.toLowerCase name <> "host" ->
  JS.toLowerCase name <> "__proto__" ->
  (List.length (Headers.values h name) <= 1)%nat \/ JS.toLowerCase name <> "set-cookie" ->
  Headers.get (processHeaders cfg h) name = Headers.get h name.
Proof.
  intros Hd Hh Hp Hsc. apply arr_includes_not_In in Hd.
  apply String.eqb_neq in Hh. apply String.eqb_neq in Hp.
  rewrite processHeaders_get.
  rewrite <- (get_lower h name).
  assert (E : JS.last_value (Headers.entries h) (JS.toLowerCase name)
              = Headers.get h (JS.toLowerCase name)).
  { destruct Hsc as [Hone | Hsc].
    - apply last_value_entries_once; [apply toLowerCase_idem|].
      replace (Headers.values h (JS.toLowerCase name)) with (Headers.values h name);
        [exact Hone|].
      unfold Headers.values, Headers.named. now rewrite toLowerCase_idem.
    - now apply last_value_entries; [apply toLowerCase_idem|]. }
  rewrite <- E. unfold JS.last_value.
  rewrite (filter_forwarded cfg _ _ (entries_keys_lower h)).
  now rewrite Hh, Hd, Hp.
Qed.

(** Repeated [set-cookie] headers come out of [entries()] one by one
    under the same key, and the object keeps the last of them. *)
Example processHeaders_set_cookie_twice :
  Headers.get [("host", "m"); ("set-cookie", "a=1"); ("set-cookie", "b=2")] "set-cookie"
  = Some "a=1, b=2" /\
  Headers.get (processHeaders auto_config
                 [("host", "m"); ("set-cookie", "a=1"); ("set-cookie", "b=2")])
              "set-cookie"
  = Some "b=2".
Proof. split; reflexivity. Qed.

(** C7 at a failing input: a request that carries a header named
    [__proto__] (a valid header name) beside its Host.  The header is
    none of the four dropped ones, yet it does not come out:
    [headers['__proto__'] = value] on the object written [{}] reaches
    the prototype's setter and stores nothing.  The other headers come
    out as the claim says. *)
Theorem processHeaders_loses_proto_header :
  Headers.get [("host", "mirror.local"); ("__proto__", "x"); ("accept", "*/*")]
              "__proto__" = Some "x" /\
  ~ In "__proto__" dropped_request_headers /\
  Headers.get (processHeaders auto_config
                 [("host", "mirror.local"); ("__proto__", "x"); ("accept", "*/*")])
              "__proto__" = None /\
  Headers.get (processHeaders auto_config
                 [("host", "mirror.local"); ("__proto__", "x"); ("accept", "*/*")])
              "accept" = Some "*/*" /\
  Headers.get (processHeaders auto_config
                 [("host", "mirror.local"); ("__proto__", "x"); ("accept", "*/*")])
              "host" = Some "origin.example".
Proof.
  repeat split.
  intros [H | [H | [H | [H | []]]]]; discriminate.
Qed.

(** What [processHeaders] does for the other headers, for every inbound
    header set and every header name, read without regard to case:
    [accept-encoding], [connection], [keep-alive] and [content-length]
    are absent from the outbound headers; [host] is the configured
    origin host whenever the inbound set has a Host header, whatever
    its value; every header other than [__proto__] and a repeated
    [set-cookie] comes out with the value it came in with. *)
Lemma processHeaders_transform (cfg : Config) (h : Headers.t) (name : string) :
  (In (JS.toLowerCase name) dropped_request_headers ->
     Headers.get (processHeaders cfg h) name = None) /\
  (JS.toLowerCase name = "host" ->
   Headers.has h "host" = true ->
     Headers.get (processHeaders cfg h) name = Some (ORIGIN_SERVER cfg)) /\
  (~ In (JS.toLowerCase name) dropped_request_headers ->
   JS.toLowerCase name <> "host" ->
   JS.toLowerCase name <> "__proto__" ->
   (List.length (Headers.values h name) <= 1)%nat \/ JS.toLowerCase name <> "set-cookie" ->
     Headers.get (processHeaders cfg h) name = Headers.get h name).
Proof.
  split; [apply processHeaders_dropped|].
  split; [|apply processHeaders_kept].
  intros Hn Hhas. now rewrite (processHeaders_host cfg h name Hn), Hhas.
Qed.

Example processHeaders_transform_ex :
  Headers.get (processHeaders auto_config
                 [("Host", "mirror.local"); ("Connection", "close"); ("Cookie", "a=1")])
              "Cookie"
  = Some "a=1".
Proof.
  destruct (processHeaders_transform auto_config
              [("Host", "mirror.local"); ("Connection", "close"); ("Cookie", "a=1")]
              "Cookie") as (_ & _ & Hkeep).
  rewrite Hkeep; [reflexivity | | discriminate | discriminate | right; discriminate].
  intros [H | [H | [H | [H | []]]]]; discriminate.
Qed.

(** ** Caching switched off *)

Lemma app_fetch_off (proxyGET proxyALL : HonoRequest -> Z -> Response) (cfg : Config)
    (c : HonoRequest) (now : Z) (st : AppState) :
  CACHE_STRATEGY cfg = "off" ->
  exists res,
    app_fetch proxyGET proxyALL cfg c now st = Return (res, st) /\
    (req_method c = "GET" -> cache_endpoint (req_path c) = true ->
     res = Some cache_disabled).
Proof.
  intros Hoff. unfold app_fetch, cache_endpoint.
  destruct (req_method c =? "GET") eqn:Hm.
  - destruct (req_path c =? "/health") eqn:Hh.
    + apply String.eqb_eq in Hh. rewrite Hh. simpl.
      eexists. split; [reflexivity | discriminate].
    + unfold cache_info, cache_clear, cache_stats, staticCacheMiddleware.
      rewrite Hoff. simpl.
      destruct (req_path c =? "/cache/info"); [eexists; split; [reflexivity | reflexivity]|].
      destruct (req_path c =? "/cache/clear"); [eexists; split; [reflexivity | reflexivity]|].
      destruct (req_path c =? "/cache/stats"); [eexists; split; [reflexivity | reflexivity]|].
      eexists. split; [reflexivity | discriminate].
  - eexists. split; [reflexivity|].
    intros E. rewrite E in Hm. discriminate.
Qed.

Lemma serve_off (proxyGET proxyALL : HonoRequest -> Z -> Response) (cfg : Config)
    (reqs : list (HonoRequest * Z)) (st : AppState) :
  CACHE_STRATEGY cfg = "off" ->
  snd (serve proxyGET proxyALL cfg reqs st) = st /\
  forall i c now,
    nth_error reqs i = Some (c, now) ->
    req_method c = "GET" -> cache_endpoint (req_path c) = true ->
    nth_error (fst (serve proxyGET proxyALL cfg reqs st)) i
    = Some (Return (Some cache_disabled)).
Proof.
  intros Hoff. induction reqs as [|[c now] reqs [IHst IHout]]; simpl.
  - split; [reflexivity|]. intros [|i]; discriminate.
  - destruct (app_fetch_off proxyGET proxyALL cfg c now st Hoff) as [res [E Hres]].
    rewrite E.
    destruct (serve proxyGET proxyALL cfg reqs st) as [outs final] eqn:Es.
    simpl in *. split; [exact IHst|].
    intros [|i] c' now' Hnth Hget Hpath; simpl in *.
    + injection Hnth as -> ->. now rewrite (Hres Hget Hpath).
    + now apply (IHout i c' now').
Qed.

(** C3: under the strategy ['off'] the [cache] constant is [null],
    and whatever requests are served, none uses it (the record of uses
    stays empty and no store comes into being), and every [GET] of
    [/cache/info], [/cache/clear] and [/cache/stats] is answered 403
    with [{error: "Cache is disabled"}]. *)
Theorem cache_off_never_used (proxyGET proxyALL : HonoRequest -> Z -> Response)
    (cfg : Config) (reqs : list (HonoRequest * Z)) :
  CACHE_STRATEGY cfg = "off" ->
  cache (snd (serve proxyGET proxyALL cfg reqs (initial_state cfg))) = None /\
  cache_log (snd (serve proxyGET proxyALL cfg reqs (initial_state cfg))) = [] /\
  forall i c now,
    nth_error reqs i = Some (c, now) ->
    req_method c = "GET" -> cache_endpoint (req_path c) = true ->
    nth_error (fst (serve proxyGET proxyALL cfg reqs (initial_state cfg))) i
    = Some (Return (Some (c_json (JSON.Object [("error", JSON.Str "Cache is disabled")]) 403))).
Proof.
  intros Hoff.
  destruct (serve_off proxyGET proxyALL cfg reqs (initial_state cfg) Hoff) as [Hst Hout].
  split; [rewrite Hst; unfold initial_state; now rewrite Hoff|].
  split; [now rewrite Hst | exact Hout].
Qed.

Lemma cache_off_never_used_witness :
  cache (snd (serve png_origin png_origin off_config
                [(get_request "mirror.local" "/logo.png" "" [], 1000%Z);
                 (clear_request "123456", 2000%Z);
                 (get_request "mirror.local" "/logo.png" "" [], 3000%Z)]
                (initial_state off_config))) = None /\
  nth_error (fst (serve png_origin png_origin off_config
                [(get_request "mirror.local" "/logo.png" "" [], 1000%Z);
                 (clear_request "123456", 2000%Z);
                 (get_request "mirror.local" "/logo.png" "" [], 3000%Z)]
                (initial_state off_config))) 1
  = Some (Return (Some (c_json (JSON.Object [("error", JSON.Str "Cache is disabled")]) 403))).
Proof.
  destruct (cache_off_never_used png_origin png_origin off_config
              [(get_request "mirror.local" "/logo.png" "" [], 1000%Z);
               (clear_request "123456", 2000%Z);
               (get_request "mirror.local" "/logo.png" "" [], 3000%Z)]
              eq_refl) as (Hnull & _ & Hout).
  split; [exact Hnull|].
  apply (Hout 1%nat (clear_request "123456") 2000%Z); reflexivity.
Defined.

(** ** Clearing the cache *)

Lemma cache_clear_any_token (cfg : Config) (c : HonoRequest) (st : AppState)
    (lru : LRUCache.t) :
  CACHE_STRATEGY cfg <> "off" ->
  cache st = Some lru ->
  cache_clear cfg c st =
  Return (c_json (JSON.Object [("message", JSON.Str "Cache cleared successfully");
                               ("success", JSON.Bool true)]) 200,
          used st (LRUCache.clear lru) OpClear).
Proof.
  intros Hoff Hc. apply String.eqb_neq in Hoff.
  unfold cache_clear. now rewrite Hoff, Hc.
Qed.

(** C4 at a failing input: the store holds one entry, the configured
    token is [123456] and [GET /cache/clear?token=wrong] is answered 200
    with [success: true] and leaves the store empty; [/cache/info] with
    the same token is answered 401. *)
Theorem cache_clear_ignores_token :
  CACHE_CLEAR_TOKEN auto_config = "123456" /\
  option_map LRUCache.size (cache warm_state) = Some 1%nat /\
  app_fetch png_origin png_origin auto_config (info_request "wrong") 2000 warm_state
  = Return (Some (c_text "Unauthorized" 401), warm_state) /\
  exists st,
    app_fetch png_origin png_origin auto_config (clear_request "wrong") 2000 warm_state
    = Return (Some (c_json (JSON.Object
                              [("message", JSON.Str "Cache cleared successfully");
                               ("success", JSON.Bool true)]) 200), st) /\
    option_map LRUCache.size (cache st) = Some 0%nat.
Proof.
  split; [reflexivity|]. split; [reflexivity|]. split; [reflexivity|].
  eexists. split; reflexivity.
Qed.

(** ** The cache store *)

Lemma remove_Forall (P : LRUCache.item -> Prop) (k : string) (l : list LRUCache.item) :
  Forall P l -> Forall P (LRUCache.remove k l).
Proof.
  rewrite !Forall_forall. intros H i Hi.
  apply filter_In in Hi as [Hi _]. now apply H.
Qed.

Lemma removelast_Forall (P : LRUCache.item -> Prop) (l : list LRUCache.item) :
  Forall P l -> Forall P (removelast l).
Proof.
  induction 1 as [|i l Hi Hl IH]; simpl; [constructor|].
  destruct l; [constructor | now constructor].
Qed.

Lemma find_key (c : LRUCache.t) (k : string) (i : LRUCache.item) :
  LRUCache.find c k = Some i -> In i (LRUCache.items c) /\ LRUCache.key i = k.
Proof.
  unfold LRUCache.find. intros H. apply find_some in H as [Hin Hk].
  split; [exact Hin | now apply String.eqb_eq].
Qed.

Lemma get_Forall (P : LRUCache.item -> Prop) (c : LRUCache.t) (k : string) (now : Z) :
  Forall P (LRUCache.items c) ->
  Forall P (LRUCache.items (snd (LRUCache.get c k now))).
Proof.
  intros H. unfold LRUCache.get.
  destruct (LRUCache.find c k) as [i|] eqn:Hf; [|exact H].
  apply find_key in Hf as [Hin _].
  destruct (LRUCache.isStale c now i); simpl.
  - now apply remove_Forall.
  - constructor; [|now apply remove_Forall].
    rewrite Forall_forall in H. now apply H.
Qed.

Lemma get_hit (c : LRUCache.t) (k : string) (now : Z) (e : CacheEntry) :
  fst (LRUCache.get c k now) = Some e ->
  exists i, In i (LRUCache.items c) /\ LRUCache.key i = k /\ LRUCache.value i = e.
Proof.
  unfold LRUCache.get.
  destruct (LRUCache.find c k) as [i|] eqn:Hf; [|discriminate].
  apply find_key in Hf as [Hin Hk].
  destruct (LRUCache.isStale c now i); simpl; [discriminate|].
  intros [= <-]. now exists i.
Qed.

Lemma set_Forall (P : LRUCache.item -> Prop) (c : LRUCache.t) (k : string)
    (v : CacheEntry) (now : Z) :
  Forall P (LRUCache.items c) ->
  P {| LRUCache.key := k; LRUCache.value := v; LRUCache.start := now |} ->
  Forall P (LRUCache.items (LRUCache.set c k v now)).
Proof.
  intros H Hfresh. unfold LRUCache.set.
  destruct (LRUCache.find c k); simpl; constructor;
    try exact Hfresh; [now apply remove_Forall|].
  destruct (_ <? _)%nat; [exact H | now apply removelast_Forall].
Qed.

(** A live entry is found again right after it was stored. *)
Lemma get_after_set (c : LRUCache.t) (k : string) (v : CacheEntry) (now later : Z) :
  LRUCache.isStale c later
    {| LRUCache.key := k; LRUCache.value := v; LRUCache.start := now |} = false ->
  fst (LRUCache.get (LRUCache.set c k v now) k later) = Some v.
Proof.
  intros Hlive. unfold LRUCache.get, LRUCache.set, LRUCache.find.
  destruct (List.find _ (LRUCache.items c)); simpl;
    rewrite String.eqb_refl; unfold LRUCache.isStale in *; simpl in *;
    now rewrite Hlive.
Qed.

(** ** The store holds captured responses only *)

Lemma stored_from_more (proxyGET : HonoRequest -> Z -> Response) (cfg : Config)
    (served more : list (HonoRequest * Z)) (k : string) (e : CacheEntry) :
  stored_from proxyGET cfg served k e ->
  stored_from proxyGET cfg (served ++ more) k e.
Proof.
  intros (c & now & Hin & H). exists c, now.
  split; [apply in_or_app; now left | exact H].
Qed.

Lemma store_inv_more (proxyGET : HonoRequest -> Z -> Response) (cfg : Config)
    (served more : list (HonoRequest * Z)) (st : AppState) :
  store_inv proxyGET cfg served st -> store_inv proxyGET cfg (served ++ more) st.
Proof.
  intros H lru Hc. specialize (H lru Hc).
  eapply Forall_impl; [|exact H].
  intros i Hi. now apply stored_from_more.
Qed.

Lemma middleware_inv (proxyGET : HonoRequest -> Z -> Response) (cfg : Config)
    (served : list (HonoRequest * Z)) (c : HonoRequest) (now : Z)
    (st st' : AppState) (r : option Response) :
  store_inv proxyGET cfg served st ->
  staticCacheMiddleware cfg c now
    (if management_path c then None else Some (proxyGET c now)) st = Return (r, st') ->
  store_inv proxyGET cfg (served ++ [(c, now)]) st'.
Proof.
  intros Hinv. apply (store_inv_more _ _ _ [(c, now)]) in Hinv.
  unfold staticCacheMiddleware.
  destruct (CACHE_STRATEGY cfg =? "off"); [now intros [= _ <-]|].
  destruct (JS.startsWith "/cache/" (req_path c)); [now intros [= _ <-]|].
  destruct (req_method c =? "GET") eqn:Hget; simpl; [|now intros [= _ <-]].
  apply String.eqb_eq in Hget.
  destruct (cache st) as [lru|] eqn:Hc; [|discriminate].
  specialize (Hinv lru Hc).
  pose proof (get_Forall _ lru (cacheKey c) now Hinv) as Hinv1.
  destruct (LRUCache.get lru (cacheKey c) now) as [cached lru1]. simpl in Hinv1.
  assert (Hst1 : store_inv proxyGET cfg (served ++ [(c, now)])
                   (used st lru1 (OpGet (cacheKey c)))).
  { intros l [= <-]. exact Hinv1. }
  destruct cached as [entry|]; [now intros [= _ <-]|].
  destruct (management_path c); [now intros [= _ <-]|].
  destruct (res_status (proxyGET c now) =? 200)%Z eqn:H200; [|now intros [= _ <-]].
  apply Z.eqb_eq in H200.
  destruct (shouldCacheResponse _ _ _ _) eqn:Hpol; [|now intros [= _ <-]].
  intros [= _ <-]. intros l [= <-].
  apply set_Forall; [exact Hinv1|]. simpl.
  exists c, now. repeat split; try assumption.
  apply in_or_app. right. now left.
Qed.

Lemma app_fetch_inv (proxyGET proxyALL : HonoRequest -> Z -> Response) (cfg : Config)
    (served : list (HonoRequest * Z)) (c : HonoRequest) (now : Z)
    (st st' : AppState) (r : option Response) :
  store_inv proxyGET cfg served st ->
  app_fetch proxyGET proxyALL cfg c now st = Return (r, st') ->
  store_inv proxyGET cfg (served ++ [(c, now)]) st'.
Proof.
  intros Hinv. pose proof (store_inv_more _ _ _ [(c, now)] _ Hinv) as Hmore.
  unfold app_fetch.
  destruct (req_method c =? "GET"); [|now intros [= _ <-]].
  destruct (req_path c =? "/health"); [now intros [= _ <-]|].
  destruct (req_path c =? "/cache/info").
  { unfold cache_info.
    destruct (CACHE_STRATEGY cfg =? "off"); [now intros [= _ <-]|].
    destruct (negb _); [now intros [= _ <-]|].
    destruct (cache st) as [lru|] eqn:Hc; [|discriminate].
    intros [= _ <-]. intros l [= <-]. exact (Hmore _ Hc). }
  destruct (req_path c =? "/cache/clear").
  { unfold cache_clear.
    destruct (CACHE_STRATEGY cfg =? "off"); [now intros [= _ <-]|].
    destruct (cache st) as [lru|] eqn:Hc; [|discriminate].
    intros [= _ <-]. intros l [= <-]. constructor. }
  destruct (req_path c =? "/cache/stats").
  { unfold cache_stats.
    destruct (CACHE_STRATEGY cfg =? "off"); [now intros [= _ <-]|].
    destruct (cache st) as [lru|] eqn:Hc; [|discriminate].
    intros [= _ <-]. intros l [= <-]. exact (Hmore _ Hc). }
  now apply middleware_inv.
Qed.

Lemma serve_inv (proxyGET proxyALL : HonoRequest -> Z -> Response) (cfg : Config)
    (reqs : list (HonoRequest * Z)) : forall served st,
  store_inv proxyGET cfg served st ->
  store_inv proxyGET cfg (served ++ reqs)
    (snd (serve proxyGET proxyALL cfg reqs st)).
Proof.
  induction reqs as [|[c now] reqs IH]; intros served st Hinv; simpl.
  - now rewrite app_nil_r.
  - replace (served ++ (c, now) :: reqs)%list
      with ((served ++ [(c, now)]) ++ reqs)%list
      by now rewrite <- app_assoc.
    destruct (app_fetch proxyGET proxyALL cfg c now st) as [[r st']|err] eqn:E.
    + specialize (IH _ _ (app_fetch_inv _ _ _ _ _ _ _ _ _ Hinv E)).
      now destruct (serve proxyGET proxyALL cfg reqs st').
    + specialize (IH _ _ (store_inv_more _ _ _ [(c, now)] _ Hinv)).
      now destruct (serve proxyGET proxyALL cfg reqs st).
Qed.

Lemma initial_inv (proxyGET : HonoRequest -> Z -> Response) (cfg : Config) :
  store_inv proxyGET cfg [] (initial_state cfg).
Proof.
  intros lru. unfold initial_state.
  destruct (CACHE_STRATEGY cfg =? "off"); [discriminate|].
  intros [= <-]. constructor.
Qed.

(** ** Serving from the cache *)

Lemma values_same_name (h : Headers.t) (m n : string) :
  JS.toLowerCase m = JS.toLowerCase n -> Headers.values h m = Headers.values h n.
Proof.
  intros E. unfold Headers.values, Headers.named. now rewrite E.
Qed.

Lemma get_set (h : Headers.t) (n v m : string) :
  Headers.get (Headers.set h n v) m =
  if JS.toLowerCase m =? JS.toLowerCase n then Some v else Headers.get h m.
Proof.
  destruct (JS.toLowerCase m =? JS.toLowerCase n) eqn:E.
  - apply String.eqb_eq in E. unfold Headers.get.
    rewrite (values_same_name _ m n E), values_set_same. reflexivity.
  - apply String.eqb_neq in E. now apply get_set_other.
Qed.

Lemma snapshot_keys (res : Response) :
  NoDup (map fst (snapshot res)) /\
  Forall (fun e => JS.toLowerCase (fst e) = fst e) (snapshot res).
Proof.
  unfold snapshot, Obj.fromEntries. split.
  - apply fold_define_NoDup. constructor.
  - apply Forall_forall. intros e He.
    apply (in_map fst) in He. apply fold_define_keys in He as [He | []].
    apply in_map_iff in He as [e' [E He]]. rewrite <- E.
    pose proof (entries_keys_lower (res_headers res)) as Hlow.
    rewrite Forall_forall in Hlow. now apply Hlow.
Qed.

(** The headers of a HIT, name by name. *)
Lemma hit_headers (cfg : Config) (k : string) (res : Response) (now : Z) (name : string) :
  Headers.get (res_headers (hit_response cfg k (capture res now))) name =
  if JS.toLowerCase name =? "x-cache-strategy" then Some (CACHE_STRATEGY cfg)
  else if JS.toLowerCase name =? "x-cache-key" then Some k
  else if JS.toLowerCase name =? "x-cache" then Some "HIT"
  else Obj.get (snapshot res) (JS.toLowerCase name).
Proof.
  unfold hit_response, capture. cbn [res_headers headers].
  rewrite !get_set. fold (snapshot res).
  change (JS.toLowerCase "X-Cache-Strategy") with "x-cache-strategy".
  change (JS.toLowerCase "X-Cache-Key") with "x-cache-key".
  change (JS.toLowerCase "X-Cache") with "x-cache".
  destruct (snapshot_keys res) as [Hnd Hlow].
  now rewrite (get_of_object _ name Hnd Hlow).
Qed.

(** What the snapshot holds: for every name but [set-cookie], the value
    [get] returned on the captured response. *)
Lemma snapshot_get (res : Response) (n : string) :
  JS.toLowerCase n = n -> n <> "set-cookie" ->
  Obj.get (snapshot res) n = Headers.get (res_headers res) n.
Proof.
  intros Hn Hsc. unfold snapshot, Obj.fromEntries.
  rewrite fold_define_get, (last_value_entries _ n Hn Hsc). simpl.
  now destruct (Headers.get (res_headers res) n).
Qed.

(** So a HIT carries every header of the stored response other than
    [set-cookie] and the diagnostic ones with the value it had. *)
Lemma hit_keeps_headers (cfg : Config) (k : string) (res : Response) (now : Z)
    (name : string) :
  diagnostic name = false ->
  JS.toLowerCase name <> "set-cookie" ->
  Headers.get (res_headers (hit_response cfg k (capture res now))) name
  = Headers.get (res_headers res) name.
Proof.
  intros Hd Hsc. rewrite hit_headers.
  unfold diagnostic, JS.arr_includes in Hd. simpl in Hd.
  apply orb_false_iff in Hd as [H1 Hd]. apply orb_false_iff in Hd as [H2 Hd].
  apply orb_false_iff in Hd as [H3 _].
  rewrite H1, H2, H3.
  rewrite (snapshot_get res _ (toLowerCase_idem name) Hsc).
  apply get_lower.
Qed.

Lemma cacheKey_inj (c1 c2 : HonoRequest) :
  cacheKey c1 = cacheKey c2 -> req_url c1 = req_url c2.
Proof. unfold cacheKey. simpl. now intros [= H]. Qed.

(** C2: after any run of the server, a [GET] that the middleware answers
    from the store (a HIT) gets the response stored for that URL by an
    earlier [GET] whose answer had status 200 and passed the policy: the
    same status, status text and body bytes, and as headers the
    snapshot taken at capture time with [X-Cache], [X-Cache-Key] and
    [X-Cache-Strategy] set on top and nothing else changed. *)
Theorem cache_hit_reproduces_stored
    (proxyGET proxyALL : HonoRequest -> Z -> Response) (cfg : Config)
    (served : list (HonoRequest * Z)) (c : HonoRequest) (now : Z)
    (next : option Response) (lru : LRUCache.t) (entry : CacheEntry) :
  CACHE_STRATEGY cfg <> "off" ->
  req_method c = "GET" ->
  JS.startsWith "/cache/" (req_path c) = false ->
  cache (snd (serve proxyGET proxyALL cfg served (initial_state cfg))) = Some lru ->
  fst (LRUCache.get lru (cacheKey c) now) = Some entry ->
  exists hit st' c0 t0,
    staticCacheMiddleware cfg c now next
      (snd (serve proxyGET proxyALL cfg served (initial_state cfg)))
    = Return (Some hit, st') /\
    In (c0, t0) served /\
    req_method c0 = "GET" /\
    req_url c0 = req_url c /\
    res_status (proxyGET c0 t0) = 200%Z /\
    policy_accepts cfg c0 (proxyGET c0 t0) = true /\
    res_status hit = res_status (proxyGET c0 t0) /\
    res_statusText hit = res_statusText (proxyGET c0 t0) /\
    res_body hit = res_body (proxyGET c0 t0) /\
    (forall name, diagnostic name = false ->
       Headers.get (res_headers hit) name =
       Obj.get (snapshot (proxyGET c0 t0)) (JS.toLowerCase name)) /\
    Headers.get (res_headers hit) "X-Cache" = Some "HIT" /\
    Headers.get (res_headers hit) "X-Cache-Key" = Some (cacheKey c) /\
    Headers.get (res_headers hit) "X-Cache-Strategy" = Some (CACHE_STRATEGY cfg).
Proof.
  intros Hoff Hget Hpath Hcache Hhit.
  pose proof (serve_inv proxyGET proxyALL cfg served [] _ (initial_inv proxyGET cfg))
    as Hinv. simpl in Hinv.
  specialize (Hinv lru Hcache). rewrite Forall_forall in Hinv.
  destruct (get_hit _ _ _ _ Hhit) as (i & Hin & Hk & Hv).
  destruct (Hinv i Hin) as (c0 & t0 & Hserved & Hget0 & Hkey & H200 & Hpol & Hcap).
  rewrite Hk in Hkey. rewrite Hv in Hcap.
  exists (hit_response cfg (cacheKey c) entry),
         (used (snd (serve proxyGET proxyALL cfg served (initial_state cfg)))
               (snd (LRUCache.get lru (cacheKey c) now)) (OpGet (cacheKey c))),
         c0, t0.
  split.
  { unfold staticCacheMiddleware. apply String.eqb_neq in Hoff.
    rewrite Hoff, Hpath, Hget, Hcache. simpl.
    destruct (LRUCache.get lru (cacheKey c) now) as [cached lru1].
    simpl in Hhit. now rewrite Hhit. }
  split; [exact Hserved|]. split; [exact Hget0|].
  split; [symmetry; now apply cacheKey_inj|].
  split; [exact H200|]. split; [exact Hpol|].
  rewrite Hcap.
  split; [reflexivity|]. split; [reflexivity|]. split; [reflexivity|].
  split.
  { intros name Hd. rewrite hit_headers.
    unfold diagnostic, JS.arr_includes in Hd. simpl in Hd.
    apply orb_false_iff in Hd as [H1 Hd]. apply orb_false_iff in Hd as [H2 Hd].
    apply orb_false_iff in Hd as [H3 _].
    now rewrite H1, H2, H3. }
  rewrite !hit_headers. repeat split.
Qed.

Lemma cache_hit_reproduces_stored_witness :
  exists hit st',
    staticCacheMiddleware force_config logo_request 2000 None force_state
    = Return (Some hit, st') /\
    res_status hit = 200%Z /\
    res_statusText hit = "OK" /\
    res_body hit = [Byte.x89; Byte.x50; Byte.x4e; Byte.x47] /\
    Headers.get (res_headers hit) "ETag" = Some "abc".
Proof.
  destruct (cache_hit_reproduces_stored png_origin png_origin force_config
              [(logo_request, 1000%Z)] logo_request 2000 None force_store
              (capture png_response 1000))
    as (hit & st' & c0 & t0 & Hrun & _ & _ & _ & _ & _ & Hs & Ht & Hb & Hh & _);
    [discriminate | reflexivity | reflexivity | reflexivity | reflexivity |].
  exists hit, st'.
  split; [exact Hrun|]. split; [exact Hs|]. split; [exact Ht|]. split; [exact Hb|].
  rewrite (Hh "ETag" eq_refl). reflexivity.
Defined.

(** The scenario of the specification: the first [GET /logo.png] is
    stored and answered [MISS (Cached)] with [Cache-Control] set, the
    next identical one is a [HIT] with the stored status and bytes. *)
Example miss_then_hit :
  map (fun o => match o with
                | Return (Some r) =>
                    (res_status r, Headers.get (res_headers r) "X-Cache",
                     Headers.get (res_headers r) "Cache-Control", res_body r)
                | _ => (0%Z, None, None, [])
                end)
      (fst (serve png_origin png_origin auto_config
              [(logo_request, 1000%Z); (logo_request, 2000%Z)]
              (initial_state auto_config)))
  = [ (200%Z, Some "MISS (Cached)", Some "public, max-age=300",
       [Byte.x89; Byte.x50; Byte.x4e; Byte.x47]);
      (200%Z, Some "HIT", None, [Byte.x89; Byte.x50; Byte.x4e; Byte.x47]) ].
Proof. reflexivity. Qed.

(** The scenario of the specification: under ['auto'] a response
    marked [private] is not stored and goes out as a [BYPASS]; the
    [Cache-Control] that reaches the client is the response's own, which
    the assignment to [c.res] puts back over the middleware's. *)
Example private_is_bypassed :
  map (fun o => match o with
                | Return (Some r) =>
                    (Headers.get (res_headers r) "X-Cache",
                     Headers.get (res_headers r) "X-Cache-Reason",
                     Headers.get (res_headers r) "Cache-Control")
                | _ => (None, None, None)
                end)
      (fst (serve private_origin private_origin auto_config
              [(get_request "mirror.local" "/me" "" [], 1000%Z);
               (get_request "mirror.local" "/me" "" [], 2000%Z)]
              (initial_state auto_config)))
  = [ (Some "BYPASS", Some "cache-control-forbidden", Some "private");
      (Some "BYPASS", Some "cache-control-forbidden", Some "private") ].
Proof. reflexivity. Qed.

(** ** The cache key *)

(** C9, as stated, fails: two [GET]s with the same path and the same
    query, sent with different Host headers, get different cache keys. *)
Lemma cacheKey_differs_across_hosts :
  req_path (get_request "a.example" "/x" "?y=1" [("y", "1")])
  = req_path (get_request "b.example" "/x" "?y=1" [("y", "1")]) /\
  req_query (get_request "a.example" "/x" "?y=1" [("y", "1")])
  = req_query (get_request "b.example" "/x" "?y=1" [("y", "1")]) /\
  option_map (fun u => (url_pathname u, url_search u))
    (simple_URL_parse (req_url (get_request "a.example" "/x" "?y=1" [("y", "1")])))
  = Some ("/x", "?y=1") /\
  option_map (fun u => (url_pathname u, url_search u))
    (simple_URL_parse (req_url (get_request "b.example" "/x" "?y=1" [("y", "1")])))
  = Some ("/x", "?y=1") /\
  cacheKey (get_request "a.example" "/x" "?y=1" [("y", "1")])
  <> cacheKey (get_request "b.example" "/x" "?y=1" [("y", "1")]).
Proof. repeat split. discriminate. Qed.

(** ** Dates in [/cache/stats] *)

Example toISOString_epoch : toISOString 0 = "1970-01-01T00:00:00.000Z".
Proof. reflexivity. Qed.

Example toISOString_leap_day : toISOString 1709251199999 = "2024-02-29T23:59:59.999Z".
Proof. reflexivity. Qed.
(* ===================================================================== *)
(** * Further properties of the code                                      *)
(* ===================================================================== *)

(** ** Path encoding *)

Example encodePath_space :
  encodePath (Some (units_of_string "/foo bar/baz")) = Some "/foo%20bar/baz".
Proof. reflexivity. Qed.

Example encodePath_percent :
  encodePath (Some (units_of_string "/a%2Fb")) = Some "/a%252Fb".
Proof. reflexivity. Qed.

Example encodePath_cafe : encodePath (Some cafe_path) = Some "/caf%C3%A9".
Proof. reflexivity. Qed.

Example encodePath_emoji : encodePath (Some emoji_path) = Some "/%F0%9F%98%80/a".
Proof. reflexivity. Qed.

Example encodePath_broken : encodePath (Some broken_path) = None.
Proof. reflexivity. Qed.

(** The two halves of a surrogate pair cannot be encoded apart. *)
Example encodePath_split_pair :
  encodePath (Some ([55357] ++ [56832])%list%N) = Some "%F0%9F%98%80" /\
  encodePath (Some [55357%N]) = None /\
  encodePath (Some [56832%N]) = None.
Proof. repeat split. Qed.


Lemma string_length_app (a b : string) :
  String.length (a ++ b) = (String.length a + String.length b)%nat.
Proof. induction a as [|c a IH]; simpl; [reflexivity | now rewrite IH]. Qed.

Lemma all_chars_app (p : ascii -> bool) (a b : string) :
  all_chars p (a ++ b) = all_chars p a && all_chars p b.
Proof.
  unfold all_chars. induction a as [|c a IH]; simpl; [reflexivity|].
  now rewrite IH, andb_assoc.
Qed.

(** *** Bytes *)

Lemma byte_cases (P : N -> Prop) :
  (forall a : ascii, P (N_of_ascii a)) -> forall b, (b < 256)%N -> P b.
Proof.
  intros H b Hb. rewrite <- (N_ascii_embedding b Hb). apply H.
Qed.

Lemma replace_2F_percent (rest : string) (b : N) :
  (b < 256)%N ->
  replace_2F (percent b ++ rest)
  = (if (b =? 47)%N then "/" else percent b) ++ replace_2F rest.
Proof.
  revert b. apply byte_cases.
  intros [[] [] [] [] [] [] [] []]; reflexivity.
Qed.

Lemma percent_output (b : N) :
  (b < 256)%N -> all_chars path_output (percent b) = true.
Proof.
  revert b. apply byte_cases.
  intros [[] [] [] [] [] [] [] []]; reflexivity.
Qed.

Lemma read_percent (rest : string) (b : N) :
  (b < 256)%N -> read_bytes (percent b ++ rest) = b :: read_bytes rest.
Proof.
  revert b. apply byte_cases.
  intros [[] [] [] [] [] [] [] []]; reflexivity.
Qed.

Lemma percent_bytes_cons (b : N) (bs : list N) :
  percent_bytes (b :: bs) = percent b ++ percent_bytes bs.
Proof.
  unfold percent_bytes. cbn [map String.concat].
  destruct (map percent bs) eqn:E; [|reflexivity].
  simpl. reflexivity.
Qed.

Lemma replace_2F_percent_bytes (rest : string) (bs : list N) :
  Forall (fun b => (b < 256)%N /\ b <> 47%N) bs ->
  replace_2F (percent_bytes bs ++ rest) = percent_bytes bs ++ replace_2F rest.
Proof.
  induction 1 as [|b bs [Hb H47] _ IH]; [reflexivity|].
  rewrite percent_bytes_cons, !string_app_assoc, (replace_2F_percent _ b Hb).
  apply N.eqb_neq in H47. now rewrite H47, IH.
Qed.

Lemma percent_bytes_output (bs : list N) :
  Forall (fun b => (b < 256)%N) bs ->
  all_chars path_output (percent_bytes bs) = true.
Proof.
  induction 1 as [|b bs Hb _ IH]; [reflexivity|].
  now rewrite percent_bytes_cons, all_chars_app, (percent_output b Hb), IH.
Qed.

Lemma read_percent_bytes (rest : string) (bs : list N) :
  Forall (fun b => (b < 256)%N) bs ->
  read_bytes (percent_bytes bs ++ rest) = (bs ++ read_bytes rest)%list.
Proof.
  induction 1 as [|b bs Hb _ IH]; [reflexivity|].
  rewrite percent_bytes_cons, string_app_assoc, (read_percent _ b Hb), IH.
  reflexivity.
Qed.

Lemma percent_bytes_length (bs : list N) :
  String.length (percent_bytes bs) = (3 * List.length bs)%nat.
Proof.
  induction bs as [|b bs IH]; [reflexivity|].
  rewrite percent_bytes_cons, string_length_app, IH. simpl. lia.
Qed.

(** *** UTF-8 *)

Ltac split_ranges :=
  repeat match goal with
    | |- context [(?a <? ?b)%N] => destruct (N.ltb_spec a b)
    | H : context [(?a <? ?b)%N] |- _ => destruct (N.ltb_spec a b)
    end.

Ltac div_lia := zify; Z.to_euclidean_division_equations; lia.

Lemma utf8_bytes_bound (cp : N) :
  (cp < 1114112)%N -> Forall (fun b => (b < 256)%N) (utf8_bytes cp).
Proof.
  intros Hcp. unfold utf8_bytes.
  split_ranges; repeat apply Forall_cons; try apply Forall_nil; cbv beta; div_lia.
Qed.

Lemma utf8_bytes_not_slash (cp : N) :
  cp <> 47%N -> Forall (fun b => b <> 47%N) (utf8_bytes cp).
Proof.
  intros Hcp. unfold utf8_bytes.
  split_ranges; repeat apply Forall_cons; try apply Forall_nil; cbv beta; div_lia.
Qed.

Lemma utf8_bytes_length (cp : N) :
  (1 <= List.length (utf8_bytes cp))%nat /\
  ((128 <= cp)%N -> (2 <= List.length (utf8_bytes cp))%nat).
Proof.
  unfold utf8_bytes. split_ranges; simpl; split; intros; lia.
Qed.

Lemma cons_inj {A : Type} (x y : A) (l l' : list A) :
  x :: l = y :: l' -> x = y /\ l = l'.
Proof. intros H. now inversion H. Qed.

Ltac split_cons :=
  repeat match goal with
    | H : _ :: _ = _ :: _ |- _ => apply cons_inj in H; destruct H
    end.

(** No encoding is the beginning of another: what follows a code
    point's bytes does not matter to reading it back. *)
Lemma utf8_bytes_prefix (cp1 cp2 : N) (l1 l2 : list N) :
  (cp1 < 1114112)%N -> (cp2 < 1114112)%N ->
  (utf8_bytes cp1 ++ l1 = utf8_bytes cp2 ++ l2)%list ->
  cp1 = cp2.
Proof.
  intros H1 H2. unfold utf8_bytes.
  split_ranges; cbn [app]; intros E; split_cons; div_lia.
Qed.

(** *** Code units *)

Lemma replace_2F_other (c : ascii) (s : string) :
  c <> "%"%char -> replace_2F (String c s) = String c (replace_2F s).
Proof.
  intros H. destruct c as [[] [] [] [] [] [] [] []]; try reflexivity.
  now elim H.
Qed.

Lemma unreserved_not_percent (u : N) :
  unreserved_unit u = true -> ascii_of_N u <> "%"%char.
Proof.
  unfold unreserved_unit. intros H E. rewrite E in H.
  now rewrite andb_false_r in H.
Qed.

Lemma pair_code_point_range (u v : N) :
  high_surrogate u = true -> low_surrogate v = true ->
  (65536 <= pair_code_point u v < 1114112)%N.
Proof.
  unfold high_surrogate, low_surrogate, pair_code_point. intros Hu Hv.
  apply andb_true_iff in Hu as [Hu1 Hu2]. apply andb_true_iff in Hv as [Hv1 Hv2].
  apply N.leb_le in Hu1, Hu2, Hv1, Hv2. lia.
Qed.

Lemma pair_code_point_inj (u v u' v' : N) :
  high_surrogate u = true -> low_surrogate v = true ->
  high_surrogate u' = true -> low_surrogate v' = true ->
  pair_code_point u v = pair_code_point u' v' -> u = u' /\ v = v'.
Proof.
  unfold high_surrogate, low_surrogate, pair_code_point. intros Hu Hv Hu' Hv'.
  apply andb_true_iff in Hu as [Hu1 Hu2]. apply andb_true_iff in Hv as [Hv1 Hv2].
  apply andb_true_iff in Hu' as [Hu1' Hu2']. apply andb_true_iff in Hv' as [Hv1' Hv2'].
  apply N.leb_le in Hu1, Hu2, Hv1, Hv2, Hu1', Hu2', Hv1', Hv2'. lia.
Qed.

Lemma percent_block (cp : N) :
  (cp < 1114112)%N -> cp <> 47%N ->
  Forall (fun b => (b < 256)%N /\ b <> 47%N) (utf8_bytes cp).
Proof.
  intros Hcp H47. apply Forall_and;
    [now apply utf8_bytes_bound | now apply utf8_bytes_not_slash].
Qed.

Lemma option_map_map {A B C : Type} (f : B -> C) (g : A -> B) (o : option A) :
  option_map f (option_map g o) = option_map (fun x => f (g x)) o.
Proof. now destruct o. Qed.

Lemma option_map_ext {A B : Type} (f g : A -> B) (o : option A) :
  (forall x, f x = g x) -> option_map f o = option_map g o.
Proof. intros H. destruct o; simpl; [now rewrite H | reflexivity]. Qed.

(** [encodePathSegment] alone keeps the ['/']: it is [encode_units]. *)
Lemma segment_units : forall (n : nat) (s : code_units),
  (List.length s <= n)%nat -> is_code_units s ->
  encodePathSegment s = encode_units s.
Proof.
  unfold encodePathSegment.
  induction n as [|n IH]; intros s Hlen Hwf.
  { destruct s; [reflexivity | simpl in Hlen; lia]. }
  destruct s as [|u r]; [reflexivity|].
  inversion Hwf as [|? ? Hu Hr]; subst. simpl in Hlen.
  cbn [encodeURIComponent encode_units]. unfold safe_unit.
  destruct (unreserved_unit u) eqn:Hun; cbn [orb].
  { rewrite <- (IH r) by (assumption || lia). rewrite !option_map_map.
    apply option_map_ext. intros x.
    apply replace_2F_other, unreserved_not_percent, Hun. }
  destruct (N.eqb_spec u 47) as [-> | H47].
  { cbn. rewrite <- (IH r) by (assumption || lia). rewrite !option_map_map.
    apply option_map_ext. reflexivity. }
  destruct (low_surrogate u) eqn:Hlow; [reflexivity|].
  destruct (high_surrogate u) eqn:Hhigh.
  - destruct r as [|v r']; [reflexivity|].
    destruct (low_surrogate v) eqn:Hv; [|reflexivity].
    inversion Hr as [|? ? _ Hr']; subst. simpl in Hlen.
    rewrite <- (IH r') by (assumption || lia). rewrite !option_map_map.
    apply option_map_ext. intros x.
    destruct (pair_code_point_range u v Hhigh Hv) as [Hlo Hhi].
    apply replace_2F_percent_bytes, percent_block; lia.
  - rewrite <- (IH r) by (assumption || lia). rewrite !option_map_map.
    apply option_map_ext. intros x.
    apply replace_2F_percent_bytes, percent_block; [lia | exact H47].
Qed.

Lemma join_slash_map (f : string -> string) (g : string -> string)
    (a b : option string) :
  (forall x y, g (x ++ String "/" y) = f x ++ String "/" y) ->
  option_map g (join_slash a b) = join_slash (option_map f a) b.
Proof. intros H. destruct a, b; simpl; now rewrite ?H. Qed.

(** [encode_units] goes through a ['/']. *)
Lemma encode_units_slash (b : code_units) : forall (n : nat) (a : code_units),
  (List.length a <= n)%nat ->
  encode_units (a ++ 47%N :: b)%list = join_slash (encode_units a) (encode_units b).
Proof.
  induction n as [|n IH]; intros a Hlen.
  { destruct a; [|simpl in Hlen; lia]. cbn. now destruct (encode_units b). }
  destruct a as [|u r]; [cbn; now destruct (encode_units b)|].
  simpl in Hlen. cbn [app encode_units].
  destruct (safe_unit u).
  { rewrite (IH r) by lia. now apply join_slash_map. }
  destruct (low_surrogate u); [reflexivity|].
  destruct (high_surrogate u).
  - destruct r as [|v r']; [reflexivity|]. cbn [app].
    destruct (low_surrogate v); [|reflexivity]. simpl in Hlen.
    rewrite (IH r') by lia. apply join_slash_map.
    intros x y. now rewrite string_app_assoc.
  - rewrite (IH r) by lia. apply join_slash_map.
    intros x y. now rewrite string_app_assoc.
Qed.

(** *** Splitting at ['/'] and joining again *)

Lemma split_units_cons (p : code_units) :
  exists w ws, split_units 47 p = w :: ws.
Proof.
  induction p as [|u p [w [ws E]]]; simpl; [now eexists _, _|].
  rewrite E. destruct (u =? 47)%N; now eexists _, _.
Qed.

Lemma join_split_units (p : code_units) : join_units (split_units 47 p) = p.
Proof.
  induction p as [|u p IH]; [reflexivity|].
  cbn [split_units]. destruct (split_units_cons p) as [w [ws E]].
  rewrite E in *. destruct (N.eqb_spec u 47) as [-> | _].
  - rewrite <- IH. reflexivity.
  - rewrite <- IH. destruct ws; reflexivity.
Qed.

Lemma split_units_wf (p : code_units) :
  is_code_units p -> Forall is_code_units (split_units 47 p).
Proof.
  induction 1 as [|u p Hu Hp IH]; [repeat constructor|].
  cbn [split_units]. destruct (u =? 47)%N; [constructor; [constructor | exact IH]|].
  destruct (split_units 47 p) as [|w ws]; [repeat constructor; exact Hu|].
  inversion IH; subst. constructor; [now constructor | assumption].
Qed.

Lemma all_results_cons {A : Type} (o : option A) (l : list (option A)) (r : list A) :
  all_results (o :: l) = Some r -> r <> [].
Proof.
  simpl. destruct o; [|discriminate]. destruct (all_results l); simpl; congruence.
Qed.

Lemma encode_join_units (ss : list code_units) :
  ss <> [] ->
  encode_units (join_units ss)
  = option_map (String.concat "/") (all_results (map encode_units ss)).
Proof.
  induction ss as [|s rest IH]; [congruence|]. intros _.
  destruct rest as [|s' rest'].
  - cbn. now destruct (encode_units s).
  - change (join_units (s :: s' :: rest'))
      with (s ++ 47%N :: join_units (s' :: rest'))%list.
    rewrite (encode_units_slash _ _ s (le_n _)), IH by congruence.
    change (map encode_units (s :: s' :: rest'))
      with (encode_units s :: map encode_units (s' :: rest')).
    remember (map encode_units (s' :: rest')) as m eqn:Hm.
    cbn [all_results]. destruct (encode_units s) as [x|]; [|reflexivity].
    destruct (all_results m) as [l|] eqn:E; [|reflexivity].
    subst m. cbn [map] in E. apply all_results_cons in E.
    destruct l; [congruence|]. reflexivity.
Qed.

(** [encodePath] is [encode_units]: splitting, encoding the segments and
    joining them comes to encoding every code point but ['/']. *)
Lemma encodePath_units (p : code_units) :
  is_code_units p -> encodePath (Some p) = encode_units p.
Proof.
  intros Hwf.
  transitivity (option_map (String.concat "/")
                  (all_results (map encodePathSegment (split_units 47 p))));
    [now destruct p|].
  rewrite <- (join_split_units p) at 2.
  destruct (split_units_cons p) as [w [ws E]].
  rewrite encode_join_units by (rewrite E; congruence).
  do 2 f_equal. apply map_ext_in. intros s Hs.
  apply (segment_units _ s (le_n _)).
  pose proof (split_units_wf p Hwf) as Hall.
  rewrite Forall_forall in Hall. now apply Hall.
Qed.

Lemma safe_unit_output (u : N) :
  safe_unit u = true -> path_safe (ascii_of_N u) = true /\ (u < 128)%N.
Proof.
  unfold safe_unit, unreserved_unit, path_safe. intros H.
  apply orb_true_iff in H as [H | H].
  - apply andb_true_iff in H as [H1 H2]. apply N.ltb_lt in H1.
    now rewrite H2.
  - apply N.eqb_eq in H. subst u. split; [reflexivity | lia].
Qed.

Lemma path_safe_output (c : ascii) : path_safe c = true -> path_output c = true.
Proof. unfold path_output. now intros ->. Qed.

(** What a successful [encode_units] begins with. *)
Lemma encode_units_head (u : N) (r : code_units) (out : string) :
  is_code_units (u :: r) -> encode_units (u :: r) = Some out ->
  (safe_unit u = true /\
   exists x, out = String (ascii_of_N u) x /\ encode_units r = Some x) \/
  (safe_unit u = false /\
   exists cp rest x,
     (cp < 1114112)%N /\ out = percent_bytes (utf8_bytes cp) ++ x /\
     encode_units rest = Some x /\ is_code_units rest /\
     ((cp = u /\ rest = r /\ (cp < 65536)%N) \/
      (exists v, r = v :: rest /\ high_surrogate u = true /\
                 low_surrogate v = true /\ cp = pair_code_point u v))).
Proof.
  intros Hwf. inversion Hwf as [|? ? Hu Hr]; subst.
  cbn [encode_units]. destruct (safe_unit u) eqn:Hs.
  { intros E. left. split; [reflexivity|].
    destruct (encode_units r) as [x|]; [|discriminate].
    exists x. split; [now inversion E | reflexivity]. }
  destruct (low_surrogate u) eqn:Hlow; [discriminate|].
  intros E. right. split; [reflexivity|].
  destruct (high_surrogate u) eqn:Hhigh.
  - destruct r as [|v r']; [discriminate|].
    destruct (low_surrogate v) eqn:Hv; [|discriminate].
    destruct (encode_units r') as [x|] eqn:Ex; [|discriminate].
    inversion Hr; subst.
    destruct (pair_code_point_range u v Hhigh Hv) as [Hlo Hhi].
    exists (pair_code_point u v), r', x.
    repeat split; try assumption; [now inversion E|].
    right. now exists v.
  - destruct (encode_units r) as [x|] eqn:Ex; [|discriminate].
    exists u, r, x.
    repeat split; try assumption; [lia | now inversion E |].
    now left.
Qed.

Lemma utf8_bytes_cons (cp : N) : exists b bs, utf8_bytes cp = b :: bs.
Proof. unfold utf8_bytes. split_ranges; now eexists _, _. Qed.

Lemma percent_bytes_utf8_head (cp : N) :
  exists s, percent_bytes (utf8_bytes cp) = String "%" s.
Proof.
  destruct (utf8_bytes_cons cp) as [b [bs ->]].
  rewrite percent_bytes_cons. now eexists.
Qed.

Lemma string_app_inv_head (a x y : string) : a ++ x = a ++ y -> x = y.
Proof.
  induction a as [|c a IH]; simpl; [trivial|]. intros E. apply IH. now inversion E.
Qed.

Lemma units_of_string_cons (c : ascii) (s : string) :
  units_of_string (String c s) = N_of_ascii c :: units_of_string s.
Proof. reflexivity. Qed.

Lemma units_of_string_length (s : string) :
  List.length (units_of_string s) = String.length s.
Proof.
  induction s as [|c s IH]; [reflexivity|].
  rewrite units_of_string_cons. simpl. now rewrite IH.
Qed.

(** A result is at least as long as the path, and as long only when
    nothing was encoded. *)
Lemma encode_units_length : forall (n : nat) (p : code_units) (out : string),
  (List.length p <= n)%nat -> is_code_units p -> encode_units p = Some out ->
  (List.length p <= String.length out)%nat /\
  (String.length out = List.length p -> forallb safe_unit p = true).
Proof.
  induction n as [|n IH]; intros p out Hlen Hwf E.
  { destruct p; [|simpl in Hlen; lia]. inversion E. split; [simpl; lia | reflexivity]. }
  destruct p as [|u r]; [inversion E; split; [simpl; lia | reflexivity]|].
  simpl in Hlen. inversion Hwf as [|? ? Hu Hr]; subst.
  destruct (encode_units_head u r out Hwf E)
    as [[Hs [x [-> Ex]]] | [Hs [cp [rest [x [Hcp [-> [Ex [Hrest Hshape]]]]]]]]].
  - destruct (IH r x ltac:(lia) Hr Ex) as [H1 H2]. cbn [forallb String.length length].
    rewrite Hs. split; [lia|]. intros H. apply H2. lia.
  - rewrite string_length_app, percent_bytes_length.
    pose proof (utf8_bytes_length cp) as [L1 L2].
    destruct Hshape as [[-> [-> Hlt]] | [v [-> [Hhigh [Hv ->]]]]].
    + destruct (IH r x ltac:(lia) Hr Ex) as [H1 _].
      cbn [length]. split; lia.
    + destruct (IH rest x ltac:(simpl in Hlen; lia) Hrest Ex) as [H1 _].
      destruct (pair_code_point_range u v Hhigh Hv) as [Hlo _].
      specialize (L2 ltac:(lia)). cbn [length]. split; lia.
Qed.

Lemma encode_units_safe (p : code_units) :
  forallb safe_unit p = true ->
  exists out, encode_units p = Some out /\ units_of_string out = p.
Proof.
  induction p as [|u p IH]; [now exists ""|].
  cbn [forallb]. intros H. apply andb_true_iff in H as [Hu Hp].
  destruct (IH Hp) as [x [Ex Hx]].
  exists (String (ascii_of_N u) x). cbn [encode_units]. rewrite Hu, Ex.
  split; [reflexivity|].
  rewrite units_of_string_cons, Hx, N_ascii_embedding; [reflexivity|].
  destruct (safe_unit_output u Hu). lia.
Qed.

Lemma encode_units_output : forall (n : nat) (p : code_units) (out : string),
  (List.length p <= n)%nat -> is_code_units p -> encode_units p = Some out ->
  all_chars path_output out = true.
Proof.
  induction n as [|n IH]; intros p out Hlen Hwf E.
  { destruct p; [|simpl in Hlen; lia]. now inversion E. }
  destruct p as [|u r]; [now inversion E|].
  simpl in Hlen. inversion Hwf as [|? ? Hu Hr]; subst.
  destruct (encode_units_head u r out Hwf E)
    as [[Hs [x [-> Ex]]] | [Hs [cp [rest [x [Hcp [-> [Ex [Hrest Hshape]]]]]]]]].
  - change (String (ascii_of_N u) x) with (String (ascii_of_N u) "" ++ x).
    rewrite all_chars_app, (IH r x) by (assumption || lia).
    destruct (safe_unit_output u Hs) as [Hsafe _].
    unfold all_chars. simpl. now rewrite (path_safe_output _ Hsafe).
  - rewrite all_chars_app, percent_bytes_output by now apply utf8_bytes_bound.
    apply (IH rest x); try assumption.
    destruct Hshape as [[_ [-> _]] | [v [-> _]]]; simpl in *; lia.
Qed.

Lemma encode_units_inj : forall (n : nat) (p q : code_units) (out : string),
  (List.length p <= n)%nat -> is_code_units p -> is_code_units q ->
  encode_units p = Some out -> encode_units q = Some out -> p = q.
Proof.
  induction n as [|n IH]; intros p q out Hlen Hp Hq Ep Eq.
  { destruct p; [|simpl in Hlen; lia]. inversion Ep; subst.
    destruct q as [|u' r']; [reflexivity|].
    destruct (encode_units_head u' r' _ Hq Eq)
      as [[_ [x [E _]]] | [_ [cp [rest [x [_ [E _]]]]]]]; [discriminate|].
    destruct (percent_bytes_utf8_head cp) as [s Hs]. rewrite Hs in E. discriminate. }
  destruct p as [|u r].
  { inversion Ep; subst.
    destruct q as [|u' r']; [reflexivity|].
    destruct (encode_units_head u' r' _ Hq Eq)
      as [[_ [x [E _]]] | [_ [cp [rest [x [_ [E _]]]]]]]; [discriminate|].
    destruct (percent_bytes_utf8_head cp) as [s Hs]. rewrite Hs in E. discriminate. }
  simpl in Hlen.
  destruct q as [|u' r'].
  { inversion Eq; subst.
    destruct (encode_units_head u r _ Hp Ep)
      as [[_ [x [E _]]] | [_ [cp [rest [x [_ [E _]]]]]]]; [discriminate|].
    destruct (percent_bytes_utf8_head cp) as [s Hs]. rewrite Hs in E. discriminate. }
  inversion Hp as [|? ? Hu Hr]; subst. inversion Hq as [|? ? Hu' Hr']; subst.
  destruct (encode_units_head u r out Hp Ep)
    as [[Hs [x [-> Ex]]] | [Hs [cp [rest [x [Hcp [-> [Ex [Hrest Hshape]]]]]]]]];
  destruct (encode_units_head u' r' _ Hq Eq)
    as [[Hs' [x' [E' Ex']]] | [Hs' [cp' [rest' [x' [Hcp' [E' [Ex' [Hrest' Hshape']]]]]]]]].
  - inversion E' as [[Hc Hx]]. subst x'.
    destruct (safe_unit_output u Hs) as [_ Hlt].
    destruct (safe_unit_output u' Hs') as [_ Hlt'].
    assert (u = u').
    { rewrite <- (N_ascii_embedding u), <- (N_ascii_embedding u') by lia.
      now rewrite Hc. }
    subst u'. f_equal. apply (IH r r' x); (assumption || lia).
  - destruct (percent_bytes_utf8_head cp') as [s Hs0]. rewrite Hs0 in E'.
    inversion E' as [[Hc Hx]].
    destruct (safe_unit_output u Hs) as [Hsafe _]. rewrite Hc in Hsafe. discriminate.
  - destruct (percent_bytes_utf8_head cp) as [s Hs0]. rewrite Hs0 in E'.
    inversion E' as [[Hc Hx]].
    destruct (safe_unit_output u' Hs') as [Hsafe _]. rewrite <- Hc in Hsafe.
    discriminate.
  - assert (cp = cp').
    { apply (utf8_bytes_prefix cp cp' (read_bytes x) (read_bytes x') Hcp Hcp').
      rewrite <- !read_percent_bytes by now apply utf8_bytes_bound.
      now rewrite E'. }
    subst cp'. apply string_app_inv_head in E'. subst x'.
    assert (Hrr : rest = rest').
    { apply (IH rest rest' x); try assumption.
      destruct Hshape as [[_ [-> _]] | [v [-> _]]]; simpl in *; lia. }
    subst rest'.
    destruct Hshape as [[-> [-> Hlt]] | [v [-> [Hhigh [Hv ->]]]]];
    destruct Hshape' as [[E1 [E2 Hlt']] | [v' [E2 [Hhigh' [Hv' E1]]]]].
    + now subst.
    + subst. destruct (pair_code_point_range u' v' Hhigh' Hv'). lia.
    + subst. destruct (pair_code_point_range u v Hhigh Hv). lia.
    + subst. destruct (pair_code_point_inj u v u' v' Hhigh Hv Hhigh' Hv' E1).
      now subst.
Qed.

Lemma units_of_string_wf (s : string) : is_code_units (units_of_string s).
Proof.
  induction s as [|c s IH]; [constructor|].
  rewrite units_of_string_cons. constructor; [|exact IH].
  pose proof (N_ascii_bounded c). lia.
Qed.

Lemma encode_units_narrow_char (c : ascii) (r : code_units) :
  encode_units (N_of_ascii c :: r)
  = option_map (append (encode_path_char c)) (encode_units r).
Proof. destruct c as [[] [] [] [] [] [] [] []]; reflexivity. Qed.

(** On a string of code units below 256 [encodePath] raises nothing, and
    is the character-wise [encodePath_narrow] the handlers are written
    with. *)
Lemma encodePath_narrow_agrees (s : string) :
  encodePath (Some (units_of_string s)) = Some (encodePath_narrow s).
Proof.
  rewrite encodePath_units by apply units_of_string_wf.
  induction s as [|c s IH]; [reflexivity|].
  rewrite units_of_string_cons, encode_units_narrow_char, IH. reflexivity.
Qed.

(** X1: [encodePath] keeps every ['/'] where it is and encodes what is on
    either side of it apart: [encodePath(a + '/' + b)] is
    [encodePath(a) + '/' + encodePath(b)], and raises when one of the two
    does. *)
Theorem encodePath_segments (a b : code_units) :
  is_code_units a -> is_code_units b ->
  encodePath (Some (a ++ 47%N :: b)%list)
  = join_slash (encodePath (Some a)) (encodePath (Some b)).
Proof.
  intros Ha Hb.
  assert (Hab : is_code_units (a ++ 47%N :: b)%list).
  { apply Forall_app. split; [exact Ha|]. constructor; [lia | exact Hb]. }
  rewrite !encodePath_units by assumption.
  apply (encode_units_slash b _ a (le_n _)).
Qed.

Lemma encodePath_segments_witness :
  encodePath (Some (units_of_string "/foo bar" ++ 47%N :: units_of_string "b z")%list)
  = join_slash (encodePath (Some (units_of_string "/foo bar")))
               (encodePath (Some (units_of_string "b z"))).
Proof.
  apply (encodePath_segments (units_of_string "/foo bar") (units_of_string "b z"));
    apply units_of_string_wf.
Defined.

(** X2: A result of [encodePath], the [''] of a missing path included,
    holds unreserved characters, ['/'] and ['%'] only: no space, no
    control character, nothing outside ASCII. *)
Theorem encodePath_output_chars (path : option code_units) (out : string) :
  (forall p, path = Some p -> is_code_units p) ->
  encodePath path = Some out ->
  all_chars path_output out = true.
Proof.
  intros Hwf E. destruct path as [p|]; [|now inversion E].
  specialize (Hwf p eq_refl). rewrite encodePath_units in E by assumption.
  exact (encode_units_output _ p out (le_n _) Hwf E).
Qed.

Lemma emoji_path_wf : is_code_units emoji_path.
Proof. repeat constructor. Qed.

Lemma encodePath_output_chars_witness :
  all_chars path_output "/%F0%9F%98%80/a" = true.
Proof.
  apply (encodePath_output_chars (Some emoji_path)).
  - intros p E. inversion E. exact emoji_path_wf.
  - reflexivity.
Defined.

(** X3: [encodePath] gives a path back as it is exactly when the path
    holds unreserved characters and ['/'] only; any other code unit,
    ['%'] included, is encoded or raises (so encoding twice is not
    encoding once). *)
Theorem encodePath_fixed_iff (p : code_units) :
  is_code_units p ->
  ((exists out, encodePath (Some p) = Some out /\ units_of_string out = p)
   <-> forallb safe_unit p = true).
Proof.
  intros Hwf. rewrite encodePath_units by assumption. split.
  - intros [out [E Hout]].
    destruct (encode_units_length _ p out (le_n _) Hwf E) as [_ H].
    apply H. rewrite <- Hout. now rewrite units_of_string_length.
  - apply encode_units_safe.
Qed.

Lemma encodePath_fixed_iff_witness :
  (exists out, encodePath (Some (units_of_string "/a-b/c.d")) = Some out /\
               units_of_string out = units_of_string "/a-b/c.d")
  /\ ~ (exists out, encodePath (Some (units_of_string "/a%20b")) = Some out /\
                    units_of_string out = units_of_string "/a%20b").
Proof.
  split.
  - apply (encodePath_fixed_iff (units_of_string "/a-b/c.d"));
      [apply units_of_string_wf | reflexivity].
  - intros H.
    apply (encodePath_fixed_iff (units_of_string "/a%20b")) in H;
      [discriminate H | apply units_of_string_wf].
Defined.

(** X4: No two paths are encoded alike. *)
Theorem encodePath_injective (p q : code_units) (out : string) :
  is_code_units p -> is_code_units q ->
  encodePath (Some p) = Some out -> encodePath (Some q) = Some out ->
  p = q.
Proof.
  intros Hp Hq. rewrite !encodePath_units by assumption.
  apply (encode_units_inj _ p q out (le_n _) Hp Hq).
Qed.

Lemma encodePath_injective_witness :
  emoji_path = ([47; 55357] ++ [56832; 47; 97])%list%N.
Proof.
  apply (encodePath_injective emoji_path ([47; 55357] ++ [56832; 47; 97])%list%N
           "/%F0%9F%98%80/a").
  - exact emoji_path_wf.
  - repeat constructor.
  - reflexivity.
  - reflexivity.
Defined.
(** ** The response header transform *)

Example processResponseHeaders_ex :
  processResponseHeaders
    (PlainObject [("content-type", One "text/html"); ("content-length", One "120");
                  ("set-cookie", Many ["a=1"; "b=2"]); ("Content-Encoding", One "gzip")])
  = [("content-type", "text/html"); ("set-cookie", "a=1"); ("set-cookie", "b=2")].
Proof. reflexivity. Qed.

Lemma all_kept_set (h : Headers.t) (k v : string) :
  kept_response_header k = true -> all_kept h -> all_kept (Headers.set h k v).
Proof.
  intros Hk Hh. unfold Headers.set.
  destruct (Headers.has h k).
  - induction Hh as [|e h He Hh IH]; simpl; [constructor|].
    destruct (Headers.named k e).
    + constructor; [exact He|].
      apply Forall_forall. intros x Hx. apply filter_In in Hx as [Hx _].
      rewrite Forall_forall in Hh. now apply Hh.
    + now constructor.
  - apply Forall_app. split; [exact Hh | now constructor].
Qed.

Lemma all_kept_append (h : Headers.t) (k : string) (vs : list string) :
  kept_response_header k = true -> all_kept h ->
  all_kept (fold_left (fun h v => Headers.append h k v) vs h).
Proof.
  intros Hk. revert h. induction vs as [|v vs IH]; intros h Hh; simpl; [exact Hh|].
  apply IH. apply Forall_app. split; [exact Hh | now constructor].
Qed.

Lemma all_kept_get (h : Headers.t) (name : string) :
  all_kept h ->
  In (JS.toLowerCase name) stripped_response_headers ->
  Headers.get h name = None.
Proof.
  intros Hh Hs. unfold Headers.get.
  assert (E : Headers.values h name = []); [|now rewrite E].
  unfold Headers.values.
  induction Hh as [|e h He Hh IH]; simpl; [reflexivity|].
  destruct (Headers.named name e) eqn:Hn; [|exact IH].
  unfold Headers.named in Hn. apply String.eqb_eq in Hn.
  unfold kept_response_header in He. rewrite Hn in He.
  apply arr_includes_In in Hs. now rewrite Hs in He.
Qed.

Lemma processResponseHeaders_kept (src : HeaderSource) :
  all_kept (processResponseHeaders src).
Proof.
  assert (Hentries : forall es acc, all_kept acc ->
            all_kept (fold_left response_entry_step es acc)).
  { induction es as [|e es IH]; intros acc Hacc; simpl; [exact Hacc|].
    apply IH. unfold response_entry_step.
    destruct (kept_response_header (fst e)) eqn:Hk; [|exact Hacc].
    now apply all_kept_set. }
  assert (Hobject : forall o acc, all_kept acc ->
            all_kept (fold_left response_object_step o acc)).
  { induction o as [|e o IH]; intros acc Hacc; simpl; [exact Hacc|].
    apply IH. unfold response_object_step.
    destruct (kept_response_header (fst e)) eqn:Hk; [|exact Hacc].
    destruct (snd e); [now apply all_kept_set | now apply all_kept_append]. }
  destruct src; simpl; try constructor;
    [apply Hentries | apply Hentries | apply Hobject]; constructor.
Qed.

Example processResponseHeaders_array :
  processResponseHeaders_any (ArrayOf ["gzip"])
  = Throw "TypeError: key.toLowerCase is not a function".
Proof. reflexivity. Qed.

(** X5: Whenever [processResponseHeaders] returns (it does on a falsy
    value, a [Headers] object, a [Map] or a plain object of well-formed
    headers, a value that is no object and an empty array; on an array
    with an element it raises), the headers it returns hold no
    [content-encoding], [transfer-encoding] or [content-length],
    however the origin spelt them. *)
Theorem processResponseHeaders_strips (a : HeaderArgument) (h : Headers.t)
    (name : string) :
  processResponseHeaders_any a = Return h ->
  In (JS.toLowerCase name) stripped_response_headers ->
  Headers.get h name = None.
Proof.
  intros E Hs. apply all_kept_get; [|exact Hs].
  destruct a as [src | [|item items]]; inversion E; subst.
  - apply processResponseHeaders_kept.
  - constructor.
Qed.

Lemma processResponseHeaders_strips_witness :
  Headers.get
    (processResponseHeaders
       (PlainObject [("Content-Length", One "120"); ("etag", One "abc")]))
    "content-length" = None.
Proof.
  apply (processResponseHeaders_strips
           (Covered (PlainObject [("Content-Length", One "120"); ("etag", One "abc")])));
    [reflexivity|].
  right. right. left. reflexivity.
Defined.

Lemma last_value_cons (k v : string) (es : list (string * string)) (n : string) :
  JS.last_value ((k, v) :: es) n =
  match JS.last_value es n with
  | Some x => Some x
  | None => if k =? n then Some v else None
  end.
Proof.
  unfold JS.last_value. simpl.
  destruct (k =? n); simpl.
  - destruct (rev (filter (fun e => fst e =? n) es)); reflexivity.
  - now destruct (rev (filter (fun e => fst e =? n) es)).
Qed.

Lemma fold_entry_get (es : list (string * string)) :
  Forall (fun e => JS.toLowerCase (fst e) = fst e) es ->
  forall (acc : Headers.t) (n : string),
  Headers.get (fold_left response_entry_step es acc) n =
  if JS.arr_includes stripped_response_headers (JS.toLowerCase n)
  then Headers.get acc n
  else match JS.last_value es (JS.toLowerCase n) with
       | Some v => Some v
       | None => Headers.get acc n
       end.
Proof.
  induction 1 as [|[k v] es Hk _ IH]; intros acc n; simpl.
  - now destruct (JS.arr_includes _ _).
  - simpl in Hk. rewrite IH, last_value_cons.
    unfold response_entry_step, kept_response_header. simpl. rewrite Hk.
    destruct (JS.arr_includes stripped_response_headers (JS.toLowerCase n)) eqn:Hn.
    + destruct (JS.arr_includes stripped_response_headers k) eqn:Hs; simpl;
        [reflexivity|].
      rewrite get_set, Hk.
      destruct (JS.toLowerCase n =? k) eqn:E; [|reflexivity].
      apply String.eqb_eq in E. congruence.
    + destruct (JS.last_value es (JS.toLowerCase n)); [reflexivity|].
      destruct (JS.arr_includes stripped_response_headers k) eqn:Hs; simpl.
      * destruct (k =? JS.toLowerCase n) eqn:E; [|reflexivity].
        apply String.eqb_eq in E. congruence.
      * rewrite get_set, Hk, (String.eqb_sym k). now destruct (JS.toLowerCase n =? k).
Qed.

(** X6: Given a [Headers] object, [processResponseHeaders] hands on every
    header other than the three stripped ones with the value it had (a
    repeated [set-cookie] apart, of which [set] keeps the last). *)
Theorem processResponseHeaders_keeps (h : Headers.t) (name : string) :
  ~ In (JS.toLowerCase name) stripped_response_headers ->
  JS.toLowerCase name <> "set-cookie" ->
  Headers.get (processResponseHeaders (HeadersLike h)) name = Headers.get h name.
Proof.
  intros Hs Hsc. apply arr_includes_not_In in Hs.
  unfold processResponseHeaders.
  rewrite (fold_entry_get _ (entries_keys_lower h)), Hs.
  rewrite (last_value_entries h _ (toLowerCase_idem name) Hsc), get_lower.
  now destruct (Headers.get h name).
Qed.

Lemma processResponseHeaders_keeps_witness :
  Headers.get
    (processResponseHeaders
       (HeadersLike [("ETag", "abc"); ("Content-Length", "3"); ("Vary", "a"); ("vary", "b")]))
    "Vary" = Some "a, b".
Proof.
  rewrite processResponseHeaders_keeps; [reflexivity | | discriminate].
  intros [H | [H | [H | []]]]; discriminate.
Defined.

Lemma values_app (h1 h2 : Headers.t) (n : string) :
  Headers.values (h1 ++ h2)%list n = (Headers.values h1 n ++ Headers.values h2 n)%list.
Proof. unfold Headers.values. now rewrite filter_app, map_app. Qed.

Lemma values_append_chain (k : string) (vs : list string) : forall (h : Headers.t) (n : string),
  Headers.values (fold_left (fun h v => Headers.append h k v) vs h) n =
  (Headers.values h n ++
   if JS.toLowerCase k =? JS.toLowerCase n then vs else [])%list.
Proof.
  induction vs as [|v vs IH]; intros h n; simpl.
  - now destruct (_ =? _); rewrite app_nil_r.
  - rewrite IH. unfold Headers.append. rewrite values_app.
    unfold Headers.values at 2, Headers.named. simpl.
    destruct (JS.toLowerCase k =? JS.toLowerCase n); simpl;
      now rewrite <- app_assoc.
Qed.

Lemma object_step_other (h : Headers.t) (e : string * HeaderValue) (n : string) :
  JS.toLowerCase n <> JS.toLowerCase (fst e) ->
  Headers.values (response_object_step h e) n = Headers.values h n.
Proof.
  intros Hne. unfold response_object_step.
  destruct (kept_response_header (fst e)); [|reflexivity].
  destruct (snd e).
  - now apply values_set_other.
  - rewrite values_append_chain.
    assert (E : (JS.toLowerCase (fst e) =? JS.toLowerCase n) = false)
      by (apply String.eqb_neq; congruence).
    now rewrite E, app_nil_r.
Qed.

Lemma object_step_same (h : Headers.t) (e : string * HeaderValue) :
  kept_response_header (fst e) = true ->
  Headers.values h (fst e) = [] ->
  Headers.values (response_object_step h e) (fst e) = header_values (snd e).
Proof.
  intros Hk Hnone. unfold response_object_step. rewrite Hk.
  destruct (snd e); simpl.
  - apply values_set_same.
  - now rewrite values_append_chain, Hnone, String.eqb_refl.
Qed.

Lemma fold_object_other (o : list (string * HeaderValue)) (n : string) :
  (forall e, In e o -> JS.toLowerCase n <> JS.toLowerCase (fst e)) ->
  forall acc, Headers.values (fold_left response_object_step o acc) n
              = Headers.values acc n.
Proof.
  induction o as [|e o IH]; intros Hne acc; simpl; [reflexivity|].
  rewrite IH; [|intros x Hx; apply Hne; now right].
  apply object_step_other, Hne. now left.
Qed.

Lemma fold_object_same (o : list (string * HeaderValue)) :
  NoDup (map (fun e => JS.toLowerCase (fst e)) o) ->
  forall acc k v,
    (forall e, In e o -> Headers.values acc (fst e) = []) ->
    In (k, v) o ->
    kept_response_header k = true ->
    Headers.values (fold_left response_object_step o acc) k = header_values v.
Proof.
  induction o as [|e o IH]; intros Hnd acc k v Hacc Hin Hk; [destruct Hin|].
  inversion Hnd as [|? ? Hnot Hrest]; subst. simpl.
  destruct Hin as [-> | Hin].
  - rewrite fold_object_other.
    + apply (object_step_same acc (k, v) Hk). apply (Hacc (k, v)). now left.
    + intros x Hx E. apply Hnot. simpl. rewrite E.
      now apply (in_map (fun e => JS.toLowerCase (fst e))).
  - apply (IH Hrest); [|exact Hin | exact Hk].
    intros x Hx. rewrite object_step_other; [apply Hacc; now right|].
    intros E. apply Hnot. rewrite <- E.
    now apply (in_map (fun e => JS.toLowerCase (fst e))).
Qed.

(** X7: Given the plain object of an origin reply, whose keys differ beyond
    case, [processResponseHeaders] keeps under every name other than the
    three stripped ones all the values the origin sent, in order: the
    string value alone, or every element of an array value (several
    [Set-Cookie] headers all reach the client). *)
Theorem processResponseHeaders_object (o : list (string * HeaderValue))
    (k : string) (v : HeaderValue) :
  NoDup (map (fun e => JS.toLowerCase (fst e)) o) ->
  In (k, v) o ->
  ~ In (JS.toLowerCase k) stripped_response_headers ->
  Headers.values (processResponseHeaders (PlainObject o)) k = header_values v.
Proof.
  intros Hnd Hin Hs. apply arr_includes_not_In in Hs.
  apply (fold_object_same o Hnd [] k v); [reflexivity | exact Hin|].
  unfold kept_response_header. now rewrite Hs.
Qed.

Lemma processResponseHeaders_object_witness :
  Headers.values
    (processResponseHeaders
       (PlainObject [("content-type", One "text/html");
                     ("set-cookie", Many ["a=1"; "b=2"]);
                     ("content-length", One "120")]))
    "set-cookie" = ["a=1"; "b=2"].
Proof.
  apply (processResponseHeaders_object _ "set-cookie" (Many ["a=1"; "b=2"])).
  - repeat constructor; simpl; intuition discriminate.
  - right. left. reflexivity.
  - intros [H | [H | [H | []]]]; discriminate.
Defined.

(** ** The resource classifier, both signals *)

Lemma includes_inv (p : string) : forall s,
  JS.includes p s = true -> exists a b, s = a ++ p ++ b.
Proof.
  induction s as [|c s IH]; simpl; intros H.
  - apply orb_true_iff in H as [H | H]; [|discriminate].
    exists "", "". destruct p; [reflexivity | discriminate].
  - apply orb_true_iff in H as [H | H].
    + exists "", (JS.drop (String.length p) (String c s)).
      now apply startsWith_inv.
    + destruct (IH H) as (a & b & ->). now exists (String c a), b.
Qed.

Example isStatic_mime_case : isStaticResource None (Some "IMAGE/PNG") = false.
Proof. reflexivity. Qed.

Example isStatic_mime_anywhere :
  isStaticResource (Some "/api") (Some "application/json; was=image/png") = true.
Proof. reflexivity. Qed.

(** X8: [isStaticResource] is true exactly when one of its two signals
    fires: the path is non-empty and the lower-cased substring after its
    last ['.'] is a listed extension, or one of the listed MIME strings
    occurs somewhere in the content type, letter case as listed. *)
Theorem isStatic_characterisation (path contentType : option string) :
  isStaticResource path contentType = true <->
  (exists p ext, path = Some p /\ p <> "" /\ file_extension p ext /\
                 In (JS.toLowerCase ext) STATIC_EXTENSIONS) \/
  (exists t m a b, contentType = Some t /\ In m staticMimeTypes /\ t = a ++ m ++ b).
Proof.
  unfold isStaticResource. split.
  - destruct path as [p|].
    + destruct (JS.truthy (Some p) && _) eqn:Hp.
      * intros _. left. apply andb_true_iff in Hp as [Ht Hi].
        destruct (file_extension_total p) as [ext Hext].
        exists p, ext. split; [reflexivity|].
        split; [unfold JS.truthy in Ht; now apply String.eqb_neq, negb_true_iff|].
        split; [exact Hext|]. apply arr_includes_In.
        unfold extension in Hi. now rewrite (file_extension_pop _ _ Hext) in Hi.
      * destruct contentType as [t|]; [|discriminate].
        intros H. apply andb_true_iff in H as [_ H].
        apply existsb_exists in H as (m & Hm & Hinc).
        destruct (includes_inv _ _ Hinc) as (a & b & E).
        right. now exists t, m, a, b.
    + destruct contentType as [t|]; [|discriminate].
      intros H. apply andb_true_iff in H as [_ H].
      apply existsb_exists in H as (m & Hm & Hinc).
      destruct (includes_inv _ _ Hinc) as (a & b & E).
      right. now exists t, m, a, b.
  - intros [(p & ext & -> & Hne & Hext & Hin) | (t & m & a & b & -> & Hm & E)].
    + unfold extension. rewrite (file_extension_pop _ _ Hext).
      apply arr_includes_In in Hin. rewrite Hin.
      unfold JS.truthy. apply String.eqb_neq in Hne. now rewrite Hne.
    + assert (Hct : JS.truthy (Some t) &&
                    existsb (fun mimeType => JS.includes mimeType t) staticMimeTypes
                    = true).
      { apply andb_true_iff. split.
        - unfold JS.truthy. apply negb_true_iff, String.eqb_neq. intros ->.
          destruct a; [|discriminate].
          destruct m; [|discriminate].
          simpl in Hm. intuition discriminate.
        - apply existsb_exists. exists m. split; [exact Hm|].
          rewrite E. apply includes_app. }
      rewrite Hct. now destruct (match path with Some _ => _ | None => _ end).
Qed.

(** ** Copies of [Headers] *)

Lemma has_lower (h : Headers.t) (n : string) :
  Headers.has h (JS.toLowerCase n) = Headers.has h n.
Proof. unfold Headers.has, Headers.named. now rewrite toLowerCase_idem. Qed.

Lemma values_lower (h : Headers.t) (n : string) :
  Headers.values h (JS.toLowerCase n) = Headers.values h n.
Proof. apply values_same_name, toLowerCase_idem. Qed.

Lemma get_entries (h : Headers.t) (n : string) :
  Headers.get (Headers.entries h) n = Headers.get h n.
Proof.
  unfold Headers.get at 1. unfold Headers.values.
  rewrite (filter_ext_in (Headers.named n) (fun e => fst e =? JS.toLowerCase n)).
  2:{ intros e He. unfold Headers.named.
      pose proof (entries_keys_lower h) as Hlow. rewrite Forall_forall in Hlow.
      now rewrite (Hlow e He). }
  rewrite (entries_filter h _ (toLowerCase_idem n)), has_lower.
  destruct (Headers.has h n) eqn:Hhas.
  - unfold Headers.entries_of.
    destruct (JS.toLowerCase n =? "set-cookie").
    + rewrite map_map. simpl. rewrite map_id, values_lower. reflexivity.
    + rewrite get_lower. unfold Headers.get.
      pose proof (has_true_values _ _ Hhas) as Hv.
      destruct (Headers.values h n); [contradiction | reflexivity].
  - unfold Headers.get. now rewrite (has_false_values _ _ Hhas).
Qed.

(** [new Headers(h)] reads like [h] under every name. *)
Lemma get_copy (h : Headers.t) (n : string) :
  Headers.get (Headers.copy h) n = Headers.get h n.
Proof. unfold Headers.copy. rewrite of_entries_id. apply get_entries. Qed.

(** ** Assigning to [c.res] *)

Lemma entries_In (h : Headers.t) (e : string * string) :
  In e (Headers.entries h) ->
  JS.toLowerCase (fst e) = fst e /\
  Headers.has h (fst e) = true /\
  (fst e <> "set-cookie" -> Headers.get h (fst e) = Some (snd e)).
Proof.
  intros He. unfold Headers.entries in He.
  apply in_flat_map in He as [n [Hn He]].
  pose proof (entries_of_key h n e He) as Hk. subst n.
  pose proof (names_lower h _ Hn) as Hlow.
  split; [exact Hlow|]. split.
  - rewrite <- (names_has h _ Hlow). now apply existsb_eqb_In.
  - intros Hsc. apply String.eqb_neq in Hsc.
    unfold Headers.entries_of in He. rewrite Hsc in He.
    destruct (Headers.get h (fst e)) as [v|]; [|destruct He].
    destruct He as [<- | []]. reflexivity.
Qed.

Lemma existsb_filter {A : Type} (f : A -> bool) (l : list A) :
  existsb f l = match filter f l with [] => false | _ => true end.
Proof.
  induction l as [|x l IH]; simpl; [reflexivity|].
  destruct (f x); simpl; [reflexivity | exact IH].
Qed.

Lemma entries_has (h : Headers.t) (n : string) :
  existsb (fun e => fst e =? JS.toLowerCase n) (Headers.entries h) = Headers.has h n.
Proof.
  rewrite existsb_filter, (entries_filter h _ (toLowerCase_idem n)), has_lower.
  destruct (Headers.has h n) eqn:Hhas; [|reflexivity].
  rewrite <- has_lower in Hhas. apply has_true_values in Hhas.
  unfold Headers.entries_of, Headers.get.
  destruct (Headers.values h (JS.toLowerCase n)) as [|v vs]; [contradiction|].
  now destruct (JS.toLowerCase n =? "set-cookie").
Qed.

Lemma set_res_step_get (held h : Headers.t) (e : string * string) (n : string) :
  JS.toLowerCase (fst e) = fst e ->
  (fst e <> "set-cookie" -> Headers.get held (fst e) = Some (snd e)) ->
  Headers.get (set_res_step held h e) n =
  if (fst e =? JS.toLowerCase n) && negb (JS.toLowerCase n =? "content-type")
  then Headers.get held n else Headers.get h n.
Proof.
  destruct e as [k v]. cbn [fst snd]. intros Hlow Hval. unfold set_res_step.
  destruct (String.eqb_spec k "content-type") as [-> | Hct].
  { destruct (String.eqb_spec "content-type" (JS.toLowerCase n)) as [<- | _];
      reflexivity. }
  destruct (String.eqb_spec k "set-cookie") as [-> | Hsc].
  { unfold Headers.get. rewrite values_append_chain.
    change (JS.toLowerCase "set-cookie") with "set-cookie".
    destruct (String.eqb_spec "set-cookie" (JS.toLowerCase n)) as [E | E].
    - rewrite <- E. cbn [String.eqb Ascii.eqb Bool.eqb negb andb].
      rewrite (values_same_name _ n "set-cookie") by (now rewrite <- E).
      rewrite values_delete_same. cbn [app].
      now rewrite (values_same_name held n "set-cookie") by (now rewrite <- E).
    - cbn [andb]. rewrite app_nil_r.
      now rewrite values_delete_other by (intros E'; apply E; now rewrite E'). }
  rewrite get_set, Hlow, (String.eqb_sym (JS.toLowerCase n) k).
  destruct (String.eqb_spec k (JS.toLowerCase n)) as [E | E]; [|reflexivity].
  assert (Hn : (JS.toLowerCase n =? "content-type") = false)
    by (apply String.eqb_neq; congruence).
  rewrite Hn. cbn [negb andb].
  now rewrite <- (get_lower held n), <- E, (Hval Hsc).
Qed.

Lemma set_res_fold_get (held : Headers.t) (n : string) : forall es h,
  (forall e, In e es ->
     JS.toLowerCase (fst e) = fst e /\
     (fst e <> "set-cookie" -> Headers.get held (fst e) = Some (snd e))) ->
  Headers.get (fold_left (set_res_step held) es h) n =
  if existsb (fun e => fst e =? JS.toLowerCase n) es &&
     negb (JS.toLowerCase n =? "content-type")
  then Headers.get held n else Headers.get h n.
Proof.
  induction es as [|e es IH]; intros h Hes; [reflexivity|].
  cbn [fold_left existsb].
  rewrite IH by (intros x Hx; apply Hes; now right).
  destruct (Hes e (or_introl eq_refl)) as [Hlow Hval].
  rewrite (set_res_step_get held h e n Hlow Hval).
  destruct (fst e =? JS.toLowerCase n);
    destruct (existsb _ es); destruct (negb _); reflexivity.
Qed.

(** The headers [c.res] has after an assignment: every header the
    response held before carries, [content-type] apart, has the value
    it had there; the others are those of the response assigned. *)
Lemma get_set_res (held res : Response) (name : string) :
  Headers.get (res_headers (set_res held res)) name =
  if Headers.has (res_headers held) name &&
     negb (JS.toLowerCase name =? "content-type")
  then Headers.get (res_headers held) name
  else Headers.get (res_headers res) name.
Proof.
  unfold set_res. cbn [res_headers].
  rewrite set_res_fold_get.
  - now rewrite entries_has, get_copy.
  - intros e He. destruct (entries_In _ _ He) as (Hlow & _ & Hval). now split.
Qed.

(** ** The cache middleware, branch by branch *)

Lemma middleware_hit (cfg : Config) (c : HonoRequest) (now : Z)
    (next : option Response) (st : AppState) (lru : LRUCache.t) (e : CacheEntry) :
  cacheable_request cfg c ->
  cache st = Some lru ->
  fst (LRUCache.get lru (cacheKey c) now) = Some e ->
  staticCacheMiddleware cfg c now next st
  = Return (Some (hit_response cfg (cacheKey c) e), looked_up st lru c now).
Proof.
  intros (Hoff & Hget & Hpath) Hc Hhit. apply String.eqb_neq in Hoff.
  unfold staticCacheMiddleware, looked_up.
  rewrite Hoff, Hpath, Hget, Hc. simpl.
  destruct (LRUCache.get lru (cacheKey c) now) as [cached lru1].
  simpl in *. now rewrite Hhit.
Qed.

Lemma middleware_miss (cfg : Config) (c : HonoRequest) (now : Z)
    (next : option Response) (st : AppState) (lru : LRUCache.t) :
  cacheable_request cfg c ->
  cache st = Some lru ->
  fst (LRUCache.get lru (cacheKey c) now) = None ->
  staticCacheMiddleware cfg c now next st =
  match next with
  | None => Return (None, looked_up st lru c now)
  | Some res =>
      if (res_status res =? 200)%Z then
        if policy_accepts cfg c res then
          Return (Some (set_res res
                          (miss_response cfg (cacheKey c) (cache_control_of res) res)),
                  stored st lru c res now)
        else
          Return (Some (set_res res
                          (bypass_response cfg (req_path c) (content_type_of res) res)),
                  looked_up st lru c now)
      else Return (Some res, looked_up st lru c now)
  end.
Proof.
  intros (Hoff & Hget & Hpath) Hc Hmiss. apply String.eqb_neq in Hoff.
  unfold staticCacheMiddleware, stored, looked_up, policy_accepts,
    cache_control_of, content_type_of.
  rewrite Hoff, Hpath, Hget, Hc. simpl.
  destruct (LRUCache.get lru (cacheKey c) now) as [cached lru1].
  simpl in *. now rewrite Hmiss.
Qed.

Lemma get_ttl (lru : LRUCache.t) (k : string) (now : Z) :
  LRUCache.ttl (snd (LRUCache.get lru k now)) = LRUCache.ttl lru.
Proof.
  unfold LRUCache.get. destruct (LRUCache.find lru k); [|reflexivity].
  now destruct (LRUCache.isStale lru now i).
Qed.

Lemma find_remove (k : string) (l : list LRUCache.item) :
  List.find (fun i => LRUCache.key i =? k) (LRUCache.remove k l) = None.
Proof.
  induction l as [|i l IH]; simpl; [reflexivity|].
  destruct (LRUCache.key i =? k) eqn:E; simpl; [exact IH | now rewrite E].
Qed.

Lemma get_head_stale (max : nat) (ttl : Z) (fresh : LRUCache.item)
    (l : list LRUCache.item) (later : Z) :
  LRUCache.isStale {| LRUCache.max := max; LRUCache.ttl := ttl; LRUCache.items := fresh :: l |}
    later fresh = true ->
  fst (LRUCache.get {| LRUCache.max := max; LRUCache.ttl := ttl; LRUCache.items := fresh :: l |}
         (LRUCache.key fresh) later) = None /\
  LRUCache.find
    (snd (LRUCache.get {| LRUCache.max := max; LRUCache.ttl := ttl; LRUCache.items := fresh :: l |}
            (LRUCache.key fresh) later)) (LRUCache.key fresh) = None.
Proof.
  intros Hstale. unfold LRUCache.get, LRUCache.find. simpl.
  rewrite String.eqb_refl, Hstale. simpl.
  split; [reflexivity | apply find_remove].
Qed.

Lemma get_stale_after_set (c : LRUCache.t) (k : string) (v : CacheEntry) (now later : Z) :
  LRUCache.isStale c later
    {| LRUCache.key := k; LRUCache.value := v; LRUCache.start := now |} = true ->
  fst (LRUCache.get (LRUCache.set c k v now) k later) = None /\
  LRUCache.find (snd (LRUCache.get (LRUCache.set c k v now) k later)) k = None.
Proof.
  intros Hstale. unfold LRUCache.set.
  destruct (LRUCache.find c k); unfold LRUCache.with_items;
    apply (get_head_stale _ _
             {| LRUCache.key := k; LRUCache.value := v; LRUCache.start := now |});
    exact Hstale.
Qed.

(** A key that is not in the store is not in it after a lookup or a
    store under another key, and looking it up misses at any time. *)
Lemma find_none_Forall (c : LRUCache.t) (k : string) :
  LRUCache.find c k = None <->
  Forall (fun i => LRUCache.key i <> k) (LRUCache.items c).
Proof.
  unfold LRUCache.find. rewrite Forall_forall. split.
  - intros H i Hi E. apply (find_none _ _ H) in Hi.
    apply String.eqb_neq in Hi. contradiction.
  - intros H. destruct (List.find _ _) as [i|] eqn:E; [|reflexivity].
    apply find_some in E as [Hi Hk]. apply String.eqb_eq in Hk.
    now apply H in Hi.
Qed.

Lemma other_key_misses (c : LRUCache.t) (k k' : string) (v : CacheEntry)
    (now later : Z) :
  k' <> k ->
  LRUCache.find c k' = None ->
  fst (LRUCache.get (LRUCache.set (snd (LRUCache.get c k now)) k v now) k' later)
  = None.
Proof.
  intros Hne Hnone. apply find_none_Forall in Hnone.
  assert (H : LRUCache.find
                (LRUCache.set (snd (LRUCache.get c k now)) k v now) k' = None).
  { apply find_none_Forall, set_Forall; [now apply get_Forall|].
    simpl. congruence. }
  generalize dependent (LRUCache.set (snd (LRUCache.get c k now)) k v now).
  intros l H. unfold LRUCache.get. now rewrite H.
Qed.

(** After a store, a lookup under the same URL finds the entry while
    it is fresh. *)
Lemma lookup_after_store (cfg : Config) (c c' : HonoRequest) (now later : Z)
    (res : Response) (next' : option Response) (st : AppState) (lru : LRUCache.t) :
  cacheable_request cfg c' ->
  req_url c' = req_url c ->
  LRUCache.ttl lru = 0%Z \/ (later - now <= LRUCache.ttl lru)%Z ->
  exists st2,
    staticCacheMiddleware cfg c' later next' (stored st lru c res now)
    = Return (Some (hit_response cfg (cacheKey c) (capture res now)), st2).
Proof.
  intros Hc' Hurl Hfresh.
  assert (Hkey : cacheKey c' = cacheKey c) by (unfold cacheKey; now rewrite Hurl).
  eexists. rewrite <- Hkey.
  apply (middleware_hit cfg c' later next'); [exact Hc' | reflexivity|].
  rewrite Hkey. apply get_after_set.
  unfold LRUCache.isStale. simpl. rewrite get_ttl.
  destruct Hfresh as [-> | Hle]; [reflexivity|].
  apply andb_false_iff. right. rewrite Z.gtb_ltb. now apply Z.ltb_ge.
Qed.

(** C9, amended: the cache key is ['cache:'] followed by the request's
    full URL as [c.req.url] gives it, so that two requests have the same
    key exactly when that URL is the same, whatever their path, query
    and headers say taken alone; and it is by that URL that entries are
    shared: once the answer to a [GET] is stored, the next [GET] with
    the same URL is answered from the store with that entry while it is
    fresh, and a [GET] with another URL that had no entry of its own
    still misses. *)
Theorem cache_entries_keyed_by_url (cfg : Config) (c c' : HonoRequest)
    (now later : Z) (res : Response) (next' : option Response)
    (st : AppState) (lru : LRUCache.t) :
  cacheable_request cfg c ->
  cacheable_request cfg c' ->
  cache st = Some lru ->
  fst (LRUCache.get lru (cacheKey c) now) = None ->
  res_status res = 200%Z ->
  policy_accepts cfg c res = true ->
  JS.startsWith "cache:" (cacheKey c) = true /\
  JS.drop 6 (cacheKey c) = req_url c /\
  (cacheKey c' = cacheKey c <-> req_url c' = req_url c) /\
  exists r st1 lru1,
    staticCacheMiddleware cfg c now (Some res) st = Return (Some r, st1) /\
    cache st1 = Some lru1 /\
    (req_url c' = req_url c ->
     LRUCache.ttl lru = 0%Z \/ (later - now <= LRUCache.ttl lru)%Z ->
     exists st2,
       staticCacheMiddleware cfg c' later next' st1
       = Return (Some (hit_response cfg (cacheKey c) (capture res now)), st2)) /\
    (req_url c' <> req_url c ->
     LRUCache.find lru (cacheKey c') = None ->
     fst (LRUCache.get lru1 (cacheKey c') later) = None).
Proof.
  intros Hc Hc' Hcache Hmiss H200 Hpol.
  split; [reflexivity|]. split; [reflexivity|].
  split; [split; [apply cacheKey_inj | intros E; unfold cacheKey; now rewrite E]|].
  rewrite (middleware_miss cfg c now (Some res) st lru Hc Hcache Hmiss).
  apply Z.eqb_eq in H200. rewrite H200, Hpol.
  eexists. eexists. eexists. split; [reflexivity|]. split; [reflexivity|]. split.
  - intros Hurl Hfresh. now apply lookup_after_store.
  - intros Hurl Hnone. apply other_key_misses; [|exact Hnone].
    intros E. apply Hurl. now apply cacheKey_inj.
Qed.

(** X10: Expiry: when the answer to a [GET] has been stored and the
    next [GET] of the same URL comes more than the store's [ttl] later
    ([ttl] not 0), it is not answered from the store: the lookup drops
    the entry and the request goes to the handler downstream. *)
Theorem stored_then_expired (cfg : Config) (c : HonoRequest) (now later : Z)
    (res : Response) (st : AppState) (lru : LRUCache.t) :
  cacheable_request cfg c ->
  cache st = Some lru ->
  fst (LRUCache.get lru (cacheKey c) now) = None ->
  res_status res = 200%Z ->
  policy_accepts cfg c res = true ->
  LRUCache.ttl lru <> 0%Z ->
  (later - now > LRUCache.ttl lru)%Z ->
  exists r st1 lru1,
    staticCacheMiddleware cfg c now (Some res) st = Return (Some r, st1) /\
    cache st1 = Some lru1 /\
    fst (LRUCache.get lru1 (cacheKey c) later) = None /\
    LRUCache.find (snd (LRUCache.get lru1 (cacheKey c) later)) (cacheKey c) = None /\
    staticCacheMiddleware cfg c later None st1
    = Return (None, looked_up st1 lru1 c later).
Proof.
  intros Hc Hcache Hmiss H200 Hpol Httl Hlate.
  rewrite (middleware_miss cfg c now (Some res) st lru Hc Hcache Hmiss).
  apply Z.eqb_eq in H200. rewrite H200, Hpol.
  assert (Hstale : LRUCache.isStale (snd (LRUCache.get lru (cacheKey c) now)) later
            {| LRUCache.key := cacheKey c; LRUCache.value := capture res now;
               LRUCache.start := now |} = true).
  { unfold LRUCache.isStale. simpl. rewrite get_ttl.
    apply andb_true_iff. split.
    - apply negb_true_iff, Z.eqb_neq. exact Httl.
    - rewrite Z.gtb_ltb. apply Z.ltb_lt. lia. }
  destruct (get_stale_after_set _ _ (capture res now) _ _ Hstale) as [Hnone Hgone].
  eexists. eexists. eexists. split; [reflexivity|]. split; [reflexivity|].
  split; [exact Hnone|]. split; [exact Hgone|].
  now rewrite (middleware_miss cfg c later None (stored st lru c res now)
                 (LRUCache.set (snd (LRUCache.get lru (cacheKey c) now))
                               (cacheKey c) (capture res now) now)
                 Hc eq_refl Hnone).
Qed.

Ltac by_name name :=
  repeat match goal with
    | |- context [JS.toLowerCase name =? ?s] =>
        destruct (String.eqb_spec (JS.toLowerCase name) s) as [-> | _]
    end;
  try reflexivity.

Lemma get_has_none (h : Headers.t) (n : string) :
  Headers.has h n = false -> Headers.get h n = None.
Proof. intros H. unfold Headers.get. now rewrite has_false_values. Qed.

(** X11: Bypass: when a [GET] misses the store and its answer has status
    200 but the policy refuses it, nothing is written to the store and
    [c.res] is left with the same status and body and with every header
    the answer carried at the value it had: also its [Cache-Control]
    (a [private] stays [private]) and any [X-Cache] header of its own.
    Only where the answer had no such header does the middleware's show:
    [X-Cache: BYPASS], the strategy, a no-store [Cache-Control], and an
    [X-Cache-Reason] that is [non-static] when static-only refused the
    resource and [cache-control-forbidden] in every other case, never
    [disabled]. *)
Theorem bypass_answer (cfg : Config) (c : HonoRequest) (now : Z) (res : Response)
    (st : AppState) (lru : LRUCache.t) :
  cacheable_request cfg c ->
  cache st = Some lru ->
  fst (LRUCache.get lru (cacheKey c) now) = None ->
  res_status res = 200%Z ->
  policy_accepts cfg c res = false ->
  exists r,
    staticCacheMiddleware cfg c now (Some res) st
    = Return (Some r, looked_up st lru c now) /\
    res_status r = 200%Z /\
    res_statusText r = res_statusText res /\
    res_body r = res_body res /\
    forall name,
      Headers.get (res_headers r) name =
      if Headers.has (res_headers res) name then Headers.get (res_headers res) name
      else if JS.toLowerCase name =? "x-cache" then Some "BYPASS"
      else if JS.toLowerCase name =? "x-cache-strategy" then Some (CACHE_STRATEGY cfg)
      else if JS.toLowerCase name =? "x-cache-reason" then
        Some (if CACHE_STATIC_ONLY cfg &&
                 negb (isStaticResource (Some (req_path c)) (Some (content_type_of res)))
              then "non-static" else "cache-control-forbidden")
      else if JS.toLowerCase name =? "cache-control"
      then Some "no-cache, no-store, must-revalidate"
      else None.
Proof.
  intros Hc Hcache Hmiss H200 Hpol.
  rewrite (middleware_miss cfg c now (Some res) st lru Hc Hcache Hmiss).
  rewrite H200, Hpol. change (200 =? 200)%Z with true. cbv iota.
  eexists. split; [reflexivity|].
  destruct Hc as (Hoff & _ & _). apply String.eqb_neq in Hoff.
  split; [exact H200|]. split; [reflexivity|]. split; [reflexivity|].
  intros name. rewrite get_set_res.
  unfold bypass_response. cbn [res_headers]. rewrite Hoff, !get_set, get_copy.
  change (JS.toLowerCase "Cache-Control") with "cache-control".
  change (JS.toLowerCase "X-Cache-Reason") with "x-cache-reason".
  change (JS.toLowerCase "X-Cache-Strategy") with "x-cache-strategy".
  change (JS.toLowerCase "X-Cache") with "x-cache".
  destruct (Headers.has (res_headers res) name) eqn:Hhas; cbn [andb].
  - destruct (String.eqb_spec (JS.toLowerCase name) "content-type") as [E | _];
      [|reflexivity].
    cbn [negb]. rewrite E. reflexivity.
  - rewrite (get_has_none _ _ Hhas). by_name name.
Qed.

(** X12: Stored: when the policy accepts the answer to a missed [GET],
    [c.res] is left with the same status and body and with every header
    the answer carried at the value it had, its [Cache-Control]
    included, under ['force'] as well; where the answer had no such
    header the middleware's show: [X-Cache: MISS (Cached)], the cache
    key, the strategy and [Cache-Control: public, max-age=<CACHE_TTL>]. *)
Theorem miss_answer (cfg : Config) (c : HonoRequest) (now : Z) (res : Response)
    (st : AppState) (lru : LRUCache.t) :
  cacheable_request cfg c ->
  cache st = Some lru ->
  fst (LRUCache.get lru (cacheKey c) now) = None ->
  res_status res = 200%Z ->
  policy_accepts cfg c res = true ->
  exists r st1,
    staticCacheMiddleware cfg c now (Some res) st = Return (Some r, st1) /\
    res_status r = 200%Z /\
    res_statusText r = res_statusText res /\
    res_body r = res_body res /\
    forall name,
      Headers.get (res_headers r) name =
      if Headers.has (res_headers res) name then Headers.get (res_headers res) name
      else if JS.toLowerCase name =? "x-cache" then Some "MISS (Cached)"
      else if JS.toLowerCase name =? "x-cache-key" then Some ("cache:" ++ req_url c)
      else if JS.toLowerCase name =? "x-cache-strategy" then Some (CACHE_STRATEGY cfg)
      else if JS.toLowerCase name =? "cache-control" then Some (max_age cfg)
      else None.
Proof.
  intros Hc Hcache Hmiss H200 Hpol.
  rewrite (middleware_miss cfg c now (Some res) st lru Hc Hcache Hmiss).
  rewrite H200, Hpol. change (200 =? 200)%Z with true. cbv iota.
  eexists. eexists. split; [reflexivity|].
  split; [exact H200|]. split; [reflexivity|]. split; [reflexivity|].
  assert (Hstrat : CACHE_STRATEGY cfg = "force" \/ CACHE_STRATEGY cfg = "auto").
  { unfold policy_accepts, shouldCacheResponse in Hpol.
    destruct (CACHE_STRATEGY cfg =? "off"); [discriminate|].
    destruct (_ && _); [discriminate|].
    destruct (CACHE_STRATEGY cfg =? "force") eqn:Ef;
      [left; now apply String.eqb_eq|].
    destruct (CACHE_STRATEGY cfg =? "auto") eqn:Ea;
      [right; now apply String.eqb_eq | discriminate]. }
  intros name. rewrite get_set_res.
  destruct (Headers.has (res_headers res) name) eqn:Hhas; cbn [andb].
  - destruct (String.eqb_spec (JS.toLowerCase name) "content-type") as [E | _];
      [|reflexivity].
    cbn [negb]. unfold miss_response. cbn [res_headers].
    assert (Hkeep : forall h : Headers.t,
              Headers.get (Headers.set h "Cache-Control" (max_age cfg)) name
              = Headers.get h name).
    { intros h. rewrite get_set, E. reflexivity. }
    destruct (CACHE_STRATEGY cfg =? "force");
      [|destruct (CACHE_STRATEGY cfg =? "auto");
        [destruct (negb (JS.truthy (Some (cache_control_of res))))|]];
      rewrite ?Hkeep, !get_set, E; cbn [String.eqb Ascii.eqb Bool.eqb];
      apply get_copy.
  - assert (Hcc : JS.toLowerCase name = "cache-control" ->
                  cache_control_of res = "").
    { intros E. unfold cache_control_of.
      rewrite <- (get_lower _ "cache-control").
      change (JS.toLowerCase "cache-control") with "cache-control".
      rewrite <- E, get_lower, (get_has_none _ _ Hhas). reflexivity. }
    unfold miss_response. cbn [res_headers].
    destruct Hstrat as [Hs | Hs]; rewrite Hs;
      change ("force" =? "force") with true; change ("auto" =? "force") with false;
      change ("auto" =? "auto") with true; cbv iota.
    + rewrite !get_set, get_copy, (get_has_none _ _ Hhas).
      change (JS.toLowerCase "Cache-Control") with "cache-control".
      change (JS.toLowerCase "X-Cache-Key") with "x-cache-key".
      change (JS.toLowerCase "X-Cache-Strategy") with "x-cache-strategy".
      change (JS.toLowerCase "X-Cache") with "x-cache".
      by_name name.
    + destruct (String.eqb_spec (JS.toLowerCase name) "cache-control") as [E | E].
      * rewrite (Hcc E). cbn [JS.truthy String.eqb negb].
        rewrite !get_set, E. reflexivity.
      * assert (Hother : forall h : Headers.t,
                  Headers.get (Headers.set h "Cache-Control" (max_age cfg)) name
                  = Headers.get h name).
        { intros h. rewrite get_set.
          change (JS.toLowerCase "Cache-Control") with "cache-control".
          apply String.eqb_neq in E. now rewrite E. }
        destruct (negb (JS.truthy (Some (cache_control_of res))));
          rewrite ?Hother, !get_set, get_copy, (get_has_none _ _ Hhas);
          change (JS.toLowerCase "X-Cache-Key") with "x-cache-key";
          change (JS.toLowerCase "X-Cache-Strategy") with "x-cache-strategy";
          change (JS.toLowerCase "X-Cache") with "x-cache";
          by_name name.
Qed.

Lemma logo_cacheable : cacheable_request auto_config logo_request.
Proof. split; [discriminate | split; reflexivity]. Qed.

Lemma html_cacheable : cacheable_request auto_config html_request.
Proof. split; [discriminate | split; reflexivity]. Qed.

Lemma other_host_cacheable : cacheable_request auto_config other_host_request.
Proof. split; [discriminate | split; reflexivity]. Qed.

Lemma cache_entries_keyed_by_url_witness :
  req_path other_host_request = req_path logo_request /\
  exists r st1 lru1,
    staticCacheMiddleware auto_config logo_request 1000 (Some png_response)
      (initial_state auto_config) = Return (Some r, st1) /\
    cache st1 = Some lru1 /\
    (exists st2,
       staticCacheMiddleware auto_config logo_request 2000 None st1
       = Return (Some (hit_response auto_config (cacheKey logo_request)
                         (capture png_response 1000)), st2)) /\
    fst (LRUCache.get lru1 (cacheKey other_host_request) 2000) = None.
Proof.
  split; [reflexivity|].
  destruct (cache_entries_keyed_by_url auto_config logo_request logo_request
              1000 2000 png_response None (initial_state auto_config) fresh_store
              logo_cacheable logo_cacheable eq_refl eq_refl eq_refl eq_refl)
    as (_ & _ & _ & r & st1 & lru1 & Hrun & Hst & Hsame & _).
  destruct (cache_entries_keyed_by_url auto_config logo_request other_host_request
              1000 2000 png_response None (initial_state auto_config) fresh_store
              logo_cacheable other_host_cacheable eq_refl eq_refl eq_refl eq_refl)
    as (_ & _ & _ & r' & st1' & lru1' & Hrun' & Hst' & _ & Hother).
  rewrite Hrun in Hrun'. injection Hrun' as _ <-.
  rewrite Hst in Hst'. injection Hst' as <-.
  exists r, st1, lru1. split; [exact Hrun|]. split; [exact Hst|]. split.
  - apply Hsame; [reflexivity | right; simpl; lia].
  - apply Hother; [discriminate | reflexivity].
Defined.

Lemma stored_then_expired_witness :
  exists r st1 lru1,
    staticCacheMiddleware auto_config logo_request 1000 (Some png_response)
      (initial_state auto_config) = Return (Some r, st1) /\
    cache st1 = Some lru1 /\
    fst (LRUCache.get lru1 (cacheKey logo_request) 400000) = None.
Proof.
  destruct (stored_then_expired auto_config logo_request 1000 400000
              png_response (initial_state auto_config) fresh_store logo_cacheable)
    as (r & st1 & lru1 & Hrun & Hst & Hnone & _); try reflexivity.
  - simpl. discriminate.
  - exists r, st1, lru1. split; [exact Hrun|]. split; [exact Hst | exact Hnone].
Defined.

Lemma bypass_answer_witness :
  exists r,
    staticCacheMiddleware auto_config html_request 1000 (Some private_response)
      (initial_state auto_config)
    = Return (Some r, looked_up (initial_state auto_config) fresh_store html_request 1000) /\
    Headers.get (res_headers r) "X-Cache-Reason" = Some "cache-control-forbidden" /\
    Headers.get (res_headers r) "Cache-Control" = Some "private".
Proof.
  destruct (bypass_answer auto_config html_request 1000 private_response
              (initial_state auto_config) fresh_store html_cacheable)
    as (r & Hrun & _ & _ & _ & Hget); try reflexivity.
  exists r. split; [exact Hrun|].
  split; rewrite Hget; reflexivity.
Defined.

Lemma miss_answer_witness :
  exists r st1,
    staticCacheMiddleware auto_config logo_request 1000 (Some png_response)
      (initial_state auto_config)
    = Return (Some r, st1) /\
    Headers.get (res_headers r) "Cache-Control" = Some "public, max-age=300" /\
    Headers.get (res_headers r) "ETag" = Some "abc".
Proof.
  destruct (miss_answer auto_config logo_request 1000 png_response
              (initial_state auto_config) fresh_store logo_cacheable)
    as (r & st1 & Hrun & _ & _ & _ & Hget); try reflexivity.
  exists r, st1. split; [exact Hrun|].
  split; rewrite Hget; reflexivity.
Defined.
(** ** Clearing, then looking up *)

(** X13: After a served [GET /cache/clear] the store is empty and every
    lookup misses, whatever was stored before; clearing again answers
    the same and leaves the store empty. *)
Theorem clear_then_miss (proxyGET proxyALL : HonoRequest -> Z -> Response)
    (cfg : Config) (c : HonoRequest) (now : Z) (st : AppState) (lru : LRUCache.t) :
  CACHE_STRATEGY cfg <> "off" ->
  req_method c = "GET" ->
  req_path c = "/cache/clear" ->
  cache st = Some lru ->
  exists st1 lru1,
    app_fetch proxyGET proxyALL cfg c now st = Return (Some (c_json cleared 200), st1) /\
    cache st1 = Some lru1 /\
    LRUCache.size lru1 = 0%nat /\
    (forall k t, fst (LRUCache.get lru1 k t) = None) /\
    (forall later, exists st2 lru2,
       app_fetch proxyGET proxyALL cfg c later st1
       = Return (Some (c_json cleared 200), st2) /\
       cache st2 = Some lru2 /\ LRUCache.size lru2 = 0%nat).
Proof.
  intros Hoff Hget Hpath Hcache. apply String.eqb_neq in Hoff.
  assert (Hrun : forall t s l, cache s = Some l ->
            app_fetch proxyGET proxyALL cfg c t s
            = Return (Some (c_json cleared 200), used s (LRUCache.clear l) OpClear)).
  { intros t s l Hs. unfold app_fetch, cache_clear. rewrite Hget, Hpath. simpl.
    now rewrite Hoff, Hs. }
  exists (used st (LRUCache.clear lru) OpClear), (LRUCache.clear lru).
  split; [now apply Hrun|]. split; [reflexivity|]. split; [reflexivity|].
  split; [reflexivity|].
  intros later. eexists. eexists.
  split; [apply Hrun; reflexivity|]. split; reflexivity.
Qed.

Lemma clear_then_miss_witness :
  exists st1 lru1,
    app_fetch png_origin png_origin auto_config (clear_request "x") 2000 warm_state
    = Return (Some (c_json cleared 200), st1) /\
    cache st1 = Some lru1 /\
    LRUCache.size lru1 = 0%nat /\
    fst (LRUCache.get lru1 (cacheKey logo_request) 2001) = None.
Proof.
  destruct (clear_then_miss png_origin png_origin auto_config (clear_request "x")
              2000 warm_state
              (match cache warm_state with Some l => l | None => fresh_store end))
    as (st1 & lru1 & Hrun & Hc & Hsize & Hmiss & _);
    [discriminate | reflexivity | reflexivity | reflexivity |].
  exists st1, lru1. repeat split; try assumption. apply Hmiss.
Defined.

(** ** The proxy handlers *)

Section ProxyProperties.

Variable URL_parse : string -> option URL.
Variable URL_href : string -> option string.
Variable originPool_request : PoolRequest -> Z -> OriginReply.
Variable request_body : HonoRequest -> option (list Byte.byte).

Local Abbreviation proxyGET := (proxyGET_handler URL_parse URL_href originPool_request).
Local Abbreviation proxyALL :=
  (proxyALL_handler URL_parse URL_href originPool_request request_body).

Lemma gateway_error_status (error : JSError) :
  gateway_error error =
  if timed_out error then HTTPException 504 "Gateway Timeout"
  else HTTPException 502 "Bad Gateway".
Proof. reflexivity. Qed.

(** X14: A failure of the origin is answered 504 [{error: "Gateway Timeout"}]
    when its code is [UND_ERR_SOCKET_TIMEOUT] or its message holds
    [timeout], and 502 [{error: "Bad Gateway"}] otherwise, by both
    handlers. *)
Theorem origin_failure_answers (cfg : Config) (c : HonoRequest) (now : Z)
    (error : JSError) :
  (originPool_request (get_pool_request cfg c) now = Failed error ->
   proxyGET cfg c now =
   if timed_out error then HTTPException 504 "Gateway Timeout"
   else HTTPException 502 "Bad Gateway") /\
  (originPool_request (all_pool_request request_body cfg c) now = Failed error ->
   proxyALL cfg c now =
   if timed_out error then HTTPException 504 "Gateway Timeout"
   else HTTPException 502 "Bad Gateway").
Proof.
  split; intros H.
  - unfold proxyGET_handler, proxyGET_try. now rewrite H.
  - unfold proxyALL_handler, proxyALL_try. now rewrite H.
Qed.

Lemma redirect_branch_none (cfg : Config) (c : HonoRequest) (response : OriginResponse) :
  has_location response = false ->
  redirect_branch URL_parse URL_href cfg c response = None.
Proof.
  unfold has_location, redirect_branch. intros H.
  destruct ((300 <=? statusCode response) && (statusCode response <? 400))%Z;
    [|reflexivity].
  simpl in H. now rewrite H.
Qed.

Lemma redirect_branch_location (cfg : Config) (c : HonoRequest)
    (response : OriginResponse) (l : string) :
  has_location response = true ->
  header_property (origin_headers response) "location" = Some (One l) ->
  redirect_branch URL_parse URL_href cfg c response =
  match fixRedirectUrl URL_parse cfg l c with
  | Throw message => Some (Raised (TypeError message))
  | Return (Some fixedLocation) =>
      if JS.truthy (Some fixedLocation)
      then Some (Response_redirect URL_href fixedLocation (statusCode response))
      else None
  | Return None => None
  end.
Proof.
  unfold has_location, redirect_branch. intros H Hl.
  apply andb_true_iff in H as [H3 Ht]. rewrite H3, Ht, Hl. reflexivity.
Qed.

(** X16: A redirect the handlers rewrite: for a 301, 302, 303, 307 or 308
    reply whose [location] is fixed to a URL that parses, the answer has
    the origin's status, an empty body and the [location] header alone,
    the serialised fixed URL: no other header of the reply (a
    [set-cookie] for instance) goes out with a redirect. *)
Theorem redirect_answer (cfg : Config) (c : HonoRequest) (now : Z)
    (response : OriginResponse) (l fixedLocation href : string) :
  has_location response = true ->
  header_property (origin_headers response) "location" = Some (One l) ->
  fixRedirectUrl URL_parse cfg l c = Return (Some fixedLocation) ->
  fixedLocation <> "" ->
  URL_href fixedLocation = Some href ->
  redirect_status (statusCode response) = true ->
  originPool_request (get_pool_request cfg c) now = Replied response ->
  res_status (proxyGET cfg c now) = statusCode response /\
  res_body (proxyGET cfg c now) = [] /\
  forall name,
    Headers.get (res_headers (proxyGET cfg c now)) name =
    if JS.toLowerCase name =? "location" then Some href else None.
Proof.
  intros Hloc Hl Hfix Hne Hhref Hst Hreply.
  unfold proxyGET_handler, proxyGET_try.
  rewrite Hreply, (redirect_branch_location cfg c response l Hloc Hl), Hfix.
  apply String.eqb_neq in Hne. unfold JS.truthy. rewrite Hne. cbn [negb].
  unfold Response_redirect. rewrite Hhref, Hst.
  cbn [res_status res_body res_headers].
  split; [reflexivity|]. split; [reflexivity|].
  intros name. now rewrite get_set.
Qed.

(** The messages of [Response.redirect] hold [timeout] only where the
    location it was given does. *)
Lemma parse_failure_timeout (url : string) :
  timed_out (TypeError ("Failed to parse URL from " ++ url))
  = JS.includes "timeout" url.
Proof. reflexivity. Qed.

Lemma status_failure_timeout (status : Z) :
  (300 <= status < 400)%Z ->
  timed_out (RangeError ("Invalid status code " ++ JSON.string_of_Z status)) = false.
Proof.
  intros Hrange.
  assert (Hall : forallb (fun n => negb (JS.includes "timeout"
                                           (JSON.string_of_Z (Z.of_nat n))))
                         (seq 300 100) = true) by (vm_compute; reflexivity).
  rewrite forallb_forall in Hall.
  specialize (Hall (Z.to_nat status)).
  rewrite Z2Nat.id in Hall by lia.
  change (timed_out (RangeError ("Invalid status code " ++ JSON.string_of_Z status)))
    with (JS.includes "timeout" (JSON.string_of_Z status)).
  apply negb_true_iff, Hall, in_seq. lia.
Qed.

(** X17: A redirect the [GET] handler cannot hand on, for a 3xx reply
    whose location is fixed to a non-empty string.  When that string is
    no URL, [Response.redirect] raises an error that quotes it, and the
    answer is 504 when the string holds [timeout] and 502 otherwise;
    when it is a URL but the status is not one of 301, 302, 303, 307,
    308 (a 300, or a 304 that carries a [location]), the answer is
    502. *)
Theorem odd_redirect_answers (cfg : Config) (c : HonoRequest) (now : Z)
    (response : OriginResponse) (l fixedLocation : string) :
  has_location response = true ->
  header_property (origin_headers response) "location" = Some (One l) ->
  fixRedirectUrl URL_parse cfg l c = Return (Some fixedLocation) ->
  fixedLocation <> "" ->
  originPool_request (get_pool_request cfg c) now = Replied response ->
  (URL_href fixedLocation = None ->
   proxyGET cfg c now =
   if JS.includes "timeout" fixedLocation then HTTPException 504 "Gateway Timeout"
   else HTTPException 502 "Bad Gateway") /\
  (URL_href fixedLocation <> None ->
   redirect_status (statusCode response) = false ->
   proxyGET cfg c now = HTTPException 502 "Bad Gateway").
Proof.
  intros Hloc Hl Hfix Hne Hreply.
  assert (Hrange : (300 <= statusCode response < 400)%Z).
  { unfold has_location in Hloc. apply andb_true_iff in Hloc as [H3 _].
    apply andb_true_iff in H3 as [Hlo Hhi].
    apply Z.leb_le in Hlo. apply Z.ltb_lt in Hhi. lia. }
  unfold proxyGET_handler, proxyGET_try.
  rewrite Hreply, (redirect_branch_location cfg c response l Hloc Hl), Hfix.
  apply String.eqb_neq in Hne. unfold JS.truthy. rewrite Hne. cbn [negb].
  unfold Response_redirect.
  split.
  - intros ->. now rewrite gateway_error_status, parse_failure_timeout.
  - intros Hsome Hbad.
    destruct (URL_href fixedLocation) as [href|]; [|contradiction].
    rewrite Hbad, gateway_error_status.
    now rewrite (status_failure_timeout _ Hrange).
Qed.

Lemma proxyGET_relayed (cfg : Config) (c : HonoRequest) (now : Z)
    (response : OriginResponse) :
  has_location response = false ->
  statusCode response <> 304%Z ->
  originPool_request (get_pool_request cfg c) now = Replied response ->
  proxyGET cfg c now =
  {| res_status := statusCode response;
     res_statusText := "";
     res_headers := get_cache_headers cfg c response (relayed_headers response);
     res_body := origin_body response |}.
Proof.
  intros Hloc H304 Hreply. apply Z.eqb_neq in H304.
  unfold proxyGET_handler, proxyGET_try.
  now rewrite Hreply, (redirect_branch_none cfg c response Hloc), H304.
Qed.

Lemma get_cache_headers_other (cfg : Config) (c : HonoRequest)
    (response : OriginResponse) (h : Headers.t) (name : string) :
  JS.toLowerCase name <> "cache-control" ->
  Headers.get (get_cache_headers cfg c response h) name = Headers.get h name.
Proof.
  intros Hne. unfold get_cache_headers.
  destruct (_ && _); [now apply get_set_other|].
  destruct (CACHE_STRATEGY cfg =? "auto"); [|now apply get_set_other].
  destruct (_ && _); [now apply get_set_other | reflexivity].
Qed.

Lemma get_cache_headers_cache_control (cfg : Config) (c : HonoRequest)
    (response : OriginResponse) :
  Headers.get (get_cache_headers cfg c response (relayed_headers response))
              "Cache-Control" =
  if CACHE_STRATEGY cfg =? "force" then
    if isStaticResource_value (req_path c) (origin_content_type response)
    then Some (max_age cfg) else Some no_store
  else if CACHE_STRATEGY cfg =? "auto" then
    if negb (JS.truthy (Headers.get (relayed_headers response) "cache-control")) &&
       isStaticResource_value (req_path c) (origin_content_type response)
    then Some (max_age cfg)
    else Headers.get (relayed_headers response) "cache-control"
  else Some no_store.
Proof.
  unfold get_cache_headers. fold (origin_content_type response).
  destruct (CACHE_STRATEGY cfg =? "force") eqn:Ef.
  - apply String.eqb_eq in Ef. rewrite Ef.
    change ("force" =? "auto") with false. cbn [andb].
    destruct (isStaticResource_value _ _); apply get_set_same.
  - cbn [andb]. destruct (CACHE_STRATEGY cfg =? "auto"); [|apply get_set_same].
    destruct (_ && _); [apply get_set_same|].
    rewrite <- (get_lower _ "Cache-Control"). reflexivity.
Qed.

(** X19: An ordinary reply (a status in 200..599 that allows a body, no
    redirect to rewrite) is handed on by the [GET] handler with the
    origin's status and body and with an empty status text: the reason
    phrase of the origin is not handed on, because the reply of the
    pool has no [statusMessage].  [content-encoding],
    [transfer-encoding] and [content-length] are gone and every header
    other than [cache-control] is as [processResponseHeaders] left it. *)
Theorem get_reply_relayed (cfg : Config) (c : HonoRequest) (now : Z)
    (response : OriginResponse) :
  has_location response = false ->
  statusCode response <> 304%Z ->
  relayable response = true ->
  originPool_request (get_pool_request cfg c) now = Replied response ->
  res_status (proxyGET cfg c now) = statusCode response /\
  res_statusText (proxyGET cfg c now) = "" /\
  res_body (proxyGET cfg c now) = origin_body response /\
  (forall name, In (JS.toLowerCase name) stripped_response_headers ->
     Headers.get (res_headers (proxyGET cfg c now)) name = None) /\
  (forall name, JS.toLowerCase name <> "cache-control" ->
     Headers.get (res_headers (proxyGET cfg c now)) name
     = Headers.get (relayed_headers response) name).
Proof.
  intros Hloc H304 _ Hreply.
  rewrite (proxyGET_relayed cfg c now response Hloc H304 Hreply).
  cbn [res_status res_statusText res_body res_headers].
  repeat split.
  - intros name Hs. rewrite get_cache_headers_other.
    + apply all_kept_get; [apply processResponseHeaders_kept | exact Hs].
    + intros E. rewrite E in Hs.
      destruct Hs as [H | [H | [H | []]]]; discriminate.
  - intros name Hne. now apply get_cache_headers_other.
Qed.

(** X20: The [Cache-Control] the [GET] handler puts on an ordinary reply:
    under ['force'], [public, max-age=<CACHE_TTL>] for a static resource
    and the no-store value for any other; under ['auto'], the max-age
    value for a static resource whose reply has no cache-control, else
    what the origin sent (or nothing); under any other strategy the
    no-store value. *)
Theorem get_reply_cache_control (cfg : Config) (c : HonoRequest) (now : Z)
    (response : OriginResponse) :
  has_location response = false ->
  statusCode response <> 304%Z ->
  relayable response = true ->
  originPool_request (get_pool_request cfg c) now = Replied response ->
  Headers.get (res_headers (proxyGET cfg c now)) "Cache-Control" =
  if CACHE_STRATEGY cfg =? "force" then
    if isStaticResource_value (req_path c) (origin_content_type response)
    then Some (max_age cfg) else Some no_store
  else if CACHE_STRATEGY cfg =? "auto" then
    if negb (JS.truthy (Headers.get (relayed_headers response) "cache-control")) &&
       isStaticResource_value (req_path c) (origin_content_type response)
    then Some (max_age cfg)
    else Headers.get (relayed_headers response) "cache-control"
  else Some no_store.
Proof.
  intros Hloc H304 _ Hreply.
  rewrite (proxyGET_relayed cfg c now response Hloc H304 Hreply).
  cbn [res_headers]. apply get_cache_headers_cache_control.
Qed.

(** X21: The handler of the other methods hands an ordinary reply on
    with the origin's status and body, an empty status text (the reason
    phrase of the origin is not handed on), and always marked
    [no-cache, no-store, must-revalidate]. *)
Theorem other_methods_reply (cfg : Config) (c : HonoRequest) (now : Z)
    (response : OriginResponse) :
  has_location response = false ->
  statusCode response <> 304%Z ->
  relayable response = true ->
  originPool_request (all_pool_request request_body cfg c) now = Replied response ->
  res_status (proxyALL cfg c now) = statusCode response /\
  res_statusText (proxyALL cfg c now) = "" /\
  res_body (proxyALL cfg c now) = origin_body response /\
  Headers.get (res_headers (proxyALL cfg c now)) "Cache-Control" = Some no_store /\
  (forall name, JS.toLowerCase name <> "cache-control" ->
     Headers.get (res_headers (proxyALL cfg c now)) name
     = Headers.get (relayed_headers response) name).
Proof.
  intros Hloc H304 _ Hreply. apply Z.eqb_neq in H304.
  unfold proxyALL_handler, proxyALL_try.
  rewrite Hreply, (redirect_branch_none cfg c response Hloc), H304.
  cbn [new_Response res_status res_statusText res_body res_headers].
  repeat split; [apply get_set_same|].
  intros name Hne. now apply get_set_other.
Qed.

(** A 304 reply without a location is answered 304 with an empty body
    and the stripped headers, by both handlers. *)
Lemma not_modified_answer (cfg : Config) (c : HonoRequest) (now : Z)
    (response : OriginResponse) :
  statusCode response = 304%Z ->
  has_location response = false ->
  (originPool_request (get_pool_request cfg c) now = Replied response ->
   proxyGET cfg c now =
   {| res_status := 304; res_statusText := "";
      res_headers := relayed_headers response; res_body := [] |}) /\
  (originPool_request (all_pool_request request_body cfg c) now = Replied response ->
   proxyALL cfg c now =
   {| res_status := 304; res_statusText := "";
      res_headers := relayed_headers response; res_body := [] |}).
Proof.
  intros H304 Hloc. split; intros Hreply.
  - unfold proxyGET_handler, proxyGET_try.
    now rewrite Hreply, (redirect_branch_none cfg c response Hloc), H304.
  - unfold proxyALL_handler, proxyALL_try.
    now rewrite Hreply, (redirect_branch_none cfg c response Hloc), H304.
Qed.

Lemma app_fetch_proxied (pGET pALL : HonoRequest -> Z -> Response) (cfg : Config)
    (c : HonoRequest) (now : Z) (st : AppState) :
  req_method c = "GET" ->
  management_path c = false ->
  app_fetch pGET pALL cfg c now st
  = staticCacheMiddleware cfg c now (Some (pGET c now)) st.
Proof.
  intros Hget Hm. unfold app_fetch. rewrite Hget, Hm. simpl.
  unfold management_path in Hm. apply orb_false_iff in Hm as [Hh Hc].
  rewrite Hh.
  destruct (req_path c =? "/cache/info") eqn:E1;
    [apply String.eqb_eq in E1; rewrite E1 in Hc; discriminate|].
  destruct (req_path c =? "/cache/clear") eqn:E2;
    [apply String.eqb_eq in E2; rewrite E2 in Hc; discriminate|].
  destruct (req_path c =? "/cache/stats") eqn:E3;
    [apply String.eqb_eq in E3; rewrite E3 in Hc; discriminate|].
  reflexivity.
Qed.

Lemma get_some_has (h : Headers.t) (n v : string) :
  Headers.get h n = Some v -> Headers.has h n = true.
Proof.
  intros H. destruct (Headers.has h n) eqn:E; [reflexivity|].
  now rewrite (get_has_none _ _ E) in H.
Qed.

(** X22: Handler and middleware together under ['force'] without
    static-only: a 200 reply for a resource that is not static leaves
    the handler marked no-store and is stored all the same.  The
    [public, max-age] that the middleware sets on what it stores does
    not reach the client: the assignment to [c.res] puts the handler's
    [Cache-Control] back, so that the first answer carries
    [no-cache, no-store, must-revalidate], as does the [HIT] that
    answers the next [GET] of the URL while the entry is fresh. *)
Theorem force_miss_then_hit (cfg : Config) (c : HonoRequest) (now later : Z)
    (response : OriginResponse) (st : AppState) (lru : LRUCache.t) :
  CACHE_STRATEGY cfg = "force" ->
  CACHE_STATIC_ONLY cfg = false ->
  req_method c = "GET" ->
  management_path c = false ->
  cache st = Some lru ->
  fst (LRUCache.get lru (cacheKey c) now) = None ->
  originPool_request (get_pool_request cfg c) now = Replied response ->
  statusCode response = 200%Z ->
  isStaticResource_value (req_path c) (origin_content_type response) = false ->
  LRUCache.ttl lru = 0%Z \/ (later - now <= LRUCache.ttl lru)%Z ->
  exists r1 st1 r2 st2,
    mirror_fetch URL_parse URL_href originPool_request request_body cfg c now st
    = Return (Some r1, st1) /\
    res_body r1 = origin_body response /\
    Headers.get (res_headers r1) "Cache-Control" = Some no_store /\
    mirror_fetch URL_parse URL_href originPool_request request_body cfg c later st1
    = Return (Some r2, st2) /\
    Headers.get (res_headers r2) "X-Cache" = Some "HIT" /\
    Headers.get (res_headers r2) "Cache-Control" = Some no_store /\
    res_body r2 = origin_body response.
Proof.
  intros Hforce Hso Hget Hm Hcache Hmiss Hreply H200 Hstatic Hfresh.
  assert (Hloc : has_location response = false)
    by (unfold has_location; now rewrite H200).
  assert (H304 : statusCode response <> 304%Z) by (rewrite H200; discriminate).
  pose proof (proxyGET_relayed cfg c now response Hloc H304 Hreply) as Hres.
  pose proof (get_cache_headers_cache_control cfg c response) as Hcc.
  rewrite Hforce in Hcc. change ("force" =? "force") with true in Hcc.
  cbv iota in Hcc. rewrite Hstatic in Hcc.
  set (res := proxyGET cfg c now) in *.
  assert (Hrescc : Headers.get (res_headers res) "Cache-Control" = Some no_store)
    by (rewrite Hres; exact Hcc).
  assert (Hres200 : (res_status res =? 200)%Z = true)
    by (rewrite Hres; cbn [res_status]; now rewrite H200).
  assert (Hcacheable : cacheable_request cfg c).
  { split; [rewrite Hforce; discriminate|]. split; [exact Hget|].
    unfold management_path in Hm. now apply orb_false_iff in Hm as [_ Hm]. }
  assert (Hpol : policy_accepts cfg c res = true).
  { unfold policy_accepts, shouldCacheResponse. now rewrite Hforce, Hso. }
  destruct (lookup_after_store cfg c c now later res (Some (proxyGET cfg c later))
              st lru Hcacheable eq_refl Hfresh) as [st2 Hrun2].
  exists (set_res res (miss_response cfg (cacheKey c) (cache_control_of res) res)),
         (stored st lru c res now),
         (hit_response cfg (cacheKey c) (capture res now)), st2.
  unfold mirror_fetch. rewrite !(app_fetch_proxied _ _ cfg c _ _ Hget Hm).
  fold res.
  split.
  { rewrite (middleware_miss cfg c now (Some res) st lru Hcacheable Hcache Hmiss).
    now rewrite Hres200, Hpol. }
  split; [cbn [set_res res_body miss_response]; now rewrite Hres|].
  split.
  { rewrite get_set_res, (get_some_has _ _ _ Hrescc). exact Hrescc. }
  split; [exact Hrun2|].
  split; [now rewrite hit_headers|].
  split.
  - rewrite hit_keeps_headers; [exact Hrescc | reflexivity | discriminate].
  - cbn [hit_response res_body capture body]. now rewrite Hres.
Qed.

End ProxyProperties.

(** ** The handlers on a sample origin *)

Example forwarded_request_ex :
  get_pool_request auto_config
    (get_request "mirror.local" "/a b/c" "?x=1&x=2&y=%20" [("x", "1"); ("x", "2"); ("y", " ")])
  = {| pool_path := "/a%20b/c?x=1%2C2&y=+";
       pool_method := "GET";
       pool_headers := [("accept", "*/*"); ("host", "origin.example")];
       pool_body := None |}.
Proof. reflexivity. Qed.

Lemma origin_failure_answers_witness :
  sample_GET auto_config (get_request "mirror.local" "/slow" "" []) 0
  = HTTPException 504 "Gateway Timeout" /\
  sample_ALL auto_config (post_request "/submit") 0
  = HTTPException 502 "Bad Gateway".
Proof.
  split.
  - apply (proj1 (origin_failure_answers simple_URL_parse simple_URL_href sample_origin
                    no_body auto_config (get_request "mirror.local" "/slow" "" []) 0
                    {| error_code := Some "UND_ERR_SOCKET_TIMEOUT";
                       error_message := "Socket timeout" |})).
    reflexivity.
  - apply (proj2 (origin_failure_answers simple_URL_parse simple_URL_href sample_origin
                    no_body auto_config (post_request "/submit") 0
                    {| error_code := Some "ECONNREFUSED";
                       error_message := "connect ECONNREFUSED" |})).
    reflexivity.
Defined.

Lemma redirect_answer_witness :
  res_status (sample_GET auto_config (get_request "mirror.local" "/old" "" []) 0) = 301%Z /\
  Headers.get (res_headers (sample_GET auto_config (get_request "mirror.local" "/old" "" []) 0))
              "Location" = Some "http://mirror.local/new" /\
  Headers.get (res_headers (sample_GET auto_config (get_request "mirror.local" "/old" "" []) 0))
              "Set-Cookie" = None.
Proof.
  destruct (redirect_answer simple_URL_parse simple_URL_href sample_origin
              auto_config (get_request "mirror.local" "/old" "" []) 0
              (reply 301
                 [("location", One "https://origin.example/new"); ("set-cookie", One "s=1")]
                 [])
              "https://origin.example/new" "http://mirror.local/new"
              "http://mirror.local/new")
    as (Hs & _ & Hh); try reflexivity; [discriminate|].
  split; [exact Hs|]. split; [exact (Hh "Location") | exact (Hh "Set-Cookie")].
Defined.

Lemma odd_redirect_answers_witness :
  sample_GET auto_config (get_request "mirror.local" "/gone" "" []) 0
  = HTTPException 504 "Gateway Timeout" /\
  sample_GET auto_config (get_request "mirror.local" "/choices" "" []) 0
  = HTTPException 502 "Bad Gateway".
Proof.
  split.
  - apply (proj1 (odd_redirect_answers simple_URL_parse simple_URL_href sample_origin
                    auto_config (get_request "mirror.local" "/gone" "" []) 0
                    (reply 302 [("location", One "https://bad host/timeout")] [])
                    "https://bad host/timeout" "https://bad host/timeout"
                    eq_refl eq_refl eq_refl ltac:(discriminate) eq_refl)).
    reflexivity.
  - apply (proj2 (odd_redirect_answers simple_URL_parse simple_URL_href sample_origin
                    auto_config (get_request "mirror.local" "/choices" "" []) 0
                    (reply 300 [("location", One "https://origin.example/first")] [])
                    "https://origin.example/first" "http://mirror.local/first"
                    eq_refl eq_refl eq_refl ltac:(discriminate) eq_refl)).
    + discriminate.
    + reflexivity.
Defined.

Lemma get_reply_relayed_witness :
  res_status (sample_GET auto_config (get_request "mirror.local" "/page" "" []) 0) = 200%Z /\
  res_body (sample_GET auto_config (get_request "mirror.local" "/page" "" []) 0)
  = [Byte.x3c; Byte.x70; Byte.x3e] /\
  Headers.get (res_headers (sample_GET auto_config (get_request "mirror.local" "/logo.png" "" []) 0))
              "Content-Length" = None.
Proof.
  destruct (get_reply_relayed simple_URL_parse simple_URL_href sample_origin
              auto_config (get_request "mirror.local" "/page" "" []) 0
              (reply 200
                 [("content-type", One "text/html"); ("set-cookie", Many ["a=1"; "b=2"])]
                 [Byte.x3c; Byte.x70; Byte.x3e]))
    as (Hs & _ & Hb & _); try reflexivity; [discriminate|].
  destruct (get_reply_relayed simple_URL_parse simple_URL_href sample_origin
              auto_config (get_request "mirror.local" "/logo.png" "" []) 0
              (reply 200
                 [("content-type", One "image/png"); ("content-length", One "4")]
                 [Byte.x89; Byte.x50; Byte.x4e; Byte.x47]))
    as (_ & _ & _ & Hstrip & _); try reflexivity; [discriminate|].
  split; [exact Hs|]. split; [exact Hb|].
  apply Hstrip. right. right. left. reflexivity.
Defined.

Lemma get_reply_cache_control_witness :
  Headers.get (res_headers (sample_GET force_config (get_request "mirror.local" "/page" "" []) 0))
              "Cache-Control" = Some "no-cache, no-store, must-revalidate" /\
  Headers.get (res_headers (sample_GET auto_config (get_request "mirror.local" "/logo.png" "" []) 0))
              "Cache-Control" = Some "public, max-age=300".
Proof.
  unfold sample_GET. split.
  - rewrite (get_reply_cache_control simple_URL_parse simple_URL_href sample_origin
               force_config (get_request "mirror.local" "/page" "" []) 0
               (reply 200
                  [("content-type", One "text/html"); ("set-cookie", Many ["a=1"; "b=2"])]
                  [Byte.x3c; Byte.x70; Byte.x3e]));
      try reflexivity. discriminate.
  - rewrite (get_reply_cache_control simple_URL_parse simple_URL_href sample_origin
               auto_config (get_request "mirror.local" "/logo.png" "" []) 0
               (reply 200
                  [("content-type", One "image/png"); ("content-length", One "4")]
                  [Byte.x89; Byte.x50; Byte.x4e; Byte.x47]));
      try reflexivity. discriminate.
Defined.

Lemma other_methods_reply_witness :
  res_status (sample_ALL force_config (post_request "/page") 0) = 200%Z /\
  Headers.get (res_headers (sample_ALL force_config (post_request "/page") 0))
              "Cache-Control" = Some "no-cache, no-store, must-revalidate".
Proof.
  destruct (other_methods_reply simple_URL_parse simple_URL_href sample_origin no_body
              force_config (post_request "/page") 0
              (reply 200
                 [("content-type", One "text/html"); ("set-cookie", Many ["a=1"; "b=2"])]
                 [Byte.x3c; Byte.x70; Byte.x3e]))
    as (Hs & _ & _ & Hcc & _); try reflexivity; [discriminate|].
  split; [exact Hs | exact Hcc].
Defined.

Lemma force_miss_then_hit_witness :
  exists r1 st1 r2 st2,
    mirror_fetch simple_URL_parse simple_URL_href sample_origin no_body force_config
      (get_request "mirror.local" "/page" "" []) 1000 (initial_state force_config)
    = Return (Some r1, st1) /\
    res_body r1 = [Byte.x3c; Byte.x70; Byte.x3e] /\
    Headers.get (res_headers r1) "Cache-Control" = Some no_store /\
    mirror_fetch simple_URL_parse simple_URL_href sample_origin no_body force_config
      (get_request "mirror.local" "/page" "" []) 2000 st1
    = Return (Some r2, st2) /\
    Headers.get (res_headers r2) "X-Cache" = Some "HIT" /\
    Headers.get (res_headers r2) "Cache-Control" = Some no_store /\
    res_body r2 = [Byte.x3c; Byte.x70; Byte.x3e].
Proof.
  apply (force_miss_then_hit simple_URL_parse simple_URL_href sample_origin no_body
           force_config (get_request "mirror.local" "/page" "" []) 1000 2000
           (reply 200
              [("content-type", One "text/html"); ("set-cookie", Many ["a=1"; "b=2"])]
              [Byte.x3c; Byte.x70; Byte.x3e])
           (initial_state force_config) fresh_store);
    try reflexivity.
  right. simpl. lia.
Defined.

(** ** HTML injection *)

Example inject_ex :
  inject {| INJECTED_HEAD_BEGIN := "<!--hb-->"; INJECTED_HEAD_END := "<!--he-->";
            INJECTED_BODY_BEGIN := ""; INJECTED_BODY_END := "<!--be-->" |}
         "<html><HEAD lang=x><title>t</title></Head><body>hi</body></html>"
  = ("<html><HEAD lang=x><!--hb--><title>t</title><!--he--></head><body>hi<!--be--></body></html>",
     ["HEAD_BEGIN"; "HEAD_END"; "BODY_END"]).
Proof. reflexivity. Qed.

Example inject_header_tag :
  fst (inject (only_head_begin "<!--hb-->") "<header>x</header><head></head>")
  = "<header><!--hb-->x</header><head></head>".
Proof. reflexivity. Qed.

Example inject_dollar_pattern :
  fst (inject (only_head_end "<script>a=$&;</script>") "<head></HEAD>")
  = "<head><script>a=</HEAD>;</script></head>".
Proof. reflexivity. Qed.

Lemma toLowerCase_app (a b : string) :
  JS.toLowerCase (a ++ b) = JS.toLowerCase a ++ JS.toLowerCase b.
Proof. induction a as [|c a IH]; simpl; [reflexivity | now rewrite IH]. Qed.

Lemma toLowerCase_length (s : string) :
  String.length (JS.toLowerCase s) = String.length s.
Proof. induction s as [|c s IH]; simpl; [reflexivity | now rewrite IH]. Qed.

Lemma take_app (a b : string) : take (String.length a) (a ++ b) = a.
Proof. induction a as [|c a IH]; simpl; [now destruct b | now rewrite IH]. Qed.

Lemma includes_suffix (p b : string) : forall a,
  JS.includes p (a ++ b) = false -> JS.includes p b = false.
Proof.
  induction a as [|c a IH]; intros H; [exact H|].
  change (String c a ++ b) with (String c (a ++ b)) in H.
  cbn [JS.includes] in H. apply orb_false_iff in H as [_ H]. now apply IH.
Qed.

Lemma includes_startsWith (p s : string) :
  JS.includes p s = false -> JS.startsWith p s = false.
Proof. destruct s; cbn [JS.includes]; intros H; now apply orb_false_iff in H as [H _]. Qed.

(** The search steps over a text in which the pattern matches nowhere. *)
Lemma search_skip (here : string -> option (string * string))
    (rest m r : string) :
  here rest = Some (m, r) ->
  forall pre,
  (forall s1 s2, pre = s1 ++ s2 -> s2 <> "" -> here (s2 ++ rest) = None) ->
  search here (pre ++ rest) = Some (pre, m, r).
Proof.
  intros Hrest. induction pre as [|c pre IH]; intros Hpre.
  - simpl. destruct rest; simpl; now rewrite Hrest.
  - change (String c pre ++ rest) with (String c (pre ++ rest)).
    cbn [search].
    assert (H0 : here (String c (pre ++ rest)) = None).
    { apply (Hpre "" (String c pre) eq_refl). discriminate. }
    rewrite H0, IH; [reflexivity|].
    intros s1 s2 -> Hs2. now apply (Hpre (String c s1) s2).
Qed.

Ltac decide_letters :=
  repeat match goal with
    | |- context [Ascii.eqb ?a (JS.lower_char ?c)] =>
        destruct (Ascii.eqb a (JS.lower_char c))
    end.

(** A match cannot begin before a ['<'] and run over it: the patterns
    hold one ['<'], their first character. *)
Lemma straddle_open_head (s r' : string) (r0 : ascii) :
  JS.lower_char r0 = "<"%char ->
  JS.startsWith "<head" (JS.toLowerCase s) = false ->
  s <> "" ->
  JS.startsWith "<head" (JS.toLowerCase (s ++ String r0 r')) = false.
Proof.
  intros Hr0 H Hs.
  destruct s as [|c0 [|c1 [|c2 [|c3 [|c4 s]]]]]; [contradiction | ..];
    cbn [JS.startsWith JS.toLowerCase append] in *; rewrite ?Hr0;
    try exact H; decide_letters; reflexivity.
Qed.

Lemma straddle_close_head (s r' : string) (r0 : ascii) :
  JS.lower_char r0 = "<"%char ->
  JS.startsWith "</head>" (JS.toLowerCase s) = false ->
  s <> "" ->
  JS.startsWith "</head>" (JS.toLowerCase (s ++ String r0 r')) = false.
Proof.
  intros Hr0 H Hs.
  destruct s as [|c0 [|c1 [|c2 [|c3 [|c4 [|c5 [|c6 s]]]]]]]; [contradiction | ..];
    cbn [JS.startsWith JS.toLowerCase append] in *; rewrite ?Hr0;
    try exact H; decide_letters; reflexivity.
Qed.

Lemma lower_first (tag p : string) :
  JS.toLowerCase tag = String "<" p ->
  exists r0 r', tag = String r0 r' /\ JS.lower_char r0 = "<"%char.
Proof.
  destruct tag as [|r0 r']; simpl; [discriminate|].
  intros H. injection H as H0 _. now exists r0, r'.
Qed.

Lemma search_absent (here : string -> option (string * string)) (p : string) :
  (forall t, JS.startsWith p (JS.toLowerCase t) = false -> here t = None) ->
  forall s, JS.includes p (JS.toLowerCase s) = false -> search here s = None.
Proof.
  intros Hhere. induction s as [|c s IH]; intros Hs.
  - cbn [search]. rewrite Hhere; [reflexivity|].
    simpl in Hs. now apply orb_false_iff in Hs as [Hs _].
  - cbn [JS.toLowerCase JS.includes] in Hs.
    apply orb_false_iff in Hs as [Hs1 Hs2].
    cbn [search]. rewrite (Hhere (String c s) Hs1). now rewrite (IH Hs2).
Qed.

Lemma open_tag_here_absent (tag t : string) :
  JS.startsWith ("<" ++ tag) (JS.toLowerCase t) = false ->
  open_tag_here tag t = None.
Proof. intros H. unfold open_tag_here. now rewrite H. Qed.

Lemma close_tag_here_absent (tag t : string) :
  JS.startsWith ("</" ++ tag ++ ">") (JS.toLowerCase t) = false ->
  close_tag_here tag t = None.
Proof. intros H. unfold close_tag_here. now rewrite H. Qed.

Lemma replace_with_absent (tag : string) (f : string -> string) (s : string) :
  JS.includes ("<" ++ tag) (JS.toLowerCase s) = false ->
  replace_with (open_tag_here tag) f s = s.
Proof.
  intros H. unfold replace_with.
  now rewrite (search_absent _ _ (open_tag_here_absent tag) s H).
Qed.

Lemma replace_template_absent (tag template s : string) :
  JS.includes ("</" ++ tag ++ ">") (JS.toLowerCase s) = false ->
  replace_template (close_tag_here tag) template s = s.
Proof.
  intros H. unfold replace_template.
  now rewrite (search_absent _ _ (close_tag_here_absent tag) s H).
Qed.

Lemma through_gt_app (post : string) : forall attrs,
  JS.includes ">" attrs = false ->
  through_gt (attrs ++ ">" ++ post) = Some (attrs ++ ">", post).
Proof.
  induction attrs as [|c attrs IH]; intros H.
  - reflexivity.
  - rewrite includes_char_cons in H. apply orb_false_iff in H as [Hc Ha].
    change (String c attrs ++ ">" ++ post) with (String c (attrs ++ ">" ++ post)).
    cbn [through_gt]. rewrite Ascii.eqb_sym, Hc. now rewrite (IH Ha).
Qed.

Lemma open_tag_here_match (name tag attrs post : string) :
  JS.toLowerCase tag = "<" ++ name ->
  JS.includes ">" attrs = false ->
  open_tag_here name (tag ++ attrs ++ ">" ++ post)
  = Some (tag ++ attrs ++ ">", post).
Proof.
  intros Htag Hattrs. unfold open_tag_here.
  rewrite toLowerCase_app, Htag, startsWith_app.
  rewrite <- Htag, toLowerCase_length, drop_app, take_app.
  now rewrite (through_gt_app post attrs Hattrs).
Qed.

Lemma close_tag_here_match (name tag post : string) :
  JS.toLowerCase tag = "</" ++ name ++ ">" ->
  close_tag_here name (tag ++ post) = Some (tag, post).
Proof.
  intros Htag. unfold close_tag_here.
  rewrite toLowerCase_app, Htag, startsWith_app.
  rewrite <- Htag, toLowerCase_length, drop_app, take_app. reflexivity.
Qed.

Lemma inject_log (sn : Snippets) (html : string) :
  snd (inject sn html) = configured sn.
Proof.
  unfold inject, configured.
  destruct (JS.truthy (Some (INJECTED_HEAD_BEGIN sn)));
  destruct (JS.truthy (Some (INJECTED_HEAD_END sn)));
  destruct (JS.truthy (Some (INJECTED_BODY_BEGIN sn)));
  destruct (JS.truthy (Some (INJECTED_BODY_END sn))); reflexivity.
Qed.

(** X23: A document with no [head] and no [body] tag goes through
    [htmlInjectMiddleware]'s replacements as it is, and the injection
    log still lists every configured snippet: the log records what is
    configured, not what was inserted. *)
Theorem inject_without_tags (sn : Snippets) (html : string)
    (Hhead : JS.includes "<head" (JS.toLowerCase html) = false)
    (Hhead_end : JS.includes "</head>" (JS.toLowerCase html) = false)
    (Hbody : JS.includes "<body" (JS.toLowerCase html) = false)
    (Hbody_end : JS.includes "</body>" (JS.toLowerCase html) = false) :
  inject sn html = (html, configured sn).
Proof.
  rewrite <- (inject_log sn html).
  rewrite (surjective_pairing (inject sn html)) at 1. f_equal.
  unfold inject.
  destruct (JS.truthy (Some (INJECTED_HEAD_BEGIN sn)));
  destruct (JS.truthy (Some (INJECTED_HEAD_END sn)));
  destruct (JS.truthy (Some (INJECTED_BODY_BEGIN sn)));
  destruct (JS.truthy (Some (INJECTED_BODY_END sn))); cbn [fst];
  rewrite ?(replace_with_absent "head" _ html Hhead);
  rewrite ?(replace_template_absent "head" _ html Hhead_end);
  rewrite ?(replace_with_absent "body" _ html Hbody);
  rewrite ?(replace_template_absent "body" _ html Hbody_end);
  reflexivity.
Qed.

Lemma inject_without_tags_witness :
  inject {| INJECTED_HEAD_BEGIN := "<!--a-->"; INJECTED_HEAD_END := "<!--b-->";
            INJECTED_BODY_BEGIN := "<!--c-->"; INJECTED_BODY_END := "<!--d-->" |}
         "<p>Moved <a href=/new>here</a></p>"
  = ("<p>Moved <a href=/new>here</a></p>",
     ["HEAD_BEGIN"; "HEAD_END"; "BODY_BEGIN"; "BODY_END"]).
Proof.
  apply (inject_without_tags
           {| INJECTED_HEAD_BEGIN := "<!--a-->"; INJECTED_HEAD_END := "<!--b-->";
              INJECTED_BODY_BEGIN := "<!--c-->"; INJECTED_BODY_END := "<!--d-->" |}
           "<p>Moved <a href=/new>here</a></p>"); reflexivity.
Defined.

(** X24: With only the head-begin snippet configured, the snippet goes in,
    character for character, right after the first ['>'] that follows
    the first [<head] of the document, in any case (so also after a
    [<header ...>] that comes before the head); the rest of the
    document is kept. *)
Theorem inject_head_begin (snippet pre tag attrs post : string)
    (Hsnippet : snippet <> "")
    (Hpre : JS.includes "<head" (JS.toLowerCase pre) = false)
    (Htag : JS.toLowerCase tag = "<head")
    (Hattrs : JS.includes ">" attrs = false) :
  inject (only_head_begin snippet) (pre ++ tag ++ attrs ++ ">" ++ post)
  = (pre ++ tag ++ attrs ++ ">" ++ snippet ++ post, ["HEAD_BEGIN"]).
Proof.
  unfold inject, only_head_begin. cbn [INJECTED_HEAD_BEGIN INJECTED_HEAD_END
    INJECTED_BODY_BEGIN INJECTED_BODY_END JS.truthy].
  apply String.eqb_neq in Hsnippet. rewrite Hsnippet. cbn [negb String.eqb app].
  f_equal. unfold replace_with.
  rewrite (search_skip (open_tag_here "head") _ (tag ++ attrs ++ ">") post
             (open_tag_here_match "head" tag attrs post Htag Hattrs) pre).
  - now rewrite !string_app_assoc.
  - intros s1 s2 -> Hs2. apply open_tag_here_absent.
    destruct (lower_first _ _ Htag) as (r0 & r' & -> & Hr0).
    apply straddle_open_head; [exact Hr0 | | exact Hs2].
    rewrite toLowerCase_app in Hpre.
    apply includes_startsWith. exact (includes_suffix _ _ _ Hpre).
Qed.

Lemma inject_head_begin_witness :
  inject (only_head_begin "<script src=/$&.js></script>")
         ("<!DOCTYPE html><html>" ++ "<HeaD" ++ "er class=top" ++ ">"
            ++ "<head><title>t</title></head>")
  = ("<!DOCTYPE html><html>" ++ "<HeaD" ++ "er class=top" ++ ">"
       ++ "<script src=/$&.js></script>" ++ "<head><title>t</title></head>",
     ["HEAD_BEGIN"]).
Proof.
  apply (inject_head_begin "<script src=/$&.js></script>" "<!DOCTYPE html><html>"
           "<HeaD" "er class=top" "<head><title>t</title></head>");
    [discriminate | reflexivity ..].
Defined.

(** X25: With only the head-end snippet configured and no ['$'] in it, the
    snippet goes in right before the first closing [head] tag, and that
    tag is written back in lower case whatever its case was. *)
Theorem inject_head_end_plain (snippet pre tag post : string)
    (Hsnippet : snippet <> "")
    (Hplain : JS.includes "$" snippet = false)
    (Hpre : JS.includes "</head>" (JS.toLowerCase pre) = false)
    (Htag : JS.toLowerCase tag = "</head>") :
  inject (only_head_end snippet) (pre ++ tag ++ post)
  = (pre ++ snippet ++ "</head>" ++ post, ["HEAD_END"]).
Proof.
  unfold inject, only_head_end. cbn [INJECTED_HEAD_BEGIN INJECTED_HEAD_END
    INJECTED_BODY_BEGIN INJECTED_BODY_END JS.truthy].
  apply String.eqb_neq in Hsnippet. rewrite Hsnippet. cbn [negb String.eqb app].
  f_equal. unfold replace_template.
  rewrite (search_skip (close_tag_here "head") _ tag post
             (close_tag_here_match "head" tag post Htag) pre).
  - rewrite expand_plain.
    + now rewrite !string_app_assoc.
    + rewrite includes_char_app, Hplain. reflexivity.
  - intros s1 s2 -> Hs2. apply close_tag_here_absent.
    destruct (lower_first _ _ Htag) as (r0 & r' & -> & Hr0).
    apply straddle_close_head; [exact Hr0 | | exact Hs2].
    rewrite toLowerCase_app in Hpre.
    apply includes_startsWith. exact (includes_suffix _ _ _ Hpre).
Qed.

Lemma inject_head_end_plain_witness :
  inject (only_head_end "<style>p{color:red}</style>")
         ("<html><head><title>t</title>" ++ "</HEAD>" ++ "<body></body></html>")
  = ("<html><head><title>t</title>" ++ "<style>p{color:red}</style>" ++ "</head>"
       ++ "<body></body></html>",
     ["HEAD_END"]).
Proof.
  apply (inject_head_end_plain "<style>p{color:red}</style>"
           "<html><head><title>t</title>" "</HEAD>" "<body></body></html>");
    [discriminate | reflexivity ..].
Defined.

Lemma get_delete_same (h : Headers.t) (n : string) :
  Headers.get (Headers.delete h n) n = None.
Proof. unfold Headers.get. now rewrite values_delete_same. Qed.

Lemma get_delete_other (h : Headers.t) (n m : string) :
  JS.toLowerCase m <> JS.toLowerCase n ->
  Headers.get (Headers.delete h n) m = Headers.get h m.
Proof. intros H. unfold Headers.get. now rewrite values_delete_other. Qed.

(** X26: A 200 response whose content type holds [text/html] and whose
    body is the UTF-8 of a document of code points up to 255 leaves
    [htmlInjectMiddleware], when a snippet is configured, with the same
    status and the injected document as its body.  Every header the
    response carried goes out with the value it had, because the
    assignment to [c.res] copies them back: that is also so for a
    [Content-Length], which the middleware deletes and which then
    states the length of the document before the injection.  Where the
    response had no such header the two markers show, the injection
    points being the configured ones. *)
Theorem htmlInject_answer (text : list Byte.byte -> string) (sn : Snippets)
    (r : Response) (document : string)
    (Hstatus : res_status r = 200%Z)
    (Htype : JS.includes "text/html"
               (JS.or_default (Headers.get (res_headers r) "content-type") "") = true)
    (Hsn : no_snippets sn = false)
    (Hbody : res_body r = utf8 document)
    (Htext : text (utf8 document) = document) :
  exists r',
    htmlInjectMiddleware text sn (Some r) = Some r' /\
    res_status r' = 200%Z /\
    res_statusText r' = res_statusText r /\
    res_body r' = utf8 (fst (inject sn document)) /\
    forall name,
      Headers.get (res_headers r') name =
      if Headers.has (res_headers r) name then Headers.get (res_headers r) name
      else if JS.toLowerCase name =? "x-html-injected" then Some "true"
      else if JS.toLowerCase name =? "x-injection-points"
      then Some (String.concat ", " (configured sn))
      else None.
Proof.
  unfold htmlInjectMiddleware. rewrite Hstatus, Htype, Hsn. cbn [Z.eqb Pos.eqb negb].
  rewrite Hbody, Htext.
  rewrite (surjective_pairing (inject sn document)), inject_log.
  eexists. split; [reflexivity|].
  cbn [set_res res_status res_statusText res_body].
  split; [reflexivity|]. split; [reflexivity|]. split; [reflexivity|].
  intros name. rewrite get_set_res. cbn [res_headers].
  rewrite !get_set.
  change (JS.toLowerCase "X-Injection-Points") with "x-injection-points".
  change (JS.toLowerCase "X-HTML-Injected") with "x-html-injected".
  assert (Hcopy : forall n,
            JS.toLowerCase n <> "content-length" ->
            Headers.get (if Headers.has (Headers.copy (res_headers r)) "content-length"
                         then Headers.delete (Headers.copy (res_headers r)) "content-length"
                         else Headers.copy (res_headers r)) n
            = Headers.get (res_headers r) n).
  { intros n Hn.
    destruct (Headers.has (Headers.copy (res_headers r)) "content-length").
    - rewrite get_delete_other by exact Hn. apply get_copy.
    - apply get_copy. }
  destruct (Headers.has (res_headers r) name) eqn:Hhas; cbn [andb].
  - destruct (String.eqb_spec (JS.toLowerCase name) "content-type") as [E | _];
      [|reflexivity].
    cbn [negb]. rewrite E. cbn [String.eqb Ascii.eqb Bool.eqb].
    apply Hcopy. rewrite E. discriminate.
  - destruct (String.eqb_spec (JS.toLowerCase name) "x-injection-points") as [E | _].
    { rewrite E. reflexivity. }
    destruct (String.eqb_spec (JS.toLowerCase name) "x-html-injected") as [E | _];
      [reflexivity|].
    destruct (String.eqb_spec (JS.toLowerCase name) "content-length") as [E | E].
    + destruct (Headers.has (Headers.copy (res_headers r)) "content-length") eqn:Hc.
      * rewrite <- get_lower, E. apply get_delete_same.
      * rewrite <- get_lower, E. apply (get_has_none _ _ Hc).
    + rewrite (Hcopy name E). apply (get_has_none _ _ Hhas).
Qed.

Lemma htmlInject_answer_witness :
  exists r',
    htmlInjectMiddleware ascii_text all_snippets (Some html_page) = Some r' /\
    res_body r' = utf8 "<head><!--a--><!--b--></head>" /\
    Headers.get (res_headers r') "Content-Length" = Some "13" /\
    Headers.get (res_headers r') "X-Injection-Points"
    = Some "HEAD_BEGIN, HEAD_END, BODY_BEGIN, BODY_END".
Proof.
  destruct (htmlInject_answer ascii_text all_snippets html_page "<head></head>"
              eq_refl eq_refl eq_refl eq_refl eq_refl)
    as (r' & Hrun & _ & _ & Hb & Hget).
  exists r'. split; [exact Hrun|]. split; [exact Hb|].
  split; rewrite Hget; reflexivity.
Defined.

Example htmlInject_ex :
  option_map (fun r => (res_headers r, res_body r))
    (htmlInjectMiddleware ascii_text all_snippets (Some html_page))
  = Some ([("content-type", "text/html; charset=utf-8"); ("etag", "abc");
           ("x-html-injected", "true");
           ("x-injection-points", "HEAD_BEGIN, HEAD_END, BODY_BEGIN, BODY_END");
           ("content-length", "13")],
          utf8 "<head><!--a--><!--b--></head>").
Proof. vm_compute. reflexivity. Qed.
